(** * A feed-forward network engine: [src/utils/neuralNetwork.ts]

    Shallow embedding of the [NeuralNetwork] class: topology construction
    ([initializeNetwork]), the forward pass, the backward pass, the
    activation functions and the loss.

    Modelling conventions.
    - A JavaScript [number] is a real number or [NaN].  Rounding and the
      infinities are not modelled; [NaN] is, because the engine produces it
      from [undefined] operands.
    - [Math.random] is a parameter: the sequence of the values it returns.
    - [this.nodes] and [this.connections] are lists; an object reference
      obtained from [filter] is the position of the object in the array, so
      that a write through the reference is a write into the array.
    - A [TypeError] (property read on [undefined]) ends the call and keeps
      the mutations done so far.

    The code of the application that computes with the engine follows the
    vocabulary: [trainStep] of [App.tsx], the data set operations of
    [components/DatasetPanel.tsx], the chart geometry of
    [components/MetricsDashboard.tsx] and the line geometry of
    [components/NetworkVisualization.tsx].  What only sets the state of the
    page or builds markup is left out; the built-ins [split], [trim] and
    [parseFloat] are parameters. *)

From Stdlib Require Import Reals Lra DecimalString DecimalNat.
From stdpp Require Import base tactics option list strings.

(** ** Numbers *)

Inductive number : Type :=
| Num (r : R)
| NaN.

Declare Scope js_scope.
Delimit Scope js_scope with js.
Bind Scope js_scope with number.

Definition lift2 (f : R -> R -> R) (a b : number) : number :=
  match a, b with
  | Num x, Num y => Num (f x y)
  | _, _ => NaN
  end.

Definition num_add : number -> number -> number := lift2 Rplus.
Definition num_sub : number -> number -> number := lift2 Rminus.
Definition num_mul : number -> number -> number := lift2 Rmult.

(** [a / b].  A zero divisor only occurs in [calculateLoss] on an empty
    prediction array, where the dividend is the empty sum [0] and JavaScript
    yields [NaN]. *)
Definition num_div (a b : number) : number :=
  match a, b with
  | Num x, Num y => if Req_dec_T y 0 then NaN else Num (x / y)
  | _, _ => NaN
  end.

Definition num_neg (a : number) : number :=
  match a with Num x => Num (- x) | NaN => NaN end.

Notation "a + b" := (num_add a b) : js_scope.
Notation "a - b" := (num_sub a b) : js_scope.
Notation "a * b" := (num_mul a b) : js_scope.
Notation "a / b" := (num_div a b) : js_scope.
Notation "- a" := (num_neg a) : js_scope.

(** [a > b] *)
Definition num_gt (a b : number) : bool :=
  match a, b with
  | Num x, Num y => if Rlt_dec y x then true else false
  | _, _ => false
  end.

(** [ToBoolean]: [0] and [NaN] are falsy. *)
Definition truthy (a : number) : bool :=
  match a with
  | Num x => if Req_dec_T x 0 then false else true
  | NaN => false
  end.

(** [ToNumber] of an array read or of a property read that may be
    [undefined]. *)
Definition ToNumber (v : option number) : number :=
  match v with Some a => a | None => NaN end.

(** [v || 0] *)
Definition or_zero (v : option number) : number :=
  match v with
  | Some a => if truthy a then a else Num 0
  | None => Num 0
  end.

Definition Math_exp (a : number) : number :=
  match a with Num x => Num (exp x) | NaN => NaN end.

Definition Math_tanh (a : number) : number :=
  match a with Num x => Num (tanh x) | NaN => NaN end.

Definition Math_max (a b : number) : number := lift2 Rmax a b.

(** [Math.pow(a, n)] for a literal natural exponent. *)
Definition Math_pow (a : number) (n : nat) : number :=
  match a with Num x => Num (x ^ n) | NaN => NaN end.

(** [Math.max(...layers)] over the layer indices of the nodes.  With no
    argument JavaScript gives [-Infinity]; the two loops bounded by it then
    run zero times, exactly as for [0]. *)
Definition Math_max_layers (ls : list nat) : nat := foldr Nat.max 0 ls.

(** ** Data model ([types/network.ts])

    [layer] and the widths of a configuration are natural numbers.  The
    declared type of [activationFunction] is the union of the three names;
    [activate] and [activateDerivative] have a [default] branch, so the
    selector is a string here. *)

Inductive NodeType : Type := input | hidden | output.

Global Instance NodeType_eq_dec : EqDecision NodeType.
Proof. solve_decision. Defined.

(** A node.  [id], [x] and [y] of the source are [node_id], [node_x] and
    [node_y]; [error] is not in the interface: it is the property the
    backward pass adds to the object ([None] while it is absent). *)
Record NetworkNode : Type := mkNode {
  node_id : string;
  node_x : nat;
  node_y : nat;
  layer : nat;
  activation : number;
  bias : number;
  type : NodeType;
  error : option number
}.

(** A connection; [id] of the source is [conn_id]. *)
Record NetworkConnection : Type := mkConn {
  conn_id : string;
  fromNodeId : string;
  toNodeId : string;
  weight : number;
  gradient : number
}.

Record NetworkConfig : Type := mkConfig {
  inputSize : nat;
  hiddenLayers : list nat;
  outputSize : nat;
  learningRate : number;
  activationFunction : string
}.

Record NeuralNetwork : Type := mkNet {
  nodes : list NetworkNode;
  connections : list NetworkConnection;
  config : NetworkConfig
}.

Definition set_activation (v : number) (n : NetworkNode) : NetworkNode :=
  mkNode (node_id n) (node_x n) (node_y n) (layer n) v (bias n) (type n) (error n).

Definition set_error (v : number) (n : NetworkNode) : NetworkNode :=
  mkNode (node_id n) (node_x n) (node_y n) (layer n) (activation n) (bias n) (type n)
    (Some v).

Definition set_gradient_weight (g w : number) (c : NetworkConnection) : NetworkConnection :=
  mkConn (conn_id c) (fromNodeId c) (toNodeId c) w g.

(** [n.type === t] and [n.layer === l]. *)
Definition is_type (t : NodeType) (n : NetworkNode) : bool := bool_decide (type n = t).
Definition in_layer (l : nat) (n : NetworkNode) : bool := layer n =? l.

(** ** Activation library *)

Definition sigmoid (x : number) : number := (Num 1 / (Num 1 + Math_exp (- x)))%js.

Definition activate (cfg : NetworkConfig) (x : number) : number :=
  if String.eqb (activationFunction cfg) "sigmoid" then sigmoid x
  else if String.eqb (activationFunction cfg) "relu" then Math_max (Num 0) x
  else if String.eqb (activationFunction cfg) "tanh" then Math_tanh x
  else sigmoid x.

Definition activateDerivative (cfg : NetworkConfig) (x : number) : number :=
  if String.eqb (activationFunction cfg) "sigmoid" then (x * (Num 1 - x))%js
  else if String.eqb (activationFunction cfg) "relu" then
         (if num_gt x (Num 0) then x else Num 0)
  else if String.eqb (activationFunction cfg) "tanh" then (Num 1 - x * x)%js
  else (x * (Num 1 - x))%js.

(** ** Loss *)

(** [predictions.reduce((sum, pred, i) => sum + Math.pow(pred - targets[i], 2), 0)],
    started at index [i] with accumulator [sum]. *)
Fixpoint reduce_loss (targets : list number) (i : nat) (sum : number)
    (predictions : list number) : number :=
  match predictions with
  | [] => sum
  | pred :: rest =>
      reduce_loss targets (S i)
        (sum + Math_pow (pred - ToNumber (targets !! i)) 2)%js rest
  end.

Definition of_nat (n : nat) : number := Num (INR n).

Definition calculateLoss (predictions targets : list number) : number :=
  (reduce_loss targets 0 (Num 0) predictions / of_nat (length predictions))%js.

(** ** Topology builder *)

Definition layerSizes (cfg : NetworkConfig) : list nat :=
  inputSize cfg :: hiddenLayers cfg ++ [outputSize cfg].

(** Template-literal rendering of a counter. *)
Definition nat_to_string (n : nat) : string :=
  NilEmpty.string_of_uint (Nat.to_uint n).

Definition layerType (len layerIndex : nat) : NodeType :=
  if layerIndex =? 0 then input
  else if layerIndex =? len - 1 then output
  else hidden.

(** The arrays under construction, the [nodeId] counter and the number of
    calls made to [Math.random] so far. *)
Record Builder : Type := mkBuilder {
  b_nodes : list NetworkNode;
  b_connections : list NetworkConnection;
  b_nodeId : nat;
  b_draws : nat
}.

Section Build.
(** [random k] is the value of the [k]-th call of [Math.random()]. *)
Variable random : nat -> R.

(** [this.nodes.push({...})] for the [i]-th node of layer [layerIndex]. *)
Definition push_node (ty : NodeType) (layerIndex : nat) (st : Builder) (i : nat)
    : Builder :=
  mkBuilder
    (b_nodes st ++
     [mkNode ("node-" +:+ nat_to_string (b_nodeId st))
             (layerIndex * 200 + 100) (i * 80 + 100)
             layerIndex (Num 0)
             (Num (random (b_draws st)) * Num 2 - Num 1)%js
             ty None])
    (b_connections st) (S (b_nodeId st)) (S (b_draws st)).

Definition create_layer (len : nat) (st : Builder) (layerIndex layerSize : nat)
    : Builder :=
  foldl (push_node (layerType len layerIndex) layerIndex) st (seq 0 layerSize).

(** [layerSizes.forEach((layerSize, layerIndex) => ...)], from [layerIndex] on. *)
Fixpoint create_layers (len : nat) (sizes : list nat) (layerIndex : nat)
    (st : Builder) : Builder :=
  match sizes with
  | [] => st
  | layerSize :: rest =>
      create_layers len rest (S layerIndex) (create_layer len st layerIndex layerSize)
  end.

Definition push_connection (st : Builder) (fromNode toNode : NetworkNode) : Builder :=
  mkBuilder
    (b_nodes st)
    (b_connections st ++
     [mkConn ("conn-" +:+ node_id fromNode +:+ "-" +:+ node_id toNode)
             (node_id fromNode) (node_id toNode)
             (Num (random (b_draws st)) * Num 2 - Num 1)%js
             (Num 0)])
    (b_nodeId st) (S (b_draws st)).

(** Body of the loop over [layer] that creates the connections. *)
Definition connect_layer (st : Builder) (l : nat) : Builder :=
  let currentLayerNodes := List.filter (in_layer l) (b_nodes st) in
  let nextLayerNodes := List.filter (in_layer (l + 1)) (b_nodes st) in
  foldl (fun st fromNode =>
           foldl (fun st toNode => push_connection st fromNode toNode)
                 st nextLayerNodes)
        st currentLayerNodes.

Definition initializeNetwork (cfg : NetworkConfig) : NeuralNetwork :=
  let sizes := layerSizes cfg in
  let st := create_layers (length sizes) sizes 0 (mkBuilder [] [] 0 0) in
  let st := foldl connect_layer st (seq 0 (length sizes - 1)) in
  mkNet (b_nodes st) (b_connections st) cfg.
End Build.

(** ** Calls that mutate the network *)

Inductive Completion (A : Type) : Type :=
| Normal (v : A)
| TypeError.
Arguments Normal {A} v.
Arguments TypeError {A}.

Definition Eff (A : Type) : Type := NeuralNetwork -> Completion A * NeuralNetwork.

Definition ret {A} (v : A) : Eff A := fun s => (Normal v, s).

Definition bind {A B} (m : Eff A) (k : A -> Eff B) : Eff B :=
  fun s =>
    match m s with
    | (Normal v, s') => k v s'
    | (TypeError, s') => (TypeError, s')
    end.

Definition gets {A} (f : NeuralNetwork -> A) : Eff A := fun s => (Normal (f s), s).

Declare Scope eff_scope.
Delimit Scope eff_scope with eff.
Notation "x <- m ;; k" := (bind m (fun x => k))
  (at level 100, m at next level, right associativity) : eff_scope.
Notation "m ;; k" := (bind m (fun _ => k))
  (at level 100, right associativity) : eff_scope.
Open Scope eff_scope.

(** [l.forEach((a, index) => f a index)], the index counted from [i]. *)
Fixpoint forEach_from {A} (i : nat) (l : list A) (f : A -> nat -> Eff unit) : Eff unit :=
  match l with
  | [] => ret tt
  | a :: rest => f a i;; forEach_from (S i) rest f
  end.

Definition forEach {A} (l : list A) (f : A -> nat -> Eff unit) : Eff unit :=
  forEach_from 0 l f.

(** [l.forEach] whose body only reads the network and updates a local
    accumulator. *)
Fixpoint accumulate {A} (l : list A) (f : number -> A -> Eff number) (acc : number)
    : Eff number :=
  match l with
  | [] => ret acc
  | a :: rest => acc' <- f acc a;; accumulate rest f acc'
  end.

(** References into [this.nodes] kept by [this.nodes.filter(p)]. *)
Fixpoint refs_from {A} (p : A -> bool) (i : nat) (l : list A) : list nat :=
  match l with
  | [] => []
  | a :: rest => if p a then i :: refs_from p (S i) rest else refs_from p (S i) rest
  end.

Definition filter_nodes (p : NetworkNode -> bool) : Eff (list nat) :=
  gets (fun s => refs_from p 0 (nodes s)).

(** Read of the object behind a reference. *)
Definition deref (node : nat) : Eff NetworkNode :=
  fun s => match nodes s !! node with
           | Some n => (Normal n, s)
           | None => (TypeError, s)
           end.

Definition deref_conn (conn : nat) : Eff NetworkConnection :=
  fun s => match connections s !! conn with
           | Some c => (Normal c, s)
           | None => (TypeError, s)
           end.

(** [this.nodes.find(n => n.id === id)!] followed by a property read. *)
Definition find_node (id : string) : Eff NetworkNode :=
  fun s => match List.find (fun n => String.eqb (node_id n) id) (nodes s) with
           | Some n => (Normal n, s)
           | None => (TypeError, s)
           end.

(** Write through a reference. *)
Definition update_node (f : NetworkNode -> NetworkNode) (node : nat) : Eff unit :=
  fun s => (Normal tt, mkNet (alter f node (nodes s)) (connections s) (config s)).

Definition update_conn (f : NetworkConnection -> NetworkConnection) (conn : nat)
    : Eff unit :=
  fun s => (Normal tt, mkNet (nodes s) (alter f conn (connections s)) (config s)).

(** *** forward *)

(** Body of [layerNodes.forEach] in [forward]. *)
Definition forward_node (node : nat) : Eff unit :=
  n <- deref node;;
  incomingConnections <-
    gets (fun s => List.filter (fun c => String.eqb (toNodeId c) (node_id n))
                               (connections s));;
  sum <- accumulate incomingConnections
           (fun sum conn =>
              fromNode <- find_node (fromNodeId conn);;
              ret (sum + activation fromNode * weight conn)%js)
           (bias n);;
  cfg <- gets config;;
  update_node (set_activation (activate cfg sum)) node.

(** Body of the loop over [layer]. *)
Definition forward_layer (l : nat) : Eff unit :=
  layerNodes <- filter_nodes (in_layer l);;
  forEach layerNodes (fun node _ => forward_node node).

Definition forward (inputs : list number) : Eff (list number) :=
  inputNodes <- filter_nodes (is_type input);;
  forEach inputNodes
    (fun node index => update_node (set_activation (or_zero (inputs !! index))) node);;
  layers <- gets (fun s => Math_max_layers (map layer (nodes s)));;
  forEach (seq 1 layers) (fun l _ => forward_layer l);;
  gets (fun s => map activation (List.filter (is_type output) (nodes s))).

(** *** backward *)

(** Body of [outputNodes.forEach]. *)
Definition backward_output (expectedOutputs : list number) (node index : nat) : Eff unit :=
  n <- deref node;;
  cfg <- gets config;;
  let error := (ToNumber (expectedOutputs !! index) - activation n)%js in
  update_node (set_error (error * activateDerivative cfg (activation n))%js) node.

(** Body of [layerNodes.forEach] in [backward]; input nodes return at once. *)
Definition backward_node (node : nat) : Eff unit :=
  n <- deref node;;
  if is_type input n then ret tt
  else
    outgoingConnections <-
      gets (fun s => List.filter (fun c => String.eqb (fromNodeId c) (node_id n))
                                 (connections s));;
    errorSum <- accumulate outgoingConnections
                  (fun errorSum conn =>
                     toNode <- find_node (toNodeId conn);;
                     ret (errorSum + ToNumber (error toNode) * weight conn)%js)
                  (Num 0);;
    cfg <- gets config;;
    update_node (set_error (errorSum * activateDerivative cfg (activation n))%js) node.

Definition backward_layer (l : nat) : Eff unit :=
  layerNodes <- filter_nodes (in_layer l);;
  forEach layerNodes (fun node _ => backward_node node).

(** Body of [this.connections.forEach]. *)
Definition backward_connection (conn : nat) : Eff unit :=
  c <- deref_conn conn;;
  fromNode <- find_node (fromNodeId c);;
  toNode <- find_node (toNodeId c);;
  cfg <- gets config;;
  let gradient := (ToNumber (error toNode) * activation fromNode)%js in
  update_conn (set_gradient_weight gradient (weight c + learningRate cfg * gradient)%js)
              conn.

Definition backward (expectedOutputs : list number) : Eff unit :=
  outputNodes <- filter_nodes (is_type output);;
  forEach outputNodes (backward_output expectedOutputs);;
  layers <- gets (fun s => Math_max_layers (map layer (nodes s)));;
  forEach (rev (seq 0 layers)) (fun l _ => backward_layer l);;
  n <- gets (fun s => length (connections s));;
  forEach (seq 0 n) (fun conn _ => backward_connection conn).

(** * Specification vocabulary *)

(** ** Mean squared error *)

(** The spec's formula: sum over [i] of [(p[i] - t[i])^2], and its mean. *)
Fixpoint sum_squared_errors (p t : list R) : R :=
  match p, t with
  | x :: p', y :: t' => (x - y) ^ 2 + sum_squared_errors p' t'
  | _, _ => 0
  end.

Definition mean_squared_error (p t : list R) : R :=
  sum_squared_errors p t / INR (length p).

(** ** Frames: what a call leaves untouched *)

(** A relation between the network before and after a computation holds
    for every computation built from steps for which it holds. *)
Definition preserves {A} (F : relation NeuralNetwork) (m : Eff A) : Prop :=
  forall s, F s (m s).2.

(** Nodes related pointwise by [Fn], connections pointwise by [Fc], same
    configuration. *)
Definition frame (Fn : relation NetworkNode) (Fc : relation NetworkConnection)
    : relation NeuralNetwork :=
  fun s s' =>
    Forall2 Fn (nodes s) (nodes s') /\
    Forall2 Fc (connections s) (connections s') /\
    config s' = config s.

(** Everything of a node but its activation. *)
Definition node_static (n : NetworkNode) :=
  (node_id n, node_x n, node_y n, layer n, bias n, type n).

Definition same_but_activation : relation NetworkNode :=
  fun n n' => node_static n' = node_static n /\ error n' = error n.

Definition same_but_error : relation NetworkNode :=
  fun n n' => node_static n' = node_static n /\ activation n' = activation n.

Definition same_endpoints : relation NetworkConnection :=
  fun c c' =>
    conn_id c' = conn_id c /\ fromNodeId c' = fromNodeId c /\ toNodeId c' = toNodeId c.

Definition forward_frame : relation NeuralNetwork := frame same_but_activation eq.
Definition backward_frame : relation NeuralNetwork := frame same_but_error same_endpoints.

(** ** Sums over connections and in-place updates *)

(** The value a loop over [cs] accumulates: for each connection, the node
    with identifier [key c] is looked up in [ns] and [read] of it, times the
    weight, is added; [None] when a lookup finds nothing. *)
Fixpoint gather (read : NetworkNode -> number) (key : NetworkConnection -> string)
    (ns : list NetworkNode) (cs : list NetworkConnection) (acc : number)
    : option number :=
  match cs with
  | [] => Some acc
  | c :: rest =>
      match List.find (fun n => String.eqb (node_id n) (key c)) ns with
      | Some m => gather read key ns rest (acc + read m * weight c)%js
      | None => None
      end
  end.

Definition incoming (cs : list NetworkConnection) (n : NetworkNode) :=
  List.filter (fun c => String.eqb (toNodeId c) (node_id n)) cs.

Definition outgoing (cs : list NetworkConnection) (n : NetworkNode) :=
  List.filter (fun c => String.eqb (fromNodeId c) (node_id n)) cs.

(** Bias plus the weighted activations of the sources of [n]. *)
Definition node_input (ns : list NetworkNode) (cs : list NetworkConnection)
    (n : NetworkNode) : option number :=
  gather activation fromNodeId ns (incoming cs n) (bias n).

(** The weighted errors of the destinations of [n]. *)
Definition error_sum (ns : list NetworkNode) (cs : list NetworkConnection)
    (n : NetworkNode) : option number :=
  gather (fun m => ToNumber (error m)) toNodeId ns (outgoing cs n) (Num 0).

(** [upd m n] applied to the [m]-th (counted from [m0]) element satisfying
    [p], the others kept. *)
Fixpoint map_matching {A} (p : A -> bool) (upd : nat -> A -> A) (m0 : nat) (l : list A)
    : list A :=
  match l with
  | [] => []
  | a :: rest =>
      if p a then upd m0 a :: map_matching p upd (S m0) rest
      else a :: map_matching p upd m0 rest
  end.

Definition count_matching {A} (p : A -> bool) (l : list A) : nat :=
  length (List.filter p l).

(** ** Well-formed networks *)

(** The layer of the node [find] returns for [id]. *)
Definition layer_of (ns : list NetworkNode) (id : string) : option nat :=
  layer <$> List.find (fun n => String.eqb (node_id n) id) ns.

(** Identifiers are unique; every connection leads from a node to a node of
    the next layer; the input nodes are the nodes of layer [0] and the
    output nodes those of the last layer; the configuration gives the
    number of input and of output nodes. *)
Definition well_formed (net : NeuralNetwork) : Prop :=
  NoDup (map node_id (nodes net)) /\
  Forall (fun c => is_Some (layer_of (nodes net) (fromNodeId c)) /\
                   layer_of (nodes net) (toNodeId c)
                   = S <$> layer_of (nodes net) (fromNodeId c))
         (connections net) /\
  Forall (fun n => type n = input <-> layer n = 0) (nodes net) /\
  Forall (fun n => type n = output <->
                   layer n = Math_max_layers (map layer (nodes net)))
         (nodes net) /\
  count_matching (is_type input) (nodes net) = inputSize (config net) /\
  count_matching (is_type output) (nodes net) = outputSize (config net).

Global Instance well_formed_dec net : Decision (well_formed net).
Proof. unfold well_formed. apply _. Defined.

(** ** The forward pass as a function on the node list *)

(** The write [forward] does on a node of the layer being processed, the
    inputs of the node read in [ns]. *)
Definition forward_update (cfg : NetworkConfig) (ns : list NetworkNode)
    (cs : list NetworkConnection) (n : NetworkNode) : NetworkNode :=
  match node_input ns cs n with
  | Some sum => set_activation (activate cfg sum) n
  | None => n
  end.

Definition forward_layer_nodes (cfg : NetworkConfig) (cs : list NetworkConnection)
    (ns : list NetworkNode) (l : nat) : list NetworkNode :=
  map_matching (in_layer l) (fun _ => forward_update cfg ns cs) 0 ns.

Definition set_input_nodes (inputs : list number) (ns : list NetworkNode)
    : list NetworkNode :=
  map_matching (is_type input) (fun index => set_activation (or_zero (inputs !! index)))
               0 ns.

Definition forward_nodes (cfg : NetworkConfig) (cs : list NetworkConnection)
    (inputs : list number) (ns : list NetworkNode) : list NetworkNode :=
  let ns1 := set_input_nodes inputs ns in
  foldl (forward_layer_nodes cfg cs) ns1 (seq 1 (Math_max_layers (map layer ns1))).

(** [n] holds the activation function applied to its bias plus the weighted
    activations of its sources, all read in [ns]. *)
Definition node_ok (cfg : NetworkConfig) (ns : list NetworkNode)
    (cs : list NetworkConnection) (n : NetworkNode) : Prop :=
  exists sum, node_input ns cs n = Some sum /\ activation n = activate cfg sum.

(** ** The backward pass as a function on the node and connection lists *)

Definition output_error (cfg : NetworkConfig) (expectedOutputs : list number)
    (index : nat) (n : NetworkNode) : number :=
  ((ToNumber (expectedOutputs !! index) - activation n)
   * activateDerivative cfg (activation n))%js.

Definition set_output_errors (cfg : NetworkConfig) (expectedOutputs : list number)
    (ns : list NetworkNode) : list NetworkNode :=
  map_matching (is_type output)
    (fun index n => set_error (output_error cfg expectedOutputs index n) n) 0 ns.

Definition backward_update (cfg : NetworkConfig) (ns : list NetworkNode)
    (cs : list NetworkConnection) (n : NetworkNode) : NetworkNode :=
  if is_type input n then n
  else match error_sum ns cs n with
       | Some errorSum =>
           set_error (errorSum * activateDerivative cfg (activation n))%js n
       | None => n
       end.

Definition backward_layer_nodes (cfg : NetworkConfig) (cs : list NetworkConnection)
    (ns : list NetworkNode) (l : nat) : list NetworkNode :=
  map_matching (in_layer l) (fun _ => backward_update cfg ns cs) 0 ns.

Definition connection_update (cfg : NetworkConfig) (ns : list NetworkNode)
    (c : NetworkConnection) : NetworkConnection :=
  match List.find (fun n => String.eqb (node_id n) (fromNodeId c)) ns,
        List.find (fun n => String.eqb (node_id n) (toNodeId c)) ns with
  | Some fromNode, Some toNode =>
      let gradient := (ToNumber (error toNode) * activation fromNode)%js in
      set_gradient_weight gradient (weight c + learningRate cfg * gradient)%js c
  | _, _ => c
  end.

Definition backward_nodes (cfg : NetworkConfig) (cs : list NetworkConnection)
    (expectedOutputs : list number) (ns : list NetworkNode) : list NetworkNode :=
  let ns1 := set_output_errors cfg expectedOutputs ns in
  foldl (backward_layer_nodes cfg cs) ns1
        (rev (seq 0 (Math_max_layers (map layer ns1)))).

(** [n] holds the derivative at its activation times the weighted errors of
    its destinations, all read in [ns] with the weights of [cs]. *)
Definition error_ok (cfg : NetworkConfig) (ns : list NetworkNode)
    (cs : list NetworkConnection) (n : NetworkNode) : Prop :=
  exists errorSum,
    error_sum ns cs n = Some errorSum /\
    error n = Some (errorSum * activateDerivative cfg (activation n))%js.

(** What [backward] does to a connection, given the final node list. *)
Definition connection_updated (cfg : NetworkConfig) (ns' : list NetworkNode)
    (c c' : NetworkConnection) : Prop :=
  exists src dst e,
    List.find (fun n => String.eqb (node_id n) (fromNodeId c)) ns' = Some src /\
    List.find (fun n => String.eqb (node_id n) (toNodeId c)) ns' = Some dst /\
    error dst = Some e /\
    gradient c' = (e * activation src)%js /\
    weight c' = (weight c + learningRate cfg * gradient c')%js /\
    same_endpoints c c'.

(** ** Example networks *)

(** The configuration the application starts with. *)
Definition initial_config : NetworkConfig :=
  mkConfig 2 [4; 3] 1 (Num (1 / 10)) "sigmoid".

(** A network built from it, every call of [Math.random] returning [1/2]. *)
Definition initial_network : NeuralNetwork :=
  initializeNetwork (fun _ => (1 / 2)%R) initial_config.

(** One input, no hidden layer, two outputs, learning rate [1]. *)
Definition two_output_config : NetworkConfig := mkConfig 1 [] 2 (Num 1) "sigmoid".

(** The network built from it when every call of [Math.random] returns
    [1/2]: all biases and weights are [1/2 * 2 - 1 = 0]. *)
Definition two_output_built : NeuralNetwork :=
  mkNet [mkNode "node-0" 100 100 0 (Num 0) (Num 0) input None;
         mkNode "node-1" 300 100 1 (Num 0) (Num 0) output None;
         mkNode "node-2" 300 180 1 (Num 0) (Num 0) output None]
        [mkConn "conn-node-0-node-1" "node-0" "node-1" (Num 0) (Num 0);
         mkConn "conn-node-0-node-2" "node-0" "node-2" (Num 0) (Num 0)]
        two_output_config.

(** The state [forward] leaves it in for the input vector [[1]]: both
    outputs are [sigmoid 0 = 1/2]. *)
Definition two_output_net : NeuralNetwork :=
  mkNet [mkNode "node-0" 100 100 0 (Num 1) (Num 0) input None;
         mkNode "node-1" 300 100 1 (Num (1 / 2)) (Num 0) output None;
         mkNode "node-2" 300 180 1 (Num (1 / 2)) (Num 0) output None]
        [mkConn "conn-node-0-node-1" "node-0" "node-1" (Num 0) (Num 0);
         mkConn "conn-node-0-node-2" "node-0" "node-2" (Num 0) (Num 0)]
        two_output_config.

(** ** The topology builder in closed form *)

(** The [i]-th node pushed for layer [layerIndex], when [nodeId] nodes
    existed and [draws] numbers had been drawn before that layer. *)
Definition new_node (random : nat -> R) (len layerIndex nodeId draws i : nat)
    : NetworkNode :=
  mkNode ("node-" +:+ nat_to_string (nodeId + i))
         (layerIndex * 200 + 100) (i * 80 + 100) layerIndex (Num 0)
         (Num (random (draws + i)%nat) * Num 2 - Num 1)%js
         (layerType len layerIndex) None.

Fixpoint built_nodes (random : nat -> R) (len : nat) (sizes : list nat)
    (layerIndex nodeId draws : nat) : list NetworkNode :=
  match sizes with
  | [] => []
  | layerSize :: rest =>
      map (new_node random len layerIndex nodeId draws) (seq 0 layerSize)
      ++ built_nodes random len rest (S layerIndex) (nodeId + layerSize) (draws + layerSize)
  end.

Definition endpoints (c : NetworkConnection) : string * string :=
  (fromNodeId c, toNodeId c).

(** The endpoint pairs created between layer [l] and the next one. *)
Definition layer_pairs (ns : list NetworkNode) (l : nat) : list (string * string) :=
  flat_map (fun fromNode =>
              map (fun toNode => (node_id fromNode, node_id toNode))
                  (List.filter (in_layer (l + 1)) ns))
           (List.filter (in_layer l) ns).

(** [I*H1 + H1*H2 + ... + Hk*O] for the widths [[I; H1; ...; Hk; O]]. *)
Fixpoint adjacent_products (sizes : list nat) : nat :=
  match sizes with
  | [] => 0
  | a :: rest =>
      match rest with
      | [] => 0
      | b :: _ => a * b
      end + adjacent_products rest
  end.

(** ** Layering and sequences of calls *)

(** A connection leads from [a] to [b] exactly when [b] is one layer
    after [a]. *)
Definition layered (net : NeuralNetwork) : Prop :=
  forall a b, a ∈ nodes net -> b ∈ nodes net ->
    (exists c, c ∈ connections net /\
               fromNodeId c = node_id a /\ toNodeId c = node_id b)
    <-> S (layer a) = layer b.

(** A sequence of calls on a network. *)
Inductive Call : Type :=
| Forward (inputs : list number)
| Backward (expectedOutputs : list number).

Definition call (net : NeuralNetwork) (c : Call) : NeuralNetwork :=
  match c with
  | Forward inputs => (forward inputs net).2
  | Backward expectedOutputs => (backward expectedOutputs net).2
  end.

(** Identifier, layer and type of a node; identifier and endpoints of a
    connection. *)
Definition node_key (n : NetworkNode) := (node_id n, layer n, type n).
Definition connection_key (c : NetworkConnection) :=
  (conn_id c, fromNodeId c, toNodeId c).

(** ** Real-valued networks *)

(** A number other than [NaN]. *)
Definition is_real (a : number) : Prop :=
  match a with Num _ => True | NaN => False end.

Global Instance is_real_dec a : Decision (is_real a).
Proof. destruct a; apply _. Defined.

(** Every bias and every weight is a real number. *)
Definition real_parameters (net : NeuralNetwork) : Prop :=
  Forall (fun n => is_real (bias n)) (nodes net) /\
  Forall (fun c => is_real (weight c)) (connections net).

Global Instance real_parameters_dec net : Decision (real_parameters net).
Proof. unfold real_parameters. apply _. Defined.

(** Every activation is a real number. *)
Definition real_activations (net : NeuralNetwork) : Prop :=
  Forall (fun n => is_real (activation n)) (nodes net).

Global Instance real_activations_dec net : Decision (real_activations net).
Proof. unfold real_activations. apply _. Defined.

(** What [forward] returns: the activations of the output nodes, in node
    order. *)
Definition predictions (net : NeuralNetwork) : list number :=
  map activation (List.filter (is_type output) (nodes net)).

(** ** The connections the builder creates *)

(** The [k]-th connection pushed, between the nodes named by [p], when
    [draws] numbers had been drawn before the first connection. *)
Definition new_connection (random : nat -> R) (draws k : nat) (p : string * string)
    : NetworkConnection :=
  mkConn ("conn-" +:+ p.1 +:+ "-" +:+ p.2) p.1 p.2
         (Num (random (draws + k)%nat) * Num 2 - Num 1)%js (Num 0).

(** The builder holds the connections for the pairs [ps], and nothing else. *)
Definition wired (random : nat -> R) (draws : nat) (st : Builder)
    (ps : list (string * string)) : Prop :=
  b_connections st = imap (new_connection random draws) ps /\
  b_draws st = draws + length ps.

(** ** Identifiers *)

(** A string without the separator ["-"]. *)
Fixpoint dashless (s : string) : Prop :=
  match s with
  | EmptyString => True
  | String a rest => String a EmptyString <> "-" /\ dashless rest
  end.

(** The identifier of the connection between the nodes named by [p]. *)
Definition connection_name (p : string * string) : string :=
  "conn-" +:+ p.1 +:+ "-" +:+ p.2.

(** The position at which a node is drawn. *)
Definition position (n : NetworkNode) : nat * nat := (node_x n, node_y n).

(** The type is kept, and so is the error of an input node. *)
Definition input_error_kept : relation NetworkNode :=
  fun n n' => type n' = type n /\ (type n = input -> error n' = error n).

(** * The training step ([App.tsx]) *)

(** A sample ([TrainingData] of [types/network.ts]). *)
Record TrainingData : Type := mkData {
  inputs : list number;
  outputs : list number;
  label : option string
}.

(** An entry of the metrics history ([TrainingMetrics]), without its
    [timestamp], a reading of the clock. *)
Record TrainingMetrics : Type := mkMetrics {
  epoch : nat;
  loss : number;
  accuracy : number
}.

(** The locals [totalLoss] and [correctPredictions] of [trainStep]. *)
Record Totals : Type := mkTotals {
  totalLoss : number;
  correctPredictions : nat
}.

(** [v > 0.5 ? 1 : 0] for an array read [v], as a truth value. *)
Definition above_half (v : option number) : bool :=
  num_gt (ToNumber v) (Num (1 / 2)).

(** The totals after a sample whose prediction was [predictions]. *)
Definition score (data : TrainingData) (predictions : list number) (t : Totals)
    : Totals :=
  mkTotals
    (totalLoss t + calculateLoss predictions (outputs data))%js
    (if length (outputs data) =? 1 then
       if Bool.eqb (above_half (predictions !! 0)) (above_half (outputs data !! 0))
       then S (correctPredictions t)
       else correctPredictions t
     else correctPredictions t).

(** Body of [trainingData.forEach(...)] in [trainStep]; the calls that only
    set what the page displays are left out. *)
Definition train_sample (data : TrainingData) (t : Totals) : Eff Totals :=
  predictions <- forward (inputs data);;
  backward (outputs data);;
  ret (score data predictions t).

Fixpoint train_samples (trainingData : list TrainingData) (t : Totals) : Eff Totals :=
  match trainingData with
  | [] => ret t
  | data :: rest => t' <- train_sample data t;; train_samples rest t'
  end.

(** [trainStep] when the epoch counter it reads is [currentEpoch]: the
    network is trained on every sample in turn; the result is the metrics
    entry appended to the history, [None] when the function returns early. *)
Definition trainStep (currentEpoch : nat) (trainingData : list TrainingData)
    : Eff (option TrainingMetrics) :=
  if length trainingData =? 0 then ret None
  else
    t <- train_samples trainingData (mkTotals (Num 0) 0);;
    let avgLoss := (totalLoss t / of_nat (length trainingData))%js in
    let accuracy :=
      (of_nat (correctPredictions t) / of_nat (length trainingData) * Num 100)%js in
    ret (Some (mkMetrics (currentEpoch + 1) avgLoss accuracy)).

(** ** The training step as a function *)

(** The network after training on one sample. *)
Definition trained (net : NeuralNetwork) (data : TrainingData) : NeuralNetwork :=
  call (call net (Forward (inputs data))) (Backward (outputs data)).

(** Network and totals after training on the samples in turn. *)
Fixpoint train_all (trainingData : list TrainingData) (t : Totals) (net : NeuralNetwork)
    : Totals * NeuralNetwork :=
  match trainingData with
  | [] => (t, net)
  | data :: rest =>
      train_all rest
        (score data (predictions (call net (Forward (inputs data)))) t)
        (trained net data)
  end.

(** Everything of a node but its activation and its error. *)
Definition same_static : relation NetworkNode :=
  fun n n' => node_static n' = node_static n.

Definition training_frame : relation NeuralNetwork := frame same_static same_endpoints.

(** The number of samples with exactly one target. *)
Definition single_target (trainingData : list TrainingData) : nat :=
  length (List.filter (fun data => length (outputs data) =? 1) trainingData).

(** * The data set panel ([components/DatasetPanel.tsx]) *)

(** [isNaN(n)] for a number [n]. *)
Definition isNaN (n : number) : bool :=
  match n with NaN => true | Num _ => false end.

(** [l.filter((a, i) => p a i)], the index counted from [i]. *)
Fixpoint filter_from {A} (p : A -> nat -> bool) (i : nat) (l : list A) : list A :=
  match l with
  | [] => []
  | a :: rest => if p a i then a :: filter_from p (S i) rest else filter_from p (S i) rest
  end.

Definition removeDataPoint (index : nat) (trainingData : list TrainingData)
    : list TrainingData :=
  filter_from (fun _ i => negb (i =? index)) 0 trainingData.

Section Panel.
(** The built-ins [split(',')], [trim] and [parseFloat]. *)
Variable split_commas : string -> list string.
Variable trim : string -> string.
Variable parseFloat : string -> number.

(** [s.split(',').map(s => parseFloat(s.trim())).filter(n => !isNaN(n))] *)
Definition parse_numbers (s : string) : list number :=
  List.filter (fun n => negb (isNaN n)) (map (fun s => parseFloat (trim s)) (split_commas s)).

(** [addDataPoint] for the form fields [newInputs], [newOutputs] and
    [newLabel]: the data set handed to [onDataChange], or the data set as
    it was when the sizes do not fit. *)
Definition addDataPoint (inputSize outputSize : nat) (newInputs newOutputs newLabel : string)
    (trainingData : list TrainingData) : list TrainingData :=
  let inputs := parse_numbers newInputs in
  let outputs := parse_numbers newOutputs in
  if (length inputs =? inputSize) && (length outputs =? outputSize) then
    trainingData ++
    [mkData inputs outputs
            (Some (if String.eqb newLabel "" then
                     "Data Point " +:+ nat_to_string (length trainingData + 1)
                   else newLabel))]
  else trainingData.
End Panel.

(** The four samples of the XOR problem. *)
Definition xorData : list TrainingData :=
  [ mkData [Num 0; Num 0] [Num 0] (Some "XOR: 0,0 → 0");
    mkData [Num 0; Num 1] [Num 1] (Some "XOR: 0,1 → 1");
    mkData [Num 1; Num 0] [Num 1] (Some "XOR: 1,0 → 1");
    mkData [Num 1; Num 1] [Num 0] (Some "XOR: 1,1 → 0") ].

(** The [i]-th sample of [randomData], [random k] being the value of the
    [k]-th call of [Math.random()]. *)
Definition random_sample (random : nat -> R) (inputSize outputSize i : nat)
    : TrainingData :=
  let drawn := i * (inputSize + outputSize) in
  mkData (map (fun j => Num (random (drawn + j)%nat)) (seq 0 inputSize))
         (map (fun j => Num (random (drawn + inputSize + j)%nat)) (seq 0 outputSize))
         (Some ("Random Data " +:+ nat_to_string (i + 1))).

Definition loadDefaultDataset (random : nat -> R) (inputSize outputSize : nat)
    : list TrainingData :=
  if (inputSize =? 2) && (outputSize =? 1) then xorData
  else map (random_sample random inputSize outputSize) (seq 0 10).

(** ** Data sets entered through the panel *)

(** What the panel can do to the data set, importing a file apart. *)
Inductive PanelAction : Type :=
| AddDataPoint (newInputs newOutputs newLabel : string)
| RemoveDataPoint (index : nat)
| LoadDefaultDataset (random : nat -> R).

Definition panel_action (split_commas : string -> list string) (trim : string -> string)
    (parseFloat : string -> number) (inputSize outputSize : nat)
    (trainingData : list TrainingData) (a : PanelAction) : list TrainingData :=
  match a with
  | AddDataPoint newInputs newOutputs newLabel =>
      addDataPoint split_commas trim parseFloat inputSize outputSize
                   newInputs newOutputs newLabel trainingData
  | RemoveDataPoint index => removeDataPoint index trainingData
  | LoadDefaultDataset random => loadDefaultDataset random inputSize outputSize
  end.

(** A sample of the sizes of the configuration, without [NaN]. *)
Definition fits (inputSize outputSize : nat) (data : TrainingData) : Prop :=
  length (inputs data) = inputSize /\ length (outputs data) = outputSize /\
  Forall (fun a => a <> NaN) (inputs data) /\ Forall (fun a => a <> NaN) (outputs data).

(** * The metrics dashboard ([components/MetricsDashboard.tsx]) *)

(** [metrics.slice(-50)] *)
Definition recentMetrics (metrics : list TrainingMetrics) : list TrainingMetrics :=
  drop (length metrics - 50) metrics.

(** [Math.max(...recentMetrics.map(m => m.loss), 1)] *)
Definition maxLoss (metrics : list TrainingMetrics) : number :=
  foldr Math_max (Num 1) (map loss (recentMetrics metrics)).

Definition maxAccuracy : number := Num 100.

(** The points of the polyline [renderMiniChart] draws; [None] when it
    draws nothing. *)
Definition renderMiniChart (data : list number) (max : number)
    : option (list (number * number)) :=
  if length data <? 2 then None
  else
    Some (imap (fun index value =>
                  ((of_nat index / of_nat (length data - 1) * Num 200)%js,
                   (Num 60 - value / max * Num 60)%js))
               data).

(** A point of the 200 by 60 drawing area. *)
Definition in_box (p : number * number) : Prop :=
  exists x y, p = (Num x, Num y) /\ (0 <= x <= 200)%R /\ (0 <= y <= 60)%R.

(** A metrics entry with a non-negative real loss and an accuracy of
    [[0, 100]]. *)
Definition sound_metric (m : TrainingMetrics) : Prop :=
  (exists l, loss m = Num l /\ (0 <= l)%R) /\
  (exists a, accuracy m = Num a /\ (0 <= a <= 100)%R).

(** * The network picture ([components/NetworkVisualization.tsx]) *)



(** Two circles of radius [15] centred at the positions of [a] and [b] do
    not meet: the centres are at least [80] apart along one axis. *)
Definition circles_apart (a b : NetworkNode) : Prop :=
  80 <= node_x a - node_x b \/ 80 <= node_x b - node_x a \/
  80 <= node_y a - node_y b \/ 80 <= node_y b - node_y a.

(** * Properties *)

(** ** Activation library *)

Lemma sigmoid_Num (x : R) : sigmoid (Num x) = Num (1 / (1 + exp (- x))).
Proof.
  unfold sigmoid. cbn.
  destruct (Req_dec_T (1 + exp (- x)) 0) as [Hz|_]; [|reflexivity].
  pose proof (exp_pos (- x)). lra.
Qed.

Lemma activate_sigmoid cfg x :
  activationFunction cfg = "sigmoid" -> activate cfg x = sigmoid x.
Proof. intros H. unfold activate. by rewrite H. Qed.

Lemma activate_relu cfg x :
  activationFunction cfg = "relu" -> activate cfg x = Math_max (Num 0) x.
Proof. intros H. unfold activate. by rewrite H. Qed.

Lemma activate_tanh cfg x :
  activationFunction cfg = "tanh" -> activate cfg x = Math_tanh x.
Proof. intros H. unfold activate. by rewrite H. Qed.

Lemma activate_default cfg x :
  activationFunction cfg <> "sigmoid" ->
  activationFunction cfg <> "relu" ->
  activationFunction cfg <> "tanh" ->
  activate cfg x = sigmoid x.
Proof.
  intros H1 H2 H3. unfold activate.
  by repeat (case String.eqb_spec; [done|intros _]).
Qed.

Lemma activateDerivative_default cfg x :
  activationFunction cfg <> "sigmoid" ->
  activationFunction cfg <> "relu" ->
  activationFunction cfg <> "tanh" ->
  activateDerivative cfg x = (x * (Num 1 - x))%js.
Proof.
  intros H1 H2 H3. unfold activateDerivative.
  by repeat (case String.eqb_spec; [done|intros _]).
Qed.

(** C5. For real [x] and activated value [a]: under ["sigmoid"] the
    activation is [1/(1+e^-x)] and the derivative [a*(1-a)]; under ["relu"]
    the activation is [max(0,x)] and the derivative is [a] when [a > 0] and
    [0] otherwise; under ["tanh"] the activation is [tanh x] and the
    derivative [1 - a^2]; under any other selector both are the sigmoid
    formulas. *)
Theorem activation_table (cfg : NetworkConfig) (x a : R) :
  (activationFunction cfg = "sigmoid" ->
     activate cfg (Num x) = Num (1 / (1 + exp (- x))) /\
     activateDerivative cfg (Num a) = Num (a * (1 - a))) /\
  (activationFunction cfg = "relu" ->
     activate cfg (Num x) = Num (Rmax 0 x) /\
     activateDerivative cfg (Num a) = Num (if Rlt_dec 0 a then a else 0)) /\
  (activationFunction cfg = "tanh" ->
     activate cfg (Num x) = Num (tanh x) /\
     activateDerivative cfg (Num a) = Num (1 - a ^ 2)) /\
  (activationFunction cfg <> "sigmoid" ->
   activationFunction cfg <> "relu" ->
   activationFunction cfg <> "tanh" ->
     activate cfg (Num x) = Num (1 / (1 + exp (- x))) /\
     activateDerivative cfg (Num a) = Num (a * (1 - a))).
Proof.
  repeat split.
  - rewrite activate_sigmoid by done. apply sigmoid_Num.
  - unfold activateDerivative. by rewrite H.
  - by rewrite activate_relu.
  - unfold activateDerivative. rewrite H. cbn. by destruct (Rlt_dec 0 a).
  - by rewrite activate_tanh.
  - unfold activateDerivative. rewrite H. cbn. f_equal. ring.
  - rewrite activate_default by done. apply sigmoid_Num.
  - by rewrite activateDerivative_default.
Qed.

Lemma activation_table_witness :
  let cfg name := mkConfig 2 [3] 1 (Num 1) name in
  (activate (cfg "sigmoid") (Num 0) = Num (1 / (1 + exp (- 0))) /\
   activateDerivative (cfg "sigmoid") (Num 1) = Num (1 * (1 - 1))) /\
  (activate (cfg "relu") (Num 0) = Num (Rmax 0 0) /\
   activateDerivative (cfg "relu") (Num 1) = Num (if Rlt_dec 0 1 then 1 else 0)) /\
  (activate (cfg "tanh") (Num 0) = Num (tanh 0) /\
   activateDerivative (cfg "tanh") (Num 1) = Num (1 - 1 ^ 2)) /\
  (activate (cfg "linear") (Num 0) = Num (1 / (1 + exp (- 0))) /\
   activateDerivative (cfg "linear") (Num 1) = Num (1 * (1 - 1))).
Proof.
  intros cfg.
  split; [|split; [|split]].
  - exact (proj1 (activation_table (cfg "sigmoid") 0 1) eq_refl).
  - exact (proj1 (proj2 (activation_table (cfg "relu") 0 1)) eq_refl).
  - exact (proj1 (proj2 (proj2 (activation_table (cfg "tanh") 0 1))) eq_refl).
  - apply (proj2 (proj2 (proj2 (activation_table (cfg "linear") 0 1)))); discriminate.
Defined.

(** ** Loss *)

Lemma reduce_loss_Num (p t : list R) (i : nat) (s : R) :
  length p = length (drop i t) ->
  reduce_loss (map Num t) i (Num s) (map Num p)
  = Num (s + sum_squared_errors p (drop i t)).
Proof.
  revert i s. induction p as [|x p IH]; intros i s Hlen.
  - cbn. f_equal. lra.
  - destruct (drop i t) as [|y t'] eqn:Hd; [discriminate|].
    assert (Hi : t !! i = Some y).
    { rewrite <- (Nat.add_0_r i), <- lookup_drop, Hd. reflexivity. }
    assert (Hd' : drop (S i) t = t').
    { replace (S i) with (i + 1) by lia. by rewrite <- drop_drop, Hd. }
    cbn [map reduce_loss]. rewrite list_lookup_fmap, Hi. cbn.
    rewrite IH by (rewrite Hd'; cbn in Hlen; lia).
    rewrite Hd'. f_equal. cbn. lra.
Qed.

Lemma sum_squared_errors_nonneg (p t : list R) : (0 <= sum_squared_errors p t)%R.
Proof.
  revert t. induction p as [|x p IH]; intros [|y t]; cbn; try lra.
  specialize (IH t). pose proof (pow2_ge_0 (x - y)). cbn in *. lra.
Qed.

Lemma sum_squared_errors_diag (p : list R) : sum_squared_errors p p = 0%R.
Proof. induction p as [|x p IH]; cbn; [done|]. rewrite IH. ring. Qed.

Lemma INR_length_pos {A} (l : list A) : l <> [] -> (0 < INR (length l))%R.
Proof. destruct l; [done|]. intros _. apply lt_0_INR. cbn. lia. Qed.

(** C9. For equal-length non-empty vectors [p] and [t], [calculateLoss]
    returns the mean over [i] of [(p[i] - t[i])^2]; that value is
    non-negative, and the loss of [p] against itself is [0]. *)
Theorem calculateLoss_mse (p t : list R) :
  length p = length t -> p <> [] ->
  calculateLoss (map Num p) (map Num t) = Num (mean_squared_error p t) /\
  (0 <= mean_squared_error p t)%R /\
  calculateLoss (map Num p) (map Num p) = Num 0.
Proof.
  intros Hlen Hne.
  pose proof (INR_length_pos p Hne) as Hpos.
  assert (Hloss : forall t', length p = length t' ->
            calculateLoss (map Num p) (map Num t') = Num (mean_squared_error p t')).
  { intros t' Hl. unfold calculateLoss, of_nat, mean_squared_error.
    rewrite (reduce_loss_Num p t' 0 0) by done.
    rewrite length_map. cbn.
    destruct (Req_dec_T (INR (length p)) 0) as [Hz|_]; [lra|].
    do 2 f_equal. rewrite drop_0. lra. }
  split; [by apply Hloss|]. split.
  - unfold mean_squared_error. apply Rmult_le_pos.
    + apply sum_squared_errors_nonneg.
    + apply Rlt_le, Rinv_0_lt_compat, Hpos.
  - rewrite Hloss by done. unfold mean_squared_error.
    rewrite sum_squared_errors_diag. f_equal. field. lra.
Qed.

Lemma calculateLoss_mse_witness :
  calculateLoss (map Num [1; 0]%R) (map Num [0; 0]%R)
    = Num (mean_squared_error [1; 0]%R [0; 0]%R) /\
  (0 <= mean_squared_error [1; 0]%R [0; 0]%R)%R /\
  calculateLoss (map Num [1; 0]%R) (map Num [1; 0]%R) = Num 0.
Proof. apply (calculateLoss_mse [1; 0]%R [0; 0]%R); [reflexivity|discriminate]. Defined.

(** ** Frames: what a call leaves untouched *)

Section Preserves.
Context (F : relation NeuralNetwork) `{!PreOrder F}.

Lemma preserves_ret {A} (v : A) : preserves F (ret v).
Proof. intros s. cbn. reflexivity. Qed.

Lemma preserves_gets {A} (f : NeuralNetwork -> A) : preserves F (gets f).
Proof. intros s. cbn. reflexivity. Qed.

Lemma preserves_bind {A B} (m : Eff A) (k : A -> Eff B) :
  preserves F m -> (forall v, preserves F (k v)) -> preserves F (bind m k).
Proof.
  intros Hm Hk s. unfold bind. specialize (Hm s).
  destruct (m s) as [[v|] s']; cbn in *; [|done].
  etrans; [exact Hm|apply Hk].
Qed.

Lemma preserves_deref node : preserves F (deref node).
Proof. intros s. unfold deref. destruct (nodes s !! node); cbn; reflexivity. Qed.

Lemma preserves_deref_conn conn : preserves F (deref_conn conn).
Proof. intros s. unfold deref_conn. destruct (connections s !! conn); cbn; reflexivity. Qed.

Lemma preserves_find_node id : preserves F (find_node id).
Proof. intros s. unfold find_node. destruct (find _ _); cbn; reflexivity. Qed.

Lemma preserves_filter_nodes p : preserves F (filter_nodes p).
Proof. apply preserves_gets. Qed.

Lemma preserves_forEach_from {A} (l : list A) (f : A -> nat -> Eff unit) i :
  (forall a j, preserves F (f a j)) -> preserves F (forEach_from i l f).
Proof.
  intros Hf. revert i. induction l as [|a l IH]; intros i; cbn.
  - apply preserves_ret.
  - apply preserves_bind; [apply Hf|intros _; apply IH].
Qed.

Lemma preserves_forEach {A} (l : list A) (f : A -> nat -> Eff unit) :
  (forall a j, preserves F (f a j)) -> preserves F (forEach l f).
Proof. apply preserves_forEach_from. Qed.

Lemma preserves_accumulate {A} (l : list A) (f : number -> A -> Eff number) acc :
  (forall x a, preserves F (f x a)) -> preserves F (accumulate l f acc).
Proof.
  intros Hf. revert acc. induction l as [|a l IH]; intros acc; cbn.
  - apply preserves_ret.
  - apply preserves_bind; [apply Hf|intros acc'; apply IH].
Qed.
End Preserves.

Global Instance frame_preorder Fn Fc `{!PreOrder Fn, !PreOrder Fc} : PreOrder (frame Fn Fc).
Proof.
  split.
  - intros s. split; [|split]; reflexivity.
  - intros s1 s2 s3 (Hn & Hc & Hg) (Hn' & Hc' & Hg'). split; [|split].
    + by etrans.
    + by etrans.
    + congruence.
Qed.

Lemma Forall2_alter_r {A} (F : relation A) `{!Reflexive F} (f : A -> A) i (l : list A) :
  (forall a, F a (f a)) -> Forall2 F l (alter f i l).
Proof.
  intros Hf. revert i.
  induction l as [|a l IH]; intros [|i]; cbn; constructor; auto; reflexivity.
Qed.

Lemma preserves_update_node Fn Fc `{!PreOrder Fn, !PreOrder Fc} f node :
  (forall n, Fn n (f n)) -> preserves (frame Fn Fc) (update_node f node).
Proof.
  intros Hf s. split; [|split]; cbn; [|reflexivity..].
  apply Forall2_alter_r; [apply _|done].
Qed.

Lemma preserves_update_conn Fn Fc `{!PreOrder Fn, !PreOrder Fc} f conn :
  (forall c, Fc c (f c)) -> preserves (frame Fn Fc) (update_conn f conn).
Proof.
  intros Hf s. split; [|split]; cbn; [reflexivity| |reflexivity].
  apply Forall2_alter_r; [apply _|done].
Qed.

Global Instance same_but_activation_preorder : PreOrder same_but_activation.
Proof.
  split; [by intros n|].
  intros a b c [H1 H2] [H3 H4]. split; congruence.
Qed.

Global Instance same_but_error_preorder : PreOrder same_but_error.
Proof.
  split; [by intros n|].
  intros a b c [H1 H2] [H3 H4]. split; congruence.
Qed.

Global Instance same_endpoints_preorder : PreOrder same_endpoints.
Proof.
  split; [by intros n|].
  intros a b c (H1 & H2 & H3) (H4 & H5 & H6). repeat split; congruence.
Qed.

(** Decomposes a computation into its steps. *)
Ltac frame_steps :=
  repeat first
    [ match goal with |- PreOrder _ => apply _ end
    | apply preserves_ret | apply preserves_gets
    | apply preserves_deref | apply preserves_deref_conn | apply preserves_find_node
    | apply preserves_filter_nodes
    | apply preserves_update_node; [| |done]
    | apply preserves_update_conn; [| |done]
    | apply preserves_bind; [| |intros ?]
    | apply preserves_forEach; [|intros ? ?]
    | apply preserves_accumulate; [|intros ? ?]
    | match goal with |- preserves _ (if ?b then _ else _) => destruct b end ].

Lemma forward_preserves_frame inputs : preserves forward_frame (forward inputs).
Proof.
  unfold forward, forward_layer, forward_node, forward_frame. frame_steps.
Qed.

Lemma backward_preserves_frame expectedOutputs :
  preserves backward_frame (backward expectedOutputs).
Proof.
  unfold backward, backward_layer, backward_output, backward_node, backward_connection,
    backward_frame.
  frame_steps.
Qed.

(** ** The passes as list functions *)

Lemma map_matching_snoc {A} (p : A -> bool) upd m0 (l : list A) a :
  map_matching p upd m0 (l ++ [a])
  = map_matching p upd m0 l
    ++ [if p a then upd (m0 + count_matching p l) a else a].
Proof.
  revert m0. induction l as [|b l IH]; intros m0; cbn.
  - rewrite Nat.add_0_r. by destruct (p a).
  - unfold count_matching in *. cbn. destruct (p b); cbn; rewrite IH; [|done].
    by rewrite Nat.add_succ_r.
Qed.

Lemma count_matching_snoc {A} (p : A -> bool) (l : list A) a :
  count_matching p (l ++ [a]) = count_matching p l + (if p a then 1 else 0).
Proof.
  unfold count_matching. rewrite List.filter_app, length_app. cbn.
  by destruct (p a).
Qed.

Lemma length_map_matching {A} (p : A -> bool) upd m0 (l : list A) :
  length (map_matching p upd m0 l) = length l.
Proof.
  revert m0. induction l as [|a l IH]; intros m0; cbn; [done|].
  destruct (p a); cbn; by rewrite IH.
Qed.

Lemma map_matching_map {A} (p : A -> bool) (f : A -> A) m0 (l : list A) :
  map_matching p (fun _ => f) m0 l = map (fun a => if p a then f a else a) l.
Proof.
  revert m0. induction l as [|a l IH]; intros m0; cbn; [done|].
  destruct (p a); by rewrite IH.
Qed.

Lemma accumulate_gather read key cs acc s :
  accumulate cs
    (fun acc conn => m <- find_node (key conn);; ret (acc + read m * weight conn)%js)
    acc s
  = match gather read key (nodes s) cs acc with
    | Some v => (Normal v, s)
    | None => (TypeError, s)
    end.
Proof.
  revert acc. induction cs as [|c cs IH]; intros acc; cbn; [done|].
  unfold bind at 1, find_node at 1, bind at 1.
  destruct (find _ (nodes s)) as [m|]; [|done]. cbn. apply IH.
Qed.

(** A loop over the references kept by a filter is an in-place update of
    the elements that satisfy the filter, in array order. *)
Lemma forEach_refs_run (p : NetworkNode -> bool) (upd : nat -> NetworkNode -> NetworkNode)
    (body : nat -> nat -> Eff unit) ns cs cfg :
  (forall pre n rest,
     ns = pre ++ n :: rest -> p n = true ->
     body (length pre) (count_matching p pre)
          (mkNet (map_matching p upd 0 pre ++ n :: rest) cs cfg)
     = (Normal tt,
        mkNet (map_matching p upd 0 pre ++ upd (count_matching p pre) n :: rest) cs cfg)) ->
  forEach (refs_from p 0 ns) body (mkNet ns cs cfg)
  = (Normal tt, mkNet (map_matching p upd 0 ns) cs cfg).
Proof.
  intros Hbody.
  enough (forall rest pre, ns = pre ++ rest ->
            forEach_from (count_matching p pre) (refs_from p (length pre) rest) body
              (mkNet (map_matching p upd 0 pre ++ rest) cs cfg)
            = (Normal tt, mkNet (map_matching p upd 0 ns) cs cfg)) as H.
  { apply (H ns []). done. }
  induction rest as [|n rest IH]; intros pre Hns.
  - cbn. rewrite app_nil_r in Hns. rewrite app_nil_r. by subst.
  - cbn [refs_from]. specialize (IH (pre ++ [n])).
    rewrite <- app_assoc in IH. specialize (IH Hns).
    rewrite length_app, map_matching_snoc, count_matching_snoc in IH. cbn in IH.
    rewrite Nat.add_1_r, <- app_assoc in IH. cbn in IH.
    destruct (p n) eqn:Hp.
    + cbn [forEach_from]. unfold bind. rewrite (Hbody pre n rest Hns Hp).
      by rewrite Nat.add_1_r in IH.
    + by rewrite Nat.add_0_r in IH.
Qed.

Lemma forEach_conns_run (updc : NetworkConnection -> NetworkConnection)
    (body : nat -> nat -> Eff unit) ns cs cfg :
  (forall pre c rest,
     cs = pre ++ c :: rest ->
     body (length pre) (length pre) (mkNet ns (map updc pre ++ c :: rest) cfg)
     = (Normal tt, mkNet ns (map updc pre ++ updc c :: rest) cfg)) ->
  forEach (seq 0 (length cs)) body (mkNet ns cs cfg)
  = (Normal tt, mkNet ns (map updc cs) cfg).
Proof.
  intros Hbody.
  enough (forall rest pre, cs = pre ++ rest ->
            forEach_from (length pre) (seq (length pre) (length rest)) body
              (mkNet ns (map updc pre ++ rest) cfg)
            = (Normal tt, mkNet ns (map updc cs) cfg)) as H.
  { apply (H cs []). done. }
  induction rest as [|c rest IH]; intros pre Hcs.
  - cbn. rewrite app_nil_r in Hcs. rewrite app_nil_r. by subst.
  - cbn [length seq forEach_from]. unfold bind. rewrite (Hbody pre c rest Hcs).
    specialize (IH (pre ++ [c])). rewrite <- app_assoc in IH. specialize (IH Hcs).
    rewrite length_app, map_app, <- app_assoc, Nat.add_1_r in IH. apply IH.
Qed.

(** ** Well-formed networks *)

Lemma find_id_self (ns : list NetworkNode) n :
  NoDup (map node_id ns) -> n ∈ ns ->
  List.find (fun m => String.eqb (node_id m) (node_id n)) ns = Some n.
Proof.
  induction ns as [|a ns IH]; intros Hnd Hin; [by apply elem_of_nil in Hin|].
  cbn in *. apply NoDup_cons in Hnd as [Hna Hnd].
  apply elem_of_cons in Hin as [->|Hin].
  - by rewrite String.eqb_refl.
  - case String.eqb_spec; [|by auto]. intros Heq. exfalso. apply Hna.
    rewrite Heq. apply list_elem_of_fmap. by exists n.
Qed.

Lemma find_id_Some (ns : list NetworkNode) id m :
  List.find (fun n => String.eqb (node_id n) id) ns = Some m -> m ∈ ns /\ node_id m = id.
Proof.
  intros H. apply find_some in H as [Hin Heq].
  split; [by apply list_elem_of_In|by apply String.eqb_eq].
Qed.

Lemma incoming_sources net n c :
  well_formed net -> n ∈ nodes net -> c ∈ incoming (connections net) n ->
  exists m, List.find (fun a => String.eqb (node_id a) (fromNodeId c)) (nodes net) = Some m
            /\ layer n = S (layer m).
Proof.
  intros (Hnd & Hcs & _) Hn Hc.
  apply list_elem_of_In, filter_In in Hc as [Hc Hto].
  apply list_elem_of_In in Hc. apply String.eqb_eq in Hto.
  rewrite Forall_forall in Hcs. destruct (Hcs c Hc) as [[lf Hlf] Hlt].
  unfold layer_of in *. rewrite Hto, (find_id_self _ n Hnd Hn) in Hlt.
  destruct (find _ (nodes net)) as [m|]; [|done].
  exists m. split; [done|]. cbn in Hlt. congruence.
Qed.

Lemma outgoing_destinations net n c :
  well_formed net -> n ∈ nodes net -> c ∈ outgoing (connections net) n ->
  exists m, List.find (fun a => String.eqb (node_id a) (toNodeId c)) (nodes net) = Some m
            /\ layer m = S (layer n).
Proof.
  intros (Hnd & Hcs & _) Hn Hc.
  apply list_elem_of_In, filter_In in Hc as [Hc Hfrom].
  apply list_elem_of_In in Hc. apply String.eqb_eq in Hfrom.
  rewrite Forall_forall in Hcs. destruct (Hcs c Hc) as [[lf Hlf] Hlt].
  unfold layer_of in *. rewrite Hfrom, (find_id_self _ n Hnd Hn) in Hlt, Hlf.
  destruct (find _ (nodes net)) as [m|]; [|done].
  exists m. split; [done|]. cbn in Hlt. congruence.
Qed.

Lemma gather_total read key ns cs acc :
  (forall c, c ∈ cs ->
     is_Some (List.find (fun n => String.eqb (node_id n) (key c)) ns)) ->
  is_Some (gather read key ns cs acc).
Proof.
  revert acc. induction cs as [|c cs IH]; intros acc H; cbn; [done|].
  destruct (H c) as [m ->]; [by left|]. apply IH. intros c' Hc'. apply H. by right.
Qed.

Lemma find_Forall2 (F : relation NetworkNode) id ns ns' :
  (forall n n', F n n' -> node_id n' = node_id n) ->
  Forall2 F ns ns' ->
  option_Forall2 F (List.find (fun n => String.eqb (node_id n) id) ns)
                   (List.find (fun n => String.eqb (node_id n) id) ns').
Proof.
  intros Hid. induction 1 as [|n n' ns ns' HF _ IH]; cbn; [constructor|].
  rewrite (Hid _ _ HF). destruct (String.eqb _ _); [by constructor|done].
Qed.

(** The accumulated value only depends on what [read] gives on the nodes
    the connections lead to. *)
Lemma gather_agree (P : NetworkNode -> Prop) read key ns ns' cs acc :
  Forall2 (fun n n' => node_id n' = node_id n /\ (P n -> read n' = read n)) ns ns' ->
  (forall c m, c ∈ cs ->
     List.find (fun n => String.eqb (node_id n) (key c)) ns = Some m -> P m) ->
  gather read key ns' cs acc = gather read key ns cs acc.
Proof.
  intros HF. revert acc. induction cs as [|c cs IH]; intros acc HP; cbn; [done|].
  pose proof (find_Forall2 _ (key c) ns ns' (fun n n' H => proj1 H) HF) as Hfind.
  inversion Hfind as [m m' [_ Hread] Hm Hm'|Hm Hm']; [|done].
  rewrite Hread by (eapply HP; [by left|done]).
  apply IH. intros c' m'' Hc'. apply HP. by right.
Qed.

Lemma map_matching_Forall2 {A} (p : A -> bool) upd m0 (l : list A) :
  Forall2 (fun a b => b = a \/ (p a = true /\ exists m, b = upd m a))
          l (map_matching p upd m0 l).
Proof.
  revert m0. induction l as [|a l IH]; intros m0; cbn; [constructor|].
  destruct (p a) eqn:Hp; constructor; eauto.
Qed.

(** ** The forward pass, layer by layer *)

Lemma alter_middle {A} (f : A -> A) (pre rest : list A) a i :
  i = length pre -> alter f i (pre ++ a :: rest) = pre ++ f a :: rest.
Proof. intros ->. rewrite alter_app_r_alt by lia. by rewrite Nat.sub_diag. Qed.

Lemma forward_node_run s i n sum :
  nodes s !! i = Some n ->
  node_input (nodes s) (connections s) n = Some sum ->
  forward_node i s
  = (Normal tt,
     mkNet (alter (set_activation (activate (config s) sum)) i (nodes s))
           (connections s) (config s)).
Proof.
  intros Hi Hsum. unfold forward_node, bind at 1, deref. rewrite Hi.
  unfold bind at 1, gets at 1, bind at 1. rewrite accumulate_gather.
  fold (incoming (connections s) n). fold (node_input (nodes s) (connections s) n).
  by rewrite Hsum.
Qed.

Lemma forward_layer_run ns cs cfg l :
  well_formed (mkNet ns cs cfg) ->
  forward_layer l (mkNet ns cs cfg)
  = (Normal tt, mkNet (forward_layer_nodes cfg cs ns l) cs cfg).
Proof.
  intros Hwf. unfold forward_layer, bind, filter_nodes, gets. cbn [nodes].
  apply forEach_refs_run. intros pre n rest Hns Hp.
  set (pre' := map_matching _ _ 0 pre).
  assert (Hn : n ∈ ns) by (rewrite Hns, elem_of_app; right; left).
  assert (Hlen : length pre' = length pre) by apply length_map_matching.
  assert (Hagree : node_input (pre' ++ n :: rest) cs n = node_input ns cs n).
  { unfold node_input. apply (gather_agree (fun m => layer m <> l)).
    - rewrite Hns. apply Forall2_app; [|by apply Forall_Forall2_diag, Forall_true].
      eapply Forall2_impl; [apply map_matching_Forall2|].
      intros a b [->|[Ha [_ ->]]]; [done|]. split.
      + unfold forward_update. by destruct (node_input _ _ _).
      + intros Hl. apply Nat.eqb_eq in Ha. done.
    - intros c m Hc Hm.
      destruct (incoming_sources (mkNet ns cs cfg) n c Hwf Hn Hc) as (m' & Hm' & Hl).
      cbn in Hm'. rewrite Hm in Hm'. simplify_eq. apply Nat.eqb_eq in Hp. lia. }
  destruct (gather_total activation fromNodeId ns (incoming cs n) (bias n)) as [sum Hsum].
  { intros c Hc.
    destruct (incoming_sources (mkNet ns cs cfg) n c Hwf Hn Hc) as (m' & Hm' & _).
    by exists m'. }
  rewrite (forward_node_run _ _ n sum); cbn [nodes connections config].
  - rewrite alter_middle by done. unfold forward_update, node_input. by rewrite Hsum.
  - by apply list_lookup_middle.
  - by rewrite Hagree.
Qed.

Lemma set_inputs_run inputs ns cs cfg :
  forEach (refs_from (is_type input) 0 ns)
    (fun node index => update_node (set_activation (or_zero (inputs !! index))) node)
    (mkNet ns cs cfg)
  = (Normal tt, mkNet (set_input_nodes inputs ns) cs cfg).
Proof.
  apply forEach_refs_run. intros pre n rest Hns Hp.
  unfold update_node. cbn [nodes connections config].
  rewrite alter_middle; [done|]. by rewrite length_map_matching.
Qed.

(** ** Well-formedness only depends on identifiers, layers, types and endpoints *)

Lemma Forall2_map_eq {A B} (f : A -> B) (F : A -> A -> Prop) (l l' : list A) :
  (forall a a', F a a' -> f a' = f a) -> Forall2 F l l' -> map f l' = map f l.
Proof. intros Hf. induction 1; cbn; [done|]. f_equal; auto. Qed.

Lemma Forall2_count_matching {A} (p : A -> bool) (F : A -> A -> Prop) (l l' : list A) :
  (forall a a', F a a' -> p a' = p a) -> Forall2 F l l' ->
  count_matching p l' = count_matching p l.
Proof.
  intros Hp. unfold count_matching. induction 1 as [|a a' l l' Ha _ IH]; cbn; [done|].
  rewrite (Hp _ _ Ha). destruct (p a); cbn; by rewrite IH.
Qed.

Lemma layer_of_Forall2 (F : relation NetworkNode) id ns ns' :
  (forall n n', F n n' -> node_id n' = node_id n /\ layer n' = layer n) ->
  Forall2 F ns ns' -> layer_of ns' id = layer_of ns id.
Proof.
  intros HF H. unfold layer_of.
  destruct (find_Forall2 F id ns ns' (fun n n' H => proj1 (HF n n' H)) H)
    as [m m' Hm|]; [|done].
  cbn. f_equal. by apply HF.
Qed.

Lemma well_formed_frame Fn Fc s s' :
  (forall n n', Fn n n' ->
     node_id n' = node_id n /\ layer n' = layer n /\ type n' = type n) ->
  (forall c c', Fc c c' ->
     fromNodeId c' = fromNodeId c /\ toNodeId c' = toNodeId c) ->
  frame Fn Fc s s' -> well_formed s -> well_formed s'.
Proof.
  intros HFn HFc (Hns & Hcs & Hcfg) (Hnd & Hconn & Hin & Hout & Hnin & Hnout).
  assert (Hlayer : forall id, layer_of (nodes s') id = layer_of (nodes s) id).
  { intros id. eapply layer_of_Forall2; [|done]. intros n n' H. split; by apply HFn. }
  assert (Hmax : map layer (nodes s') = map layer (nodes s)).
  { eapply Forall2_map_eq; [|done]. intros n n' H. by apply HFn. }
  unfold well_formed. rewrite Hcfg, Hmax. repeat apply conj.
  - erewrite Forall2_map_eq; [done| |done]. intros n n' H. by apply HFn.
  - eapply Forall2_Forall_r; [done|]. eapply Forall_impl; [done|].
    intros c Hc c' Hcc'. destruct (HFc _ _ Hcc') as [-> ->]. by rewrite !Hlayer.
  - eapply Forall2_Forall_r; [done|]. eapply Forall_impl; [exact Hin|].
    intros n Hn n' Hnn'. destruct (HFn _ _ Hnn') as (_ & -> & ->). done.
  - eapply Forall2_Forall_r; [done|]. eapply Forall_impl; [exact Hout|].
    intros n Hn n' Hnn'. destruct (HFn _ _ Hnn') as (_ & -> & ->). done.
  - rewrite <- Hnin. eapply Forall2_count_matching; [|done].
    intros n n' H. unfold is_type. destruct (HFn _ _ H) as (_ & _ & ->). done.
  - rewrite <- Hnout. eapply Forall2_count_matching; [|done].
    intros n n' H. unfold is_type. destruct (HFn _ _ H) as (_ & _ & ->). done.
Qed.

Lemma well_formed_forward_frame s s' :
  forward_frame s s' -> well_formed s -> well_formed s'.
Proof.
  apply well_formed_frame.
  - intros n n' [H _]. unfold node_static in H. by simplify_eq.
  - by intros c c' ->.
Qed.

Lemma well_formed_backward_frame s s' :
  backward_frame s s' -> well_formed s -> well_formed s'.
Proof.
  apply well_formed_frame.
  - intros n n' [H _]. unfold node_static in H. by simplify_eq.
  - intros c c' (_ & -> & ->). done.
Qed.

(** ** The forward pass as a function on the node list *)

Lemma forward_layer_frame l : preserves forward_frame (forward_layer l).
Proof. unfold forward_layer, forward_node, forward_frame. frame_steps. Qed.

Lemma set_inputs_frame inputs ns cs cfg :
  forward_frame (mkNet ns cs cfg) (mkNet (set_input_nodes inputs ns) cs cfg).
Proof.
  pose proof (set_inputs_run inputs ns cs cfg) as Hrun.
  assert (preserves forward_frame
            (forEach (refs_from (is_type input) 0 ns)
               (fun node index =>
                  update_node (set_activation (or_zero (inputs !! index))) node))) as H.
  { unfold forward_frame. frame_steps. }
  specialize (H (mkNet ns cs cfg)). by rewrite Hrun in H.
Qed.

Lemma forward_layer_nodes_frame ns cs cfg l :
  well_formed (mkNet ns cs cfg) ->
  forward_frame (mkNet ns cs cfg) (mkNet (forward_layer_nodes cfg cs ns l) cs cfg).
Proof.
  intros Hwf. pose proof (forward_layer_frame l (mkNet ns cs cfg)) as H.
  by rewrite forward_layer_run in H.
Qed.

Lemma forward_layers_run cs cfg ls :
  forall i ns,
    well_formed (mkNet ns cs cfg) ->
    forEach_from i ls (fun l _ => forward_layer l) (mkNet ns cs cfg)
    = (Normal tt, mkNet (foldl (forward_layer_nodes cfg cs) ns ls) cs cfg).
Proof.
  induction ls as [|l ls IH]; intros i ns Hwf; cbn; [done|].
  unfold bind. rewrite forward_layer_run by done. apply IH.
  eapply well_formed_forward_frame; [|done]. by apply forward_layer_nodes_frame.
Qed.

Lemma forward_layers_frame cs cfg ls :
  forall ns,
    well_formed (mkNet ns cs cfg) ->
    forward_frame (mkNet ns cs cfg)
                  (mkNet (foldl (forward_layer_nodes cfg cs) ns ls) cs cfg).
Proof.
  induction ls as [|l ls IH]; intros ns Hwf; cbn; [reflexivity|].
  pose proof (forward_layer_nodes_frame ns cs cfg l Hwf) as Hl.
  etrans; [exact Hl|]. apply IH. by eapply well_formed_forward_frame.
Qed.

(** On a well-formed network [forward] completes normally; its effect is
    [forward_nodes] and its result the activations of the output nodes. *)
Lemma forward_run inputs ns cs cfg :
  well_formed (mkNet ns cs cfg) ->
  forward inputs (mkNet ns cs cfg)
  = (Normal (map activation
               (List.filter (is_type output) (forward_nodes cfg cs inputs ns))),
     mkNet (forward_nodes cfg cs inputs ns) cs cfg).
Proof.
  intros Hwf. unfold forward, bind at 1, filter_nodes, gets at 1. cbn [nodes].
  unfold bind at 1. rewrite set_inputs_run.
  unfold bind at 1, gets at 1. cbn [nodes].
  unfold bind at 1, forEach. rewrite forward_layers_run; [done|].
  eapply well_formed_forward_frame; [|done]. apply set_inputs_frame.
Qed.

(** ** What the forward pass computes *)

Lemma Math_max_layers_ge l ls : l ∈ ls -> l <= Math_max_layers ls.
Proof.
  unfold Math_max_layers.
  induction ls as [|a ls IH]; intros Hin; [by apply elem_of_nil in Hin|].
  cbn. apply elem_of_cons in Hin as [->|Hin]; [lia|]. specialize (IH Hin). lia.
Qed.

Lemma node_input_total net n :
  well_formed net -> n ∈ nodes net ->
  is_Some (node_input (nodes net) (connections net) n).
Proof.
  intros Hwf Hn. apply gather_total. intros c Hc.
  destruct (incoming_sources net n c Hwf Hn Hc) as (m & Hm & _). by exists m.
Qed.

Lemma node_input_static ns cs a a' :
  node_id a' = node_id a -> bias a' = bias a -> node_input ns cs a' = node_input ns cs a.
Proof. intros Hid Hb. unfold node_input, incoming. by rewrite Hid, Hb. Qed.

Lemma forward_layer_nodes_map cfg cs ns l :
  forward_layer_nodes cfg cs ns l
  = map (fun a => if in_layer l a then forward_update cfg ns cs a else a) ns.
Proof. apply map_matching_map. Qed.

Lemma forward_update_static cfg ns cs a :
  same_but_activation a (forward_update cfg ns cs a).
Proof. unfold forward_update. by destruct (node_input ns cs a). Qed.

(** Processing layer [l] leaves the input of every node of a layer up to
    [l] as it was. *)
Lemma node_input_layer_stable ns cs cfg l a :
  well_formed (mkNet ns cs cfg) -> a ∈ ns -> layer a <= l ->
  node_input (forward_layer_nodes cfg cs ns l) cs a = node_input ns cs a.
Proof.
  intros Hwf Ha Hl. unfold node_input.
  apply (gather_agree (fun m => layer m <> l)).
  - rewrite forward_layer_nodes_map. apply Forall2_fmap_r, Forall_Forall2_diag.
    apply Forall_forall. intros n _. unfold in_layer, compose.
    destruct (Nat.eqb_spec (layer n) l) as [Heq|Hne]; [|done].
    destruct (forward_update_static cfg ns cs n) as [Hst _].
    unfold node_static in Hst. split; [by simplify_eq|done].
  - intros c m Hc Hm.
    destruct (incoming_sources (mkNet ns cs cfg) a c Hwf Ha Hc) as (m' & Hm' & Hlm).
    cbn in Hm'. rewrite Hm in Hm'. simplify_eq. lia.
Qed.

Lemma forward_layers_ok cs cfg k :
  forall ns,
    well_formed (mkNet ns cs cfg) ->
    forall n, n ∈ foldl (forward_layer_nodes cfg cs) ns (seq 1 k) ->
              1 <= layer n <= k ->
              node_ok cfg (foldl (forward_layer_nodes cfg cs) ns (seq 1 k)) cs n.
Proof.
  induction k as [|k IH]; intros ns Hwf n Hn Hl; [lia|].
  rewrite seq_S, foldl_snoc in *. cbn [Nat.add] in *.
  set (ns' := foldl (forward_layer_nodes cfg cs) ns (seq 1 k)) in *.
  assert (Hwf' : well_formed (mkNet ns' cs cfg)).
  { eapply well_formed_forward_frame; [|done]. by apply forward_layers_frame. }
  rewrite forward_layer_nodes_map in Hn. apply list_elem_of_fmap in Hn as (a & -> & Ha).
  unfold in_layer in *. destruct (Nat.eqb_spec (layer a) (S k)) as [Heq|Hne].
  - destruct (node_input_total _ a Hwf' Ha) as [sum Hsum].
    cbn [nodes connections] in Hsum. unfold forward_update in *. rewrite Hsum in *.
    exists sum. split; [|done].
    rewrite (node_input_static _ _ a) by done.
    rewrite node_input_layer_stable by (done || lia). done.
  - destruct (IH ns Hwf a Ha) as (sum & Hsum & Hact); [lia|].
    exists sum. split; [|done].
    rewrite node_input_layer_stable by (done || lia). done.
Qed.

Lemma filter_map_fixed {A} (p : A -> bool) (f : A -> A) (l : list A) :
  (forall a, a ∈ l -> p (f a) = p a /\ (p a = true -> f a = a)) ->
  List.filter p (map f l) = List.filter p l.
Proof.
  induction l as [|a l IH]; intros H; cbn; [done|].
  destruct (H a) as [Hp Hf]; [by left|]. rewrite Hp, IH.
  - destruct (p a); [|done]. by rewrite Hf.
  - intros b Hb. apply H. by right.
Qed.

Lemma forward_layers_inputs cs cfg ls :
  forall ns,
    well_formed (mkNet ns cs cfg) -> Forall (fun l => l <> 0) ls ->
    List.filter (is_type input) (foldl (forward_layer_nodes cfg cs) ns ls)
    = List.filter (is_type input) ns.
Proof.
  induction ls as [|l ls IH]; intros ns Hwf Hls; cbn; [done|].
  apply Forall_cons in Hls as [Hl Hls].
  rewrite IH; [|by eapply well_formed_forward_frame;
                    [apply forward_layer_nodes_frame|]|done].
  rewrite forward_layer_nodes_map. apply filter_map_fixed. intros a Ha.
  destruct Hwf as (_ & _ & Hin & _). rewrite Forall_forall in Hin. cbn in Hin.
  specialize (Hin a Ha). unfold in_layer, is_type.
  destruct (Nat.eqb_spec (layer a) l) as [Heq|Hne]; [|done].
  destruct (forward_update_static cfg ns cs a) as [Hst _].
  unfold node_static in Hst. simplify_eq. split.
  - by replace (type (forward_update cfg ns cs a)) with (type a).
  - intros Hty%bool_decide_eq_true. apply Hin in Hty. lia.
Qed.

Lemma set_input_nodes_activations (inputs : list number) m0 ns :
  map activation
    (List.filter (is_type input)
       (map_matching (is_type input)
          (fun index => set_activation (or_zero (inputs !! index))) m0 ns))
  = map (fun index => or_zero (inputs !! index))
        (seq m0 (count_matching (is_type input) ns)).
Proof.
  unfold count_matching. revert m0.
  induction ns as [|n ns IH]; intros m0; cbn; [done|].
  destruct (is_type input n) eqn:Hn; cbn.
  - unfold is_type in *. cbn. rewrite Hn. cbn. by rewrite IH.
  - rewrite Hn. apply IH.
Qed.

Lemma or_zero_Num (xs : list R) i : or_zero (map Num xs !! i) = Num (nth i xs 0%R).
Proof.
  rewrite list_lookup_fmap. revert i.
  induction xs as [|x xs IH]; intros [|i]; cbn; try done.
  by destruct (Req_dec_T x 0) as [->|].
Qed.

(** ** The forward pass: results *)

Lemma forward_nodes_frame inputs ns cs cfg :
  well_formed (mkNet ns cs cfg) ->
  forward_frame (mkNet ns cs cfg) (mkNet (forward_nodes cfg cs inputs ns) cs cfg).
Proof.
  intros Hwf. pose proof (forward_preserves_frame inputs (mkNet ns cs cfg)) as H.
  by rewrite forward_run in H.
Qed.

Lemma forward_nodes_layers inputs ns :
  map layer (set_input_nodes inputs ns) = map layer ns.
Proof.
  eapply Forall2_map_eq; [|apply (set_inputs_frame inputs ns [] (mkConfig 0 [] 0 NaN ""))].
  intros n n' [H _]. unfold node_static in H. by simplify_eq.
Qed.

(** C3. On a well-formed network, for every input vector (in particular
    one of length [inputSize]), [forward] returns normally; the layers are
    processed in increasing order from layer 1 (the node list is
    [forward_layer_nodes] folded over [1, 2, ..., layers]); afterwards every
    non-input neuron holds the activation function applied to its bias plus
    the sum over its incoming connections of source activation times weight;
    the result is the list of the output neurons' activations, in the order
    of the node list, which is unchanged, and has [outputSize] entries. *)
Theorem forward_computes_activations (net : NeuralNetwork) (inputs : list number) :
  well_formed net ->
  exists outs net',
    forward inputs net = (Normal outs, net') /\
    nodes net'
    = foldl (forward_layer_nodes (config net) (connections net))
            (set_input_nodes inputs (nodes net))
            (seq 1 (Math_max_layers (map layer (nodes net)))) /\
    (forall n, n ∈ nodes net' -> type n <> input ->
       exists sum,
         node_input (nodes net') (connections net') n = Some sum /\
         activation n = activate (config net') sum) /\
    map node_id (nodes net') = map node_id (nodes net) /\
    outs = map activation (List.filter (is_type output) (nodes net')) /\
    length outs = outputSize (config net).
Proof.
  destruct net as [ns cs cfg]. intros Hwf. cbn [nodes connections config].
  eexists _, _. split; [by apply forward_run|]. cbn [nodes connections config].
  pose proof (forward_nodes_frame inputs ns cs cfg Hwf) as Hframe.
  pose proof (well_formed_forward_frame _ _ Hframe Hwf) as Hwf'.
  unfold forward_nodes in *. rewrite forward_nodes_layers in *.
  split; [done|]. split; [|split; [|split; [done|]]].
  - intros n Hn Hty.
    destruct Hwf' as (_ & _ & Hin & _). rewrite Forall_forall in Hin.
    specialize (Hin n Hn). cbn in Hin.
    apply forward_layers_ok; [|done|].
    + eapply well_formed_forward_frame; [apply set_inputs_frame|done].
    + split; [destruct (layer n); [tauto|lia]|].
      apply Math_max_layers_ge.
      erewrite <- (Forall2_map_eq layer); [|  |apply Hframe].
      * apply list_elem_of_fmap. by exists n.
      * intros a a' [H _]. unfold node_static in H. by simplify_eq.
  - destruct Hframe as (H & _). eapply Forall2_map_eq; [|exact H].
    intros a a' [Hst _]. unfold node_static in Hst. by simplify_eq.
  - rewrite length_map. destruct Hwf' as (_ & _ & _ & _ & _ & Hout). exact Hout.
Qed.

(** C8. On a well-formed network [forward] never raises and always returns
    a result, and the [i]-th input neuron, in the order of the node list,
    ends with activation [inputs[i]], or [0] when the input vector has no
    entry [i]. *)
Theorem forward_assigns_inputs (net : NeuralNetwork) (xs : list R) :
  well_formed net ->
  exists outs net',
    forward (map Num xs) net = (Normal outs, net') /\
    map activation (List.filter (is_type input) (nodes net'))
    = map (fun i => Num (nth i xs 0%R)) (seq 0 (inputSize (config net))).
Proof.
  destruct net as [ns cs cfg]. intros Hwf. cbn [nodes connections config].
  eexists _, _. split; [by apply forward_run|]. cbn [nodes].
  unfold forward_nodes. rewrite forward_layers_inputs.
  - unfold set_input_nodes. rewrite set_input_nodes_activations.
    destruct Hwf as (_ & _ & _ & _ & Hin & _). cbn [nodes config] in Hin. rewrite Hin.
    apply map_ext. intros i. apply or_zero_Num.
  - eapply well_formed_forward_frame; [apply set_inputs_frame|done].
  - apply Forall_forall. intros l Hl%list_elem_of_In%in_seq. lia.
Qed.

(** C10. [forward] only writes activations: after the call, whether it
    returned or raised, the node list has the same nodes in the same order
    with the same identifier, layer, type, bias and position (and error),
    and the connection list and the configuration are the same. *)
Theorem forward_frame_condition (net : NeuralNetwork) (inputs : list number) :
  Forall2 (fun n n' =>
             node_id n' = node_id n /\ layer n' = layer n /\ type n' = type n /\
             bias n' = bias n /\ node_x n' = node_x n /\ node_y n' = node_y n /\
             error n' = error n)
          (nodes net) (nodes (forward inputs net).2) /\
  connections (forward inputs net).2 = connections net /\
  config (forward inputs net).2 = config net.
Proof.
  destruct (forward_preserves_frame inputs net) as (Hns & Hcs & Hcfg).
  split; [|split; [|done]].
  - eapply Forall2_impl; [exact Hns|].
    intros n n' [Hst He]. unfold node_static in Hst. by simplify_eq.
  - symmetry. revert Hcs. generalize (connections net).
    generalize (connections (forward inputs net).2).
    intros l k H. by apply list_eq_Forall2.
Qed.

(** ** The backward pass, phase by phase *)

Lemma set_output_errors_run expectedOutputs ns cs cfg :
  forEach (refs_from (is_type output) 0 ns) (backward_output expectedOutputs)
          (mkNet ns cs cfg)
  = (Normal tt, mkNet (set_output_errors cfg expectedOutputs ns) cs cfg).
Proof.
  apply forEach_refs_run. intros pre n rest Hns Hp.
  unfold backward_output, bind at 1, deref. cbn [nodes].
  rewrite list_lookup_middle by (by rewrite length_map_matching).
  unfold bind, gets, update_node. cbn [nodes connections config].
  rewrite alter_middle; [done|]. by rewrite length_map_matching.
Qed.

Lemma backward_node_run s i n :
  nodes s !! i = Some n ->
  backward_node i s
  = if is_type input n then (Normal tt, s)
    else match error_sum (nodes s) (connections s) n with
         | Some errorSum =>
             (Normal tt,
              mkNet (alter (set_error
                              (errorSum * activateDerivative (config s) (activation n))%js)
                           i (nodes s))
                    (connections s) (config s))
         | None => (TypeError, s)
         end.
Proof.
  intros Hi. unfold backward_node, bind at 1, deref. rewrite Hi.
  destruct (is_type input n); [done|].
  unfold bind at 1, gets at 1, bind at 1.
  rewrite (accumulate_gather (fun m => ToNumber (error m)) toNodeId).
  fold (outgoing (connections s) n). fold (error_sum (nodes s) (connections s) n).
  by destruct (error_sum _ _ _).
Qed.

Lemma error_sum_total net n :
  well_formed net -> n ∈ nodes net ->
  is_Some (error_sum (nodes net) (connections net) n).
Proof.
  intros Hwf Hn. apply gather_total. intros c Hc.
  destruct (outgoing_destinations net n c Hwf Hn Hc) as (m & Hm & _). by exists m.
Qed.

Lemma backward_update_static cfg ns cs a : same_but_error a (backward_update cfg ns cs a).
Proof.
  unfold backward_update. destruct (is_type input a); [done|].
  by destruct (error_sum ns cs a).
Qed.

Lemma backward_layer_run ns cs cfg l :
  well_formed (mkNet ns cs cfg) ->
  backward_layer l (mkNet ns cs cfg)
  = (Normal tt, mkNet (backward_layer_nodes cfg cs ns l) cs cfg).
Proof.
  intros Hwf. unfold backward_layer, bind, filter_nodes, gets. cbn [nodes].
  apply forEach_refs_run. intros pre n rest Hns Hp.
  set (pre' := map_matching _ _ 0 pre).
  assert (Hn : n ∈ ns) by (rewrite Hns, elem_of_app; right; left).
  assert (Hlen : length pre' = length pre) by apply length_map_matching.
  assert (Hagree : error_sum (pre' ++ n :: rest) cs n = error_sum ns cs n).
  { unfold error_sum. apply (gather_agree (fun m => layer m <> l)).
    - rewrite Hns. apply Forall2_app; [|by apply Forall_Forall2_diag, Forall_true].
      eapply Forall2_impl; [apply map_matching_Forall2|].
      intros a b [->|[Ha [_ ->]]]; [done|].
      destruct (backward_update_static cfg ns cs a) as [Hst _].
      unfold node_static in Hst. split; [by simplify_eq|].
      intros Hl. apply Nat.eqb_eq in Ha. done.
    - intros c m Hc Hm.
      destruct (outgoing_destinations (mkNet ns cs cfg) n c Hwf Hn Hc) as (m' & Hm' & Hl).
      cbn in Hm'. rewrite Hm in Hm'. simplify_eq. apply Nat.eqb_eq in Hp. lia. }
  rewrite (backward_node_run _ _ n) by (by apply list_lookup_middle).
  cbn [nodes connections config]. rewrite Hagree.
  unfold backward_update.
  destruct (is_type input n); [done|].
  destruct (error_sum_total (mkNet ns cs cfg) n Hwf Hn) as [es Hes].
  cbn [nodes connections] in Hes. rewrite Hes.
  by rewrite alter_middle.
Qed.

Lemma backward_connection_run ns cfg pre c rest f t :
  List.find (fun n => String.eqb (node_id n) (fromNodeId c)) ns = Some f ->
  List.find (fun n => String.eqb (node_id n) (toNodeId c)) ns = Some t ->
  backward_connection (length pre) (mkNet ns (pre ++ c :: rest) cfg)
  = (Normal tt, mkNet ns (pre ++ connection_update cfg ns c :: rest) cfg).
Proof.
  intros Hf Ht. unfold backward_connection, bind at 1, deref_conn. cbn [connections].
  rewrite list_lookup_middle by done.
  unfold bind at 1, find_node at 1. cbn [nodes]. rewrite Hf.
  unfold bind at 1, find_node at 1. cbn [nodes]. rewrite Ht.
  unfold bind, gets, update_conn. cbn [nodes connections config].
  rewrite alter_middle by done. unfold connection_update. by rewrite Hf, Ht.
Qed.

Lemma backward_connections_run ns cs cfg :
  well_formed (mkNet ns cs cfg) ->
  forEach (seq 0 (length cs)) (fun conn _ => backward_connection conn) (mkNet ns cs cfg)
  = (Normal tt, mkNet ns (map (connection_update cfg ns) cs) cfg).
Proof.
  intros (_ & Hcs & _). apply forEach_conns_run. intros pre c rest Hpre.
  rewrite Forall_forall in Hcs. destruct (Hcs c) as [[lf Hlf] Hlt].
  { cbn. rewrite Hpre, elem_of_app. right; left. }
  cbn [nodes] in *. unfold layer_of in *.
  destruct (find _ ns) as [f|] eqn:Hf; [|done].
  destruct (find (fun n => String.eqb (node_id n) (toNodeId c)) ns) as [t|] eqn:Ht;
    [|done].
  rewrite <- (length_map (connection_update cfg ns) pre).
  by apply (backward_connection_run ns cfg _ c rest f t).
Qed.

Lemma backward_layer_frame l : preserves backward_frame (backward_layer l).
Proof. unfold backward_layer, backward_node, backward_frame. frame_steps. Qed.

Lemma set_output_errors_frame expectedOutputs ns cs cfg :
  backward_frame (mkNet ns cs cfg)
                 (mkNet (set_output_errors cfg expectedOutputs ns) cs cfg).
Proof.
  pose proof (set_output_errors_run expectedOutputs ns cs cfg) as Hrun.
  assert (preserves backward_frame
            (forEach (refs_from (is_type output) 0 ns)
                     (backward_output expectedOutputs))) as H.
  { unfold backward_frame, backward_output. frame_steps. }
  specialize (H (mkNet ns cs cfg)). by rewrite Hrun in H.
Qed.

Lemma backward_layer_nodes_frame ns cs cfg l :
  well_formed (mkNet ns cs cfg) ->
  backward_frame (mkNet ns cs cfg) (mkNet (backward_layer_nodes cfg cs ns l) cs cfg).
Proof.
  intros Hwf. pose proof (backward_layer_frame l (mkNet ns cs cfg)) as H.
  by rewrite backward_layer_run in H.
Qed.

Lemma backward_layers_run cs cfg ls :
  forall i ns,
    well_formed (mkNet ns cs cfg) ->
    forEach_from i ls (fun l _ => backward_layer l) (mkNet ns cs cfg)
    = (Normal tt, mkNet (foldl (backward_layer_nodes cfg cs) ns ls) cs cfg).
Proof.
  induction ls as [|l ls IH]; intros i ns Hwf; cbn; [done|].
  unfold bind. rewrite backward_layer_run by done. apply IH.
  eapply well_formed_backward_frame; [|done]. by apply backward_layer_nodes_frame.
Qed.

Lemma backward_layers_frame cs cfg ls :
  forall ns,
    well_formed (mkNet ns cs cfg) ->
    backward_frame (mkNet ns cs cfg)
                   (mkNet (foldl (backward_layer_nodes cfg cs) ns ls) cs cfg).
Proof.
  induction ls as [|l ls IH]; intros ns Hwf; cbn; [reflexivity|].
  pose proof (backward_layer_nodes_frame ns cs cfg l Hwf) as Hl.
  etrans; [exact Hl|]. apply IH. by eapply well_formed_backward_frame.
Qed.

Lemma backward_nodes_frame expectedOutputs ns cs cfg :
  well_formed (mkNet ns cs cfg) ->
  backward_frame (mkNet ns cs cfg)
                 (mkNet (backward_nodes cfg cs expectedOutputs ns) cs cfg).
Proof.
  intros Hwf. unfold backward_nodes.
  etrans; [apply (set_output_errors_frame expectedOutputs)|].
  apply backward_layers_frame.
  eapply well_formed_backward_frame; [apply set_output_errors_frame|done].
Qed.

(** On a well-formed network [backward] completes normally: the node list
    becomes [backward_nodes], and then every connection is updated from the
    final node list. *)
Lemma backward_run expectedOutputs ns cs cfg :
  well_formed (mkNet ns cs cfg) ->
  backward expectedOutputs (mkNet ns cs cfg)
  = (Normal tt,
     mkNet (backward_nodes cfg cs expectedOutputs ns)
           (map (connection_update cfg (backward_nodes cfg cs expectedOutputs ns)) cs)
           cfg).
Proof.
  intros Hwf. unfold backward, bind at 1, filter_nodes, gets at 1. cbn [nodes].
  unfold bind at 1. rewrite set_output_errors_run.
  unfold bind at 1, gets at 1. cbn [nodes].
  unfold bind at 1, forEach at 1. rewrite backward_layers_run.
  - unfold bind at 1, gets at 1. cbn [connections].
    apply backward_connections_run.
    eapply well_formed_backward_frame; [|done]. by apply backward_nodes_frame.
  - eapply well_formed_backward_frame; [apply set_output_errors_frame|done].
Qed.

(** ** What the backward pass computes *)

Lemma error_sum_static ns cs a a' :
  node_id a' = node_id a -> error_sum ns cs a' = error_sum ns cs a.
Proof. intros Hid. unfold error_sum, outgoing. by rewrite Hid. Qed.

Lemma backward_layer_nodes_map cfg cs ns l :
  backward_layer_nodes cfg cs ns l
  = map (fun a => if in_layer l a then backward_update cfg ns cs a else a) ns.
Proof. apply map_matching_map. Qed.

(** Processing layer [l] leaves the error sum of every node of a layer from
    [l] on as it was. *)
Lemma error_sum_layer_stable ns cs cfg l a :
  well_formed (mkNet ns cs cfg) -> a ∈ ns -> l <= layer a ->
  error_sum (backward_layer_nodes cfg cs ns l) cs a = error_sum ns cs a.
Proof.
  intros Hwf Ha Hl. unfold error_sum.
  apply (gather_agree (fun m => layer m <> l)).
  - rewrite backward_layer_nodes_map. apply Forall2_fmap_r, Forall_Forall2_diag.
    apply Forall_forall. intros n _. unfold in_layer, compose.
    destruct (Nat.eqb_spec (layer n) l) as [Heq|Hne]; [|done].
    destruct (backward_update_static cfg ns cs n) as [Hst _].
    unfold node_static in Hst. split; [by simplify_eq|done].
  - intros c m Hc Hm.
    destruct (outgoing_destinations (mkNet ns cs cfg) a c Hwf Ha Hc) as (m' & Hm' & Hlm).
    cbn in Hm'. rewrite Hm in Hm'. simplify_eq. lia.
Qed.

Lemma backward_layers_ok cs cfg m :
  forall j ns,
    well_formed (mkNet ns cs cfg) ->
    forall n, n ∈ foldl (backward_layer_nodes cfg cs) ns (rev (seq j m)) ->
              j <= layer n < j + m -> type n <> input ->
              error_ok cfg (foldl (backward_layer_nodes cfg cs) ns (rev (seq j m))) cs n.
Proof.
  induction m as [|m IH]; intros j ns Hwf n Hn Hl Hty; [lia|].
  cbn [seq rev] in *. rewrite foldl_snoc in *.
  set (ns' := foldl (backward_layer_nodes cfg cs) ns (rev (seq (S j) m))) in *.
  assert (Hwf' : well_formed (mkNet ns' cs cfg)).
  { eapply well_formed_backward_frame; [|done]. by apply backward_layers_frame. }
  rewrite backward_layer_nodes_map in Hn. apply list_elem_of_fmap in Hn as (a & -> & Ha).
  unfold in_layer in *. destruct (Nat.eqb_spec (layer a) j) as [Heq|Hne].
  - destruct (error_sum_total _ a Hwf' Ha) as [es Hes].
    cbn [nodes connections] in Hes. unfold backward_update in *.
    destruct (is_type input a) eqn:Hin.
    { apply bool_decide_eq_true in Hin. done. }
    rewrite Hes in *. exists es. split; [|done].
    rewrite (error_sum_static _ _ a) by done.
    rewrite error_sum_layer_stable by (done || lia). done.
  - destruct (IH (S j) ns Hwf a Ha) as (es & Hes & Herr); [lia|done|].
    exists es. split; [|done].
    rewrite error_sum_layer_stable by (done || lia). done.
Qed.

Lemma backward_layers_outputs cs cfg ls :
  forall ns,
    well_formed (mkNet ns cs cfg) ->
    Forall (fun l => l < Math_max_layers (map layer ns)) ls ->
    List.filter (is_type output) (foldl (backward_layer_nodes cfg cs) ns ls)
    = List.filter (is_type output) ns.
Proof.
  induction ls as [|l ls IH]; intros ns Hwf Hls; cbn; [done|].
  apply Forall_cons in Hls as [Hl Hls].
  pose proof (backward_layer_nodes_frame ns cs cfg l Hwf) as Hframe.
  rewrite IH; [|by eapply well_formed_backward_frame|].
  - rewrite backward_layer_nodes_map. apply filter_map_fixed. intros a Ha.
    destruct Hwf as (_ & _ & _ & Hout & _). rewrite Forall_forall in Hout.
    cbn [nodes] in Hout. specialize (Hout a Ha). unfold in_layer, is_type.
    destruct (Nat.eqb_spec (layer a) l) as [Heq|Hne]; [|done].
    destruct (backward_update_static cfg ns cs a) as [Hst _].
    unfold node_static in Hst. simplify_eq. split.
    + by replace (type (backward_update cfg ns cs a)) with (type a).
    + intros Hty%bool_decide_eq_true. apply Hout in Hty. lia.
  - destruct Hframe as (Hns & _). cbn [nodes] in *.
    erewrite (Forall2_map_eq layer); [done| |exact Hns].
    intros a a' [Hst _]. unfold node_static in Hst. by simplify_eq.
Qed.

Lemma filter_map_matching {A} (p : A -> bool) (upd : nat -> A -> A) m0 (l : list A) :
  (forall m a, p (upd m a) = p a) ->
  List.filter p (map_matching p upd m0 l)
  = imap (fun i => upd (m0 + i)) (List.filter p l).
Proof.
  intros Hp. revert m0. induction l as [|a l IH]; intros m0; cbn; [done|].
  destruct (p a) eqn:Ha; cbn.
  - rewrite Hp, Ha, Nat.add_0_r, IH. f_equal.
    apply imap_ext. intros i x _. cbn. by rewrite Nat.add_succ_r.
  - rewrite Ha. apply IH.
Qed.

Lemma set_output_errors_outputs cfg expectedOutputs ns i n' :
  List.filter (is_type output) (set_output_errors cfg expectedOutputs ns) !! i = Some n' ->
  error n' = Some (output_error cfg expectedOutputs i n').
Proof.
  unfold set_output_errors. rewrite filter_map_matching by done.
  rewrite list_lookup_imap. destruct (List.filter _ ns !! i) as [n|]; [|done].
  cbn. by intros [= <-].
Qed.

Lemma num_mul_comm (a b : number) : (a * b)%js = (b * a)%js.
Proof. destruct a, b; cbn; try done. f_equal. apply Rmult_comm. Qed.

Lemma num_mul_NaN_l (a : number) : (NaN * a)%js = NaN.
Proof. done. Qed.

Lemma num_mul_NaN_r (a : number) : (a * NaN)%js = NaN.
Proof. by destruct a. Qed.

Lemma num_add_NaN_r (a : number) : (a + NaN)%js = NaN.
Proof. by destruct a. Qed.

Lemma num_sub_NaN_l (a : number) : (NaN - a)%js = NaN.
Proof. done. Qed.

(** The state [backward] leaves, on a well-formed network. *)
Lemma backward_result (cfg : NetworkConfig) (cs : list NetworkConnection)
    (ns : list NetworkNode) (expectedOutputs : list number) :
  well_formed (mkNet ns cs cfg) ->
  let ns' := backward_nodes cfg cs expectedOutputs ns in
  well_formed (mkNet ns' cs cfg) /\
  map activation ns' = map activation ns /\
  (forall i n, List.filter (is_type output) ns' !! i = Some n ->
     error n = Some (output_error cfg expectedOutputs i n)) /\
  (forall n, n ∈ ns' -> type n = hidden -> error_ok cfg ns' cs n) /\
  (forall n, n ∈ ns' -> type n <> input -> is_Some (error n)).
Proof.
  intros Hwf ns'.
  pose proof (backward_nodes_frame expectedOutputs ns cs cfg Hwf) as Hframe.
  pose proof (well_formed_backward_frame _ _ Hframe Hwf) as Hwf'.
  pose proof (set_output_errors_frame expectedOutputs ns cs cfg) as Hframe1.
  pose proof (well_formed_backward_frame _ _ Hframe1 Hwf) as Hwf1.
  assert (Hout : forall i n, List.filter (is_type output) ns' !! i = Some n ->
            error n = Some (output_error cfg expectedOutputs i n)).
  { intros i n. unfold ns', backward_nodes. rewrite backward_layers_outputs; [|done|].
    - apply set_output_errors_outputs.
    - apply Forall_forall. intros l Hl%list_elem_of_In%in_rev%in_seq. lia. }
  assert (Hhid : forall n, n ∈ ns' -> type n = hidden -> error_ok cfg ns' cs n).
  { intros n Hn Hty. unfold ns', backward_nodes in *.
    destruct Hwf' as (_ & _ & Hin & Hout' & _). rewrite Forall_forall in Hin, Hout'.
    cbn [nodes] in *. fold ns' in Hin, Hout'.
    pose proof (Hin n Hn) as Hin'. pose proof (Hout' n Hn) as Hout''.
    assert (Hmax : map layer ns' = map layer (set_output_errors cfg expectedOutputs ns)).
    { apply (Forall2_map_eq layer same_but_error).
      - intros a a' [Hst _]. unfold node_static in Hst. by simplify_eq.
      - by apply backward_layers_frame. }
    assert (layer n <= Math_max_layers (map layer ns')) as Hle.
    { apply Math_max_layers_ge, list_elem_of_fmap. by exists n. }
    rewrite Hmax in Hle, Hout''.
    apply backward_layers_ok; [done|done| |by rewrite Hty].
    rewrite Hty in Hin', Hout''. split; [lia|].
    destruct (decide (layer n = Math_max_layers
                        (map layer (set_output_errors cfg expectedOutputs ns))))
      as [Heq|Hne]; [|lia].
    apply Hout'' in Heq. done. }
  split; [done|]. split; [|split; [done|split; [done|]]].
  - destruct Hframe as (H & _). eapply Forall2_map_eq; [|exact H].
    by intros a a' [_ Hact].
  - intros n Hn Hty. destruct (type n) eqn:Htype; [done| |].
    + destruct (Hhid n Hn Htype) as (es & _ & ->). done.
    + assert (n ∈ List.filter (is_type output) ns') as Hin.
      { apply list_elem_of_In, filter_In. split; [by apply list_elem_of_In|].
        unfold is_type. by apply bool_decide_eq_true. }
      apply list_elem_of_lookup in Hin as [i Hi]. by rewrite (Hout i n Hi).
Qed.

Lemma connection_endpoints net c :
  well_formed net -> c ∈ connections net ->
  exists src dst,
    List.find (fun n => String.eqb (node_id n) (fromNodeId c)) (nodes net) = Some src /\
    List.find (fun n => String.eqb (node_id n) (toNodeId c)) (nodes net) = Some dst /\
    layer dst = S (layer src) /\ type dst <> input.
Proof.
  intros (_ & Hcs & Hin & _) Hc.
  rewrite Forall_forall in Hcs. destruct (Hcs c Hc) as [[lf Hlf] Hlt].
  unfold layer_of in *.
  destruct (find _ (nodes net)) as [src|] eqn:Hsrc; [|done].
  destruct (find (fun n => String.eqb (node_id n) (toNodeId c)) (nodes net))
    as [dst|] eqn:Hdst; [|done].
  cbn in Hlt. exists src, dst. repeat split; [congruence|].
  apply find_id_Some in Hdst as [Hdst _].
  rewrite Forall_forall in Hin. intros Hty%(Hin dst Hdst). congruence.
Qed.

Lemma set_output_errors_layers cfg expectedOutputs ns :
  map layer (set_output_errors cfg expectedOutputs ns) = map layer ns.
Proof.
  apply (Forall2_map_eq layer same_but_error).
  - intros a a' [Hst _]. unfold node_static in Hst. by simplify_eq.
  - by destruct (set_output_errors_frame expectedOutputs ns [] cfg).
Qed.

Lemma connection_update_spec cfg cs ns' c :
  well_formed (mkNet ns' cs cfg) ->
  (forall n, n ∈ ns' -> type n <> input -> is_Some (error n)) ->
  c ∈ cs -> connection_updated cfg ns' c (connection_update cfg ns' c).
Proof.
  intros Hwf Herr Hc.
  destruct (connection_endpoints _ c Hwf Hc) as (src & dst & Hsrc & Hdst & _ & Hty).
  cbn [nodes] in *.
  destruct (Herr dst) as [e He]; [by apply find_id_Some in Hdst as [? _]|done|].
  exists src, dst, e. unfold connection_update. rewrite Hsrc, Hdst, He. cbn.
  by repeat split.
Qed.

Lemma backward_connections_updated cfg cs ns' :
  well_formed (mkNet ns' cs cfg) ->
  (forall n, n ∈ ns' -> type n <> input -> is_Some (error n)) ->
  Forall2 (connection_updated cfg ns') cs (map (connection_update cfg ns') cs).
Proof.
  intros Hwf Herr. apply Forall2_fmap_r, Forall_Forall2_diag, Forall_forall.
  intros c Hc. by eapply connection_update_spec.
Qed.

(** C2. On a well-formed network with a target vector of length
    [outputSize], [backward] returns normally and leaves the activations as
    they were.  The node list is obtained by first storing on the [i]-th
    output neuron the error [(target_i - activation_i) *
    activationDerivative(activation_i)] and then processing the layers in
    decreasing order, from the one below the output layer down to [0], input
    neurons skipped; afterwards every hidden neuron holds
    [activationDerivative(activation_n)] times the sum over its outgoing
    connections of destination error times weight, with the weights the
    connections had before the call.  Every connection then has
    [gradient = destination error * source activation], read in the final
    node list, and [weight = old weight + learningRate * gradient]. *)
Theorem backward_computes_errors (net : NeuralNetwork) (targets : list number) :
  well_formed net -> length targets = outputSize (config net) ->
  exists net',
    backward targets net = (Normal tt, net') /\
    map activation (nodes net') = map activation (nodes net) /\
    nodes net'
    = foldl (backward_layer_nodes (config net) (connections net))
            (set_output_errors (config net) targets (nodes net))
            (rev (seq 0 (Math_max_layers (map layer (nodes net))))) /\
    (forall i n, List.filter (is_type output) (nodes net') !! i = Some n ->
       exists t, targets !! i = Some t /\
         error n = Some ((t - activation n)
                         * activateDerivative (config net) (activation n))%js) /\
    (forall n, n ∈ nodes net' -> type n = hidden ->
       exists errorSum,
         error_sum (nodes net') (connections net) n = Some errorSum /\
         error n = Some (activateDerivative (config net) (activation n) * errorSum)%js) /\
    Forall2 (connection_updated (config net) (nodes net'))
            (connections net) (connections net').
Proof.
  destruct net as [ns cs cfg]. intros Hwf Hlen. cbn [nodes connections config] in *.
  eexists. split; [by apply backward_run|]. cbn [nodes connections config].
  destruct (backward_result cfg cs ns targets Hwf) as (Hwf' & Hact & Hout & Hhid & Herr).
  split; [done|]. split; [|split; [|split]].
  - unfold backward_nodes. by rewrite set_output_errors_layers.
  - intros i n Hi. rewrite (Hout i n Hi). unfold output_error.
    destruct (targets !! i) as [t|] eqn:Ht; [by exists t|].
    apply lookup_ge_None in Ht. apply lookup_lt_Some in Hi.
    destruct Hwf' as (_ & _ & _ & _ & _ & Hn). unfold count_matching in Hn.
    cbn [nodes config] in Hn. lia.
  - intros n Hn Hty. destruct (Hhid n Hn Hty) as (es & Hes & He).
    exists es. by rewrite num_mul_comm.
  - by apply backward_connections_updated.
Qed.

(** ** Example networks *)

Lemma initial_network_well_formed : well_formed initial_network.
Proof. apply (bool_decide_unpack _). by vm_compute. Qed.

Lemma two_output_net_well_formed : well_formed two_output_net.
Proof. apply (bool_decide_unpack _). by vm_compute. Qed.

Lemma two_output_built_well_formed : well_formed two_output_built.
Proof. apply (bool_decide_unpack _). by vm_compute. Qed.

(** [two_output_net] is what the constructor followed by [forward([1])]
    produces when [Math.random] returns [1/2]. *)
Lemma two_output_net_built :
  initializeNetwork (fun _ => (1 / 2)%R) two_output_config = two_output_built.
Proof.
  unfold initializeNetwork, connect_layer, in_layer. cbn.
  replace (1 / 2 * 2 - 1)%R with 0%R by lra. reflexivity.
Qed.

Lemma two_output_net_reached :
  forward [Num 1] two_output_built
  = (Normal [Num (1 / 2); Num (1 / 2)], two_output_net).
Proof.
  pose proof two_output_built_well_formed as Hwf.
  unfold two_output_built in *. rewrite forward_run by done.
  assert (Hs : sigmoid (Num (0 + 1 * 0)) = Num (1 / 2)).
  { rewrite sigmoid_Num. f_equal.
    replace (- (0 + 1 * 0))%R with 0%R by lra. rewrite exp_0. lra. }
  assert (H1 : or_zero (Some (Num 1)) = Num 1).
  { cbn. destruct (Req_dec_T 1 0); [lra|done]. }
  match goal with |- context [forward_nodes ?cfg ?cs ?i ?ns] =>
    assert (forward_nodes cfg cs i ns
            = [mkNode "node-0" 100 100 0 (or_zero (Some (Num 1))) (Num 0) input None;
               mkNode "node-1" 300 100 1
                      (sigmoid (Num 0 + or_zero (Some (Num 1)) * Num 0))
                      (Num 0) output None;
               mkNode "node-2" 300 180 1
                      (sigmoid (Num 0 + or_zero (Some (Num 1)) * Num 0))
                      (Num 0) output None]) as -> by reflexivity
  end.
  rewrite H1. cbn [num_add num_mul lift2]. rewrite Hs. reflexivity.
Qed.

(** ** The backward pass: biases and short target vectors *)

(** C1 (as the code has it). No backward pass writes a bias: for every
    network and every target vector, whether the call returns or raises,
    every neuron has the identifier, position, layer, bias, type and
    activation it had before, every connection has the identifier and the
    endpoints it had before, and the configuration is the same; so
    [backward] only writes neuron errors and connection gradients and
    weights.  In a network built by the constructor every bias is still the
    value drawn at construction after any sequence of [forward] and
    [backward] calls. *)
Theorem backward_keeps_biases (net : NeuralNetwork) (targets : list number) :
  Forall2 (fun n n' =>
             node_id n' = node_id n /\ node_x n' = node_x n /\
             node_y n' = node_y n /\ layer n' = layer n /\
             bias n' = bias n /\ type n' = type n /\
             activation n' = activation n)
          (nodes net) (nodes (backward targets net).2) /\
  Forall2 (fun c c' =>
             conn_id c' = conn_id c /\ fromNodeId c' = fromNodeId c /\
             toNodeId c' = toNodeId c)
          (connections net) (connections (backward targets net).2) /\
  config (backward targets net).2 = config net /\
  forall random cfg calls,
    map bias (nodes (foldl call (initializeNetwork random cfg) calls))
    = map bias (nodes (initializeNetwork random cfg)).
Proof.
  destruct (backward_preserves_frame targets net) as (Hns & Hcs & Hcfg).
  split; [|split; [done|split; [done|]]].
  - eapply Forall2_impl; [exact Hns|].
    intros n n' [Hst Hact]. unfold node_static in Hst. by simplify_eq.
  - intros random cfg calls. generalize (initializeNetwork random cfg).
    induction calls as [|c calls IH]; intros net0; cbn [foldl]; [done|].
    rewrite IH. destruct c as [v|v]; cbn [call].
    + destruct (forward_preserves_frame v net0) as (H & _).
      apply (Forall2_map_eq bias same_but_activation); [|done].
      intros a a' [Hst _]. unfold node_static in Hst. by simplify_eq.
    + destruct (backward_preserves_frame v net0) as (H & _).
      apply (Forall2_map_eq bias same_but_error); [|done].
      intros a a' [Hst _]. unfold node_static in Hst. by simplify_eq.
Qed.

(** C1 fails as stated: after [backward] on [two_output_net] (a built
    network after [forward([1])], see [two_output_net_reached]) with targets
    [[1; 0]] and learning rate [1], the first output neuron has a non-zero
    error and still its old bias, not the bias a gradient step would give. *)
Lemma backward_bias_counterexample :
  exists net' n n' e,
    backward [Num 1; Num 0] two_output_net = (Normal tt, net') /\
    nodes two_output_net !! 1 = Some n /\
    nodes net' !! 1 = Some n' /\
    type n = output /\
    error n' = Some (Num e) /\ e <> 0%R /\
    bias n' = bias n /\
    bias n' <> (bias n + learningRate (config two_output_net) * Num e)%js.
Proof.
  eexists _, _, _, _. split; [vm_compute; reflexivity|].
  split; [reflexivity|]. split; [reflexivity|]. split; [reflexivity|].
  split; [reflexivity|]. split; [lra|]. split; [reflexivity|].
  cbn. intros [= H]. lra.
Qed.

(** C4 (as the code has it). On a well-formed network with a target vector
    shorter than [outputSize], [backward] raises nothing and visits every
    output neuron: below the length of the targets the error is the usual
    one; from the length on, the target read is [undefined], the error
    stored is [NaN], and every connection into that neuron gets gradient
    [NaN] and weight [NaN]. *)
Theorem backward_short_targets (net : NeuralNetwork) (targets : list number) :
  well_formed net -> length targets < outputSize (config net) ->
  exists net',
    backward targets net = (Normal tt, net') /\
    forall i n, List.filter (is_type output) (nodes net') !! i = Some n ->
      (i < length targets ->
         exists t, targets !! i = Some t /\
           error n = Some ((t - activation n)
                           * activateDerivative (config net) (activation n))%js) /\
      (length targets <= i ->
         error n = Some NaN /\
         forall c', c' ∈ connections net' -> toNodeId c' = node_id n ->
                    gradient c' = NaN /\ weight c' = NaN).
Proof.
  destruct net as [ns cs cfg]. intros Hwf Hlen. cbn [nodes connections config] in *.
  eexists. split; [by apply backward_run|]. cbn [nodes connections config].
  destruct (backward_result cfg cs ns targets Hwf) as (Hwf' & Hact & Hout & Hhid & Herr).
  intros i n Hi. rewrite (Hout i n Hi). unfold output_error. split.
  - intros Hlt. destruct (lookup_lt_is_Some_2 targets i Hlt) as [t Ht].
    exists t. by rewrite Ht.
  - intros Hge. rewrite (lookup_ge_None_2 targets i Hge). cbn. split; [done|].
    intros c' (c & -> & Hc)%list_elem_of_fmap Hto.
    destruct (connection_update_spec cfg cs _ c Hwf' Herr Hc)
      as (src & dst & e & Hsrc & Hdst & He & Hg & Hw & _ & _ & Hto').
    rewrite Hto' in Hto.
    assert (n ∈ backward_nodes cfg cs targets ns) as Hn.
    { apply list_elem_of_lookup_2, list_elem_of_In, filter_In in Hi as [Hi _].
      by apply list_elem_of_In. }
    destruct Hwf' as (Hnd & _). cbn [nodes] in Hnd.
    rewrite Hto, (find_id_self _ n Hnd Hn) in Hdst. simplify_eq.
    rewrite (Hout i dst Hi) in He. unfold output_error in He.
    rewrite (lookup_ge_None_2 targets i Hge) in He. cbn in He. simplify_eq.
    rewrite Hw, Hg. cbn. split; [done|].
    by rewrite num_mul_NaN_r, num_add_NaN_r.
Qed.

(** C4 fails as stated: with the single target [[1]] on [two_output_net]
    (a built network after [forward([1])], see [two_output_net_reached]),
    the second output neuron, which had no error, gets the error [NaN], and
    the connection into it, which had weight [0] and gradient [0], gets
    weight [NaN] and gradient [NaN]. *)
Lemma backward_short_targets_counterexample :
  exists net',
    backward [Num 1] two_output_net = (Normal tt, net') /\
    (error <$> nodes two_output_net !! 2) = Some None /\
    (error <$> nodes net' !! 2) = Some (Some NaN) /\
    ((fun c => (toNodeId c, weight c, gradient c)) <$> connections two_output_net !! 1)
    = Some ("node-2", Num 0, Num 0) /\
    ((fun c => (toNodeId c, weight c, gradient c)) <$> connections net' !! 1)
    = Some ("node-2", NaN, NaN).
Proof.
  eexists. split; [vm_compute; reflexivity|]. by repeat split.
Qed.

(** ** The topology builder in closed form *)

Section Built.
Variable random : nat -> R.

Lemma create_layer_spec len st layerIndex layerSize :
  create_layer random len st layerIndex layerSize
  = mkBuilder
      (b_nodes st
       ++ map (new_node random len layerIndex (b_nodeId st) (b_draws st)) (seq 0 layerSize))
      (b_connections st) (b_nodeId st + layerSize) (b_draws st + layerSize).
Proof.
  unfold create_layer. induction layerSize as [|k IH].
  - cbn. rewrite app_nil_r, !Nat.add_0_r. by destruct st.
  - rewrite seq_S, foldl_snoc, IH, map_app, app_assoc. cbn.
    unfold push_node, new_node. cbn. by rewrite !Nat.add_succ_r.
Qed.

Lemma create_layers_spec len sizes :
  forall layerIndex st,
    create_layers random len sizes layerIndex st
    = mkBuilder
        (b_nodes st ++ built_nodes random len sizes layerIndex (b_nodeId st) (b_draws st))
        (b_connections st)
        (b_nodeId st + sum_list sizes) (b_draws st + sum_list sizes).
Proof.
  induction sizes as [|size rest IH]; intros layerIndex st; cbn.
  - rewrite app_nil_r, !Nat.add_0_r. by destruct st.
  - rewrite IH, create_layer_spec. cbn. by rewrite <- app_assoc, <- !Nat.add_assoc.
Qed.

Lemma length_built_nodes len sizes :
  forall layerIndex nodeId draws,
    length (built_nodes random len sizes layerIndex nodeId draws) = sum_list sizes.
Proof.
  induction sizes as [|size rest IH]; intros; cbn; [done|].
  by rewrite length_app, length_map, length_seq, IH.
Qed.

Lemma built_nodes_ids len sizes :
  forall layerIndex nodeId draws,
    map node_id (built_nodes random len sizes layerIndex nodeId draws)
    = map (fun k => "node-" +:+ nat_to_string k) (seq nodeId (sum_list sizes)).
Proof.
  induction sizes as [|size rest IH]; intros; cbn; [done|].
  rewrite map_app, IH, seq_app, map_app. f_equal.
  assert (seq nodeId size = map (Nat.add nodeId) (seq 0 size)) as ->.
  { change (seq nodeId size = Nat.add nodeId <$> seq 0 size).
    by rewrite fmap_add_seq, Nat.add_0_r. }
  by rewrite !map_map.
Qed.

Lemma built_nodes_layers len sizes :
  forall layerIndex nodeId draws,
    Forall (fun n => layerIndex <= layer n < layerIndex + length sizes /\
                     type n = layerType len (layer n))
           (built_nodes random len sizes layerIndex nodeId draws).
Proof.
  induction sizes as [|size rest IH]; intros; cbn; [done|].
  apply Forall_app. split.
  - apply Forall_forall. intros n (i & -> & _)%list_elem_of_fmap. cbn. split; [lia|done].
  - eapply Forall_impl; [apply IH|]. intros n [Hl Hty]. cbn in *. split; [lia|done].
Qed.

Lemma new_nodes_count len l layerIndex nodeId draws (js : list nat) :
  length (List.filter (in_layer l) (map (new_node random len layerIndex nodeId draws) js))
  = if l =? layerIndex then length js else 0.
Proof.
  induction js as [|j js IH]; cbn [map List.filter]; [by destruct (l =? layerIndex)|].
  unfold in_layer at 1. cbn [layer new_node]. rewrite (Nat.eqb_sym layerIndex l).
  destruct (l =? layerIndex); cbn [length]; by rewrite IH.
Qed.

Lemma built_nodes_count len sizes l :
  forall layerIndex nodeId draws,
    count_matching (in_layer l) (built_nodes random len sizes layerIndex nodeId draws)
    = if l <? layerIndex then 0 else nth (l - layerIndex) sizes 0.
Proof.
  unfold count_matching.
  induction sizes as [|size rest IH]; intros; cbn [built_nodes].
  - destruct (l <? layerIndex); [done|]. by destruct (l - layerIndex).
  - rewrite List.filter_app, length_app, IH, new_nodes_count, length_seq.
    destruct (Nat.ltb_spec l layerIndex), (Nat.eqb_spec l layerIndex),
      (Nat.ltb_spec l (S layerIndex)); try lia.
    + replace (l - layerIndex) with 0 by lia. cbn. lia.
    + replace (l - layerIndex) with (S (l - S layerIndex)) by lia. done.
Qed.

Lemma connect_node_spec fromNode nextLayerNodes :
  forall st,
    let st' := foldl (fun st toNode => push_connection random st fromNode toNode)
                     st nextLayerNodes in
    b_nodes st' = b_nodes st /\
    map endpoints (b_connections st')
    = map endpoints (b_connections st)
      ++ map (fun toNode => (node_id fromNode, node_id toNode)) nextLayerNodes.
Proof.
  induction nextLayerNodes as [|t rest IH]; intros st; cbn.
  - by rewrite app_nil_r.
  - destruct (IH (push_connection random st fromNode t)) as [Hn Hc].
    cbn in Hn, Hc. rewrite Hn, Hc. split; [done|].
    rewrite map_app. cbn. by rewrite <- app_assoc.
Qed.

Lemma connect_nodes_spec currentLayerNodes nextLayerNodes :
  forall st,
    let st' := foldl (fun st fromNode =>
                        foldl (fun st toNode => push_connection random st fromNode toNode)
                              st nextLayerNodes)
                     st currentLayerNodes in
    b_nodes st' = b_nodes st /\
    map endpoints (b_connections st')
    = map endpoints (b_connections st)
      ++ flat_map (fun fromNode =>
                     map (fun toNode => (node_id fromNode, node_id toNode))
                         nextLayerNodes)
                  currentLayerNodes.
Proof.
  induction currentLayerNodes as [|f cur IH]; intros st; cbn.
  - by rewrite app_nil_r.
  - destruct (connect_node_spec f nextLayerNodes st) as [Hn Hc]. cbn zeta in Hn, Hc.
    destruct (IH (foldl (fun st toNode => push_connection random st f toNode)
                        st nextLayerNodes)) as [Hn' Hc'].
    cbn zeta in Hn', Hc'. rewrite Hn', Hc', Hn, Hc. split; [done|].
    by rewrite <- app_assoc.
Qed.

Lemma connect_layer_spec st l :
  b_nodes (connect_layer random st l) = b_nodes st /\
  map endpoints (b_connections (connect_layer random st l))
  = map endpoints (b_connections st) ++ layer_pairs (b_nodes st) l.
Proof. apply connect_nodes_spec. Qed.

Lemma connect_layers_spec ls :
  forall st,
    b_nodes (foldl (connect_layer random) st ls) = b_nodes st /\
    map endpoints (b_connections (foldl (connect_layer random) st ls))
    = map endpoints (b_connections st) ++ flat_map (layer_pairs (b_nodes st)) ls.
Proof.
  induction ls as [|l ls IH]; intros st; cbn.
  - by rewrite app_nil_r.
  - destruct (connect_layer_spec st l) as [Hn Hc].
    destruct (IH (connect_layer random st l)) as [Hn' Hc'].
    rewrite Hn', Hc', Hn, Hc. split; [done|]. by rewrite <- app_assoc.
Qed.

(** The network [initializeNetwork] builds. *)
Lemma initializeNetwork_spec cfg :
  let sizes := layerSizes cfg in
  let net := initializeNetwork random cfg in
  nodes net = built_nodes random (length sizes) sizes 0 0 0 /\
  map endpoints (connections net)
  = flat_map (layer_pairs (nodes net)) (seq 0 (length sizes - 1)) /\
  config net = cfg.
Proof.
  intros sizes net. unfold net, initializeNetwork. fold sizes. cbn zeta.
  rewrite create_layers_spec. cbn [b_nodes b_connections b_nodeId b_draws app].
  match goal with |- context [foldl _ ?st ?ls] =>
    destruct (connect_layers_spec ls st) as [Hn Hc] end.
  cbn [nodes connections config]. rewrite Hn, Hc. done.
Qed.
End Built.

(** ** Topology size *)

Lemma adjacent_products_nth (sizes : list nat) :
  list_sum (map (fun l => nth l sizes 0 * nth (l + 1) sizes 0)
                (seq 0 (length sizes - 1)))
  = adjacent_products sizes.
Proof.
  induction sizes as [|a [|b rest] IH]; [done..|].
  cbn [length Nat.sub] in *. rewrite Nat.sub_0_r in *.
  change (adjacent_products (a :: b :: rest))
    with (a * b + adjacent_products (b :: rest)).
  rewrite <- IH, <- cons_seq, <- seq_shift. cbn [map list_sum].
  rewrite map_map. f_equal.
Qed.

Lemma length_layer_pairs ns l :
  length (layer_pairs ns l)
  = count_matching (in_layer l) ns * count_matching (in_layer (l + 1)) ns.
Proof.
  unfold layer_pairs, count_matching. rewrite length_flat_map.
  generalize (List.filter (in_layer (l + 1)) ns). intros next.
  induction (List.filter (in_layer l) ns) as [|f cur IH]; [done|].
  cbn [map length Nat.mul]. rewrite <- IH, <- (length_map (fun t => (node_id f, node_id t))).
  reflexivity.
Qed.

Lemma initializeNetwork_layer_count random cfg l :
  count_matching (in_layer l) (nodes (initializeNetwork random cfg))
  = nth l (layerSizes cfg) 0.
Proof.
  destruct (initializeNetwork_spec random cfg) as (Hns & _). cbn zeta in Hns.
  rewrite Hns, built_nodes_count. cbn. by rewrite Nat.sub_0_r.
Qed.

(** C6. For input width [I], hidden widths [H1..Hk] and output width [O]
    (positive or not), construction produces [I + H1 + ... + Hk + O] neurons
    and [I*H1 + H1*H2 + ... + Hk*O] connections, [I*O] when there is no
    hidden layer; layer [l] holds as many neurons as the [l]-th width; the
    neurons of the first layer are typed input, those of the last layer
    output, and all others hidden. *)
Theorem initializeNetwork_size (random : nat -> R) (cfg : NetworkConfig) :
  let net := initializeNetwork random cfg in
  length (nodes net) = inputSize cfg + sum_list (hiddenLayers cfg) + outputSize cfg /\
  length (connections net) = adjacent_products (layerSizes cfg) /\
  (hiddenLayers cfg = [] ->
   length (connections net) = inputSize cfg * outputSize cfg) /\
  (forall l, count_matching (in_layer l) (nodes net) = nth l (layerSizes cfg) 0) /\
  Forall (fun n => type n = if layer n =? 0 then input
                            else if layer n =? S (length (hiddenLayers cfg)) then output
                            else hidden)
         (nodes net).
Proof.
  intros net. destruct (initializeNetwork_spec random cfg) as (Hns & Hcs & _).
  fold net in Hns, Hcs.
  pose proof (initializeNetwork_layer_count random cfg) as Hcount. fold net in Hcount.
  assert (Hlen : length (connections net) = adjacent_products (layerSizes cfg)).
  { rewrite <- (length_map endpoints), Hcs, length_flat_map, <- adjacent_products_nth.
    f_equal. apply map_ext. intros l. by rewrite length_layer_pairs, !Hcount. }
  split; [|split; [done|split; [|split; [done|]]]].
  - rewrite Hns, length_built_nodes. unfold layerSizes. cbn.
    rewrite sum_list_with_app. cbn. lia.
  - intros Hhs. rewrite Hlen. unfold layerSizes. rewrite Hhs. cbn. lia.
  - rewrite Hns. eapply Forall_impl; [apply built_nodes_layers|].
    intros n [_ ->]. unfold layerType, layerSizes. cbn [length].
    rewrite length_app. cbn. by rewrite Nat.add_1_r, Nat.sub_0_r.
Qed.

(** ** Layering of the built topology *)

Lemma nat_to_string_inj n n' : nat_to_string n = nat_to_string n' -> n = n'.
Proof.
  unfold nat_to_string. intros H. apply Unsigned.to_uint_inj.
  apply (f_equal NilEmpty.uint_of_string) in H. rewrite !NilEmpty.usu in H. congruence.
Qed.

Lemma node_name_inj n n' :
  "node-" +:+ nat_to_string n = "node-" +:+ nat_to_string n' -> n = n'.
Proof. cbn. intros [= H]. by apply nat_to_string_inj. Qed.

Lemma built_nodes_NoDup random len sizes layerIndex nodeId draws :
  NoDup (map node_id (built_nodes random len sizes layerIndex nodeId draws)).
Proof.
  rewrite built_nodes_ids. apply NoDup_fmap_2; [|apply NoDup_seq].
  intros n n'. apply node_name_inj.
Qed.

Lemma node_id_inj_in ns a b :
  NoDup (map node_id ns) -> a ∈ ns -> b ∈ ns -> node_id a = node_id b -> a = b.
Proof.
  intros Hnd Ha Hb Hid. pose proof (find_id_self ns a Hnd Ha) as Hfa.
  rewrite Hid, (find_id_self ns b Hnd Hb) in Hfa. congruence.
Qed.

Lemma elem_of_layer_pairs ns l p :
  p ∈ layer_pairs ns l <->
  exists f t, f ∈ ns /\ t ∈ ns /\ layer f = l /\ layer t = l + 1 /\
              p = (node_id f, node_id t).
Proof.
  unfold layer_pairs. rewrite list_elem_of_In, in_flat_map. split.
  - intros (f & [Hf Hl]%filter_In & (t & <- & [Ht Hl']%filter_In)%in_map_iff).
    exists f, t. rewrite !list_elem_of_In.
    apply Nat.eqb_eq in Hl, Hl'. done.
  - intros (f & t & Hf & Ht & Hl & Hl' & ->). rewrite list_elem_of_In in Hf, Ht.
    exists f. split; [apply filter_In; split; [done|by apply Nat.eqb_eq]|].
    apply in_map_iff. exists t. split; [done|].
    apply filter_In. split; [done|by apply Nat.eqb_eq].
Qed.

Lemma initializeNetwork_is_layered random cfg : layered (initializeNetwork random cfg).
Proof.
  destruct (initializeNetwork_spec random cfg) as (Hns & Hcs & _).
  set (net := initializeNetwork random cfg) in *. cbn zeta in *.
  assert (Hnd : NoDup (map node_id (nodes net))).
  { rewrite Hns. apply built_nodes_NoDup. }
  intros a b Ha Hb. split.
  - intros (c & Hc & Hfrom & Hto).
    assert (endpoints c ∈ map endpoints (connections net)) as Hin.
    { apply list_elem_of_fmap. by exists c. }
    rewrite Hcs in Hin. apply list_elem_of_In, in_flat_map in Hin as (l & _ & Hin).
    apply list_elem_of_In, elem_of_layer_pairs in Hin
      as (f & t & Hf & Ht & Hlf & Hlt & [= Hidf Hidt]).
    rewrite Hfrom in Hidf. rewrite Hto in Hidt.
    apply (node_id_inj_in _ _ _ Hnd Ha Hf) in Hidf.
    apply (node_id_inj_in _ _ _ Hnd Hb Ht) in Hidt. subst. lia.
  - intros Hl.
    assert ((node_id a, node_id b) ∈ map endpoints (connections net)) as Hin.
    { rewrite Hcs. apply list_elem_of_In, in_flat_map. exists (layer a). split.
      - apply in_seq.
        pose proof (built_nodes_layers random (length (layerSizes cfg))
                      (layerSizes cfg) 0 0 0) as Hlayers.
        rewrite <- Hns, Forall_forall in Hlayers.
        destruct (Hlayers b Hb) as [Hlb _]. lia.
      - apply list_elem_of_In, elem_of_layer_pairs. exists a, b.
        repeat split; [done|done|lia]. }
    apply list_elem_of_fmap in Hin as (c & [= Hfrom Hto] & Hc). by exists c.
Qed.

Lemma node_static_key a a' : node_static a' = node_static a -> node_key a' = node_key a.
Proof. unfold node_static, node_key. intros [= ? ? ? ? ? ?]. congruence. Qed.

Lemma call_frame net c : backward_frame net (call net c) \/ forward_frame net (call net c).
Proof.
  destruct c; cbn; [right; apply forward_preserves_frame
                   |left; apply backward_preserves_frame].
Qed.

Lemma call_keys net c :
  map node_key (nodes (call net c)) = map node_key (nodes net) /\
  map connection_key (connections (call net c)) = map connection_key (connections net) /\
  config (call net c) = config net.
Proof.
  destruct (call_frame net c) as [(Hns & Hcs & Hcfg)|(Hns & Hcs & Hcfg)].
  - split; [|split; [|done]].
    + eapply Forall2_map_eq; [|exact Hns]. intros a a' [Hst _].
      by apply node_static_key.
    + eapply Forall2_map_eq; [|exact Hcs]. intros a a' (H1 & H2 & H3).
      unfold connection_key. by rewrite H1, H2, H3.
  - split; [|split; [|done]].
    + eapply Forall2_map_eq; [|exact Hns]. intros a a' [Hst _].
      by apply node_static_key.
    + eapply Forall2_map_eq; [|exact Hcs]. by intros a a' ->.
Qed.

Lemma calls_keys net cs :
  map node_key (nodes (foldl call net cs)) = map node_key (nodes net) /\
  map connection_key (connections (foldl call net cs))
  = map connection_key (connections net) /\
  config (foldl call net cs) = config net.
Proof.
  revert net. induction cs as [|c cs IH]; intros net; cbn; [done|].
  destruct (IH (call net c)) as (-> & -> & ->). apply call_keys.
Qed.

Lemma layered_keys net net' :
  map node_key (nodes net') = map node_key (nodes net) ->
  map connection_key (connections net') = map connection_key (connections net) ->
  layered net -> layered net'.
Proof.
  intros Hns Hcs Hlay a' b' Ha' Hb'.
  assert (forall n', n' ∈ nodes net' ->
            exists n, n ∈ nodes net /\ node_key n = node_key n') as Hback.
  { intros n' Hn'. apply (list_elem_of_fmap_2 node_key) in Hn'.
    change (node_key n' ∈ map node_key (nodes net')) in Hn'. rewrite Hns in Hn'.
    apply list_elem_of_fmap in Hn' as (n & Hk & Hn). by exists n. }
  destruct (Hback a' Ha') as (a & Ha & [= Hida Hla _]).
  destruct (Hback b' Hb') as (b & Hb & [= Hidb Hlb _]).
  rewrite <- Hla, <- Hlb, <- (Hlay a b Ha Hb), <- Hida, <- Hidb. split.
  - intros (c' & Hc' & Hfrom & Hto).
    apply (list_elem_of_fmap_2 connection_key) in Hc'.
    change (connection_key c' ∈ map connection_key (connections net')) in Hc'.
    rewrite Hcs in Hc'.
    apply list_elem_of_fmap in Hc' as (c & [= _ Hf Ht] & Hc).
    exists c. split; [done|]. by rewrite <- Hf, <- Ht.
  - intros (c & Hc & Hfrom & Hto).
    apply (list_elem_of_fmap_2 connection_key) in Hc.
    change (connection_key c ∈ map connection_key (connections net)) in Hc.
    rewrite <- Hcs in Hc.
    apply list_elem_of_fmap in Hc as (c' & [= _ Hf Ht] & Hc').
    exists c'. split; [done|]. by rewrite <- Hf, <- Ht.
Qed.

(** C7. In every constructed network, and in every state a sequence of
    [forward] and [backward] calls takes it to, a connection leads from
    neuron [a] to neuron [b] if and only if [b.layer = a.layer + 1]; the
    calls leave the list of connections (identifiers and endpoints) and the
    list of nodes (identifiers, layers, types) as built. *)
Theorem constructed_network_layered (random : nat -> R) (cfg : NetworkConfig)
    (calls : list Call) :
  let net0 := initializeNetwork random cfg in
  let net := foldl call net0 calls in
  layered net0 /\ layered net /\
  map connection_key (connections net) = map connection_key (connections net0) /\
  map node_key (nodes net) = map node_key (nodes net0).
Proof.
  intros net0 net. destruct (calls_keys net0 calls) as (Hns & Hcs & _).
  pose proof (initializeNetwork_is_layered random cfg) as Hlay.
  split; [done|]. split; [by apply (layered_keys net0)|done].
Qed.

(** ** Constructed networks are well formed *)

Lemma Math_max_layers_le m ls : Forall (fun l => l <= m) ls -> Math_max_layers ls <= m.
Proof. unfold Math_max_layers. induction 1; cbn; lia. Qed.

Lemma count_matching_ext {A} (p q : A -> bool) (l : list A) :
  Forall (fun a => p a = q a) l -> count_matching p l = count_matching q l.
Proof.
  unfold count_matching. induction 1 as [|a l Ha _ IH]; cbn; [done|].
  rewrite Ha. destruct (q a); cbn; by rewrite IH.
Qed.

Lemma layerType_input len l : layerType len l = input <-> l = 0.
Proof.
  unfold layerType. destruct (Nat.eqb_spec l 0); [done|].
  by destruct (l =? len - 1).
Qed.

Lemma layerType_output len l : 2 <= len -> layerType len l = output <-> l = len - 1.
Proof.
  intros Hlen. unfold layerType. destruct (Nat.eqb_spec l 0) as [->|].
  - split; [done|lia].
  - by destruct (Nat.eqb_spec l (len - 1)).
Qed.

Lemma length_layerSizes cfg : length (layerSizes cfg) = S (S (length (hiddenLayers cfg))).
Proof. unfold layerSizes. cbn. rewrite length_app. cbn. lia. Qed.

Lemma nth_layerSizes_last cfg :
  nth (S (length (hiddenLayers cfg))) (layerSizes cfg) 0 = outputSize cfg.
Proof. unfold layerSizes. cbn. by rewrite nth_middle. Qed.

Lemma initializeNetwork_well_formed random cfg :
  0 < outputSize cfg -> well_formed (initializeNetwork random cfg).
Proof.
  intros HO.
  destruct (initializeNetwork_spec random cfg) as (Hns & Hcs & Hcfg).
  pose proof (initializeNetwork_layer_count random cfg) as Hcount.
  set (net := initializeNetwork random cfg) in *. cbn zeta in *.
  pose proof (length_layerSizes cfg) as Hlen.
  pose proof (built_nodes_layers random (length (layerSizes cfg)) (layerSizes cfg) 0 0 0)
    as Hlayers.
  rewrite <- Hns, Forall_forall in Hlayers.
  assert (Hnd : NoDup (map node_id (nodes net))).
  { rewrite Hns. apply built_nodes_NoDup. }
  assert (Hmax : Math_max_layers (map layer (nodes net)) = S (length (hiddenLayers cfg))).
  { apply Nat.le_antisymm.
    - apply Math_max_layers_le, Forall_forall.
      intros l (n & -> & Hn)%list_elem_of_fmap. destruct (Hlayers n Hn) as [? _]. lia.
    - apply Math_max_layers_ge.
      specialize (Hcount (S (length (hiddenLayers cfg)))).
      rewrite nth_layerSizes_last in Hcount. unfold count_matching in Hcount.
      destruct (List.filter _ (nodes net)) as [|n ?] eqn:Hf; [cbn in Hcount; lia|].
      assert (In n (List.filter (in_layer (S (length (hiddenLayers cfg)))) (nodes net)))
        as [Hn Hl%Nat.eqb_eq]%filter_In by (rewrite Hf; by left).
      apply list_elem_of_fmap. exists n. by rewrite list_elem_of_In. }
  assert (Hin : Forall (fun n => type n = input <-> layer n = 0) (nodes net)).
  { apply Forall_forall. intros n Hn. destruct (Hlayers n Hn) as [_ ->].
    apply layerType_input. }
  assert (Hout : Forall (fun n => type n = output <->
                                  layer n = S (length (hiddenLayers cfg))) (nodes net)).
  { apply Forall_forall. intros n Hn. destruct (Hlayers n Hn) as [_ ->].
    rewrite layerType_output by lia. rewrite Hlen.
    by replace (S (S (length (hiddenLayers cfg))) - 1)
      with (S (length (hiddenLayers cfg))) by lia. }
  unfold well_formed. rewrite Hmax, Hcfg. repeat apply conj; try done.
  - apply Forall_forall. intros c Hc.
    assert (endpoints c ∈ map endpoints (connections net)) as Hp.
    { apply list_elem_of_fmap. by exists c. }
    rewrite Hcs in Hp. apply list_elem_of_In, in_flat_map in Hp as (l & _ & Hp).
    apply list_elem_of_In, elem_of_layer_pairs in Hp
      as (f & t & Hf & Ht & Hlf & Hlt & [= Hidf Hidt]).
    unfold layer_of. rewrite Hidf, Hidt, !find_id_self by done. cbn.
    split; [done|]. f_equal. lia.
  - transitivity (count_matching (in_layer 0) (nodes net)); [|by rewrite Hcount].
    apply count_matching_ext.
    eapply Forall_impl; [exact Hin|]. intros n Hn. unfold is_type, in_layer.
    destruct (Nat.eqb_spec (layer n) 0) as [H0|H0].
    + apply bool_decide_eq_true. by apply Hn.
    + apply bool_decide_eq_false. intros Hty. by apply H0, Hn.
  - rewrite <- nth_layerSizes_last, <- Hcount. apply count_matching_ext.
    eapply Forall_impl; [exact Hout|]. intros n Hn. unfold is_type, in_layer.
    destruct (Nat.eqb_spec (layer n) (S (length (hiddenLayers cfg)))) as [H0|H0].
    + apply bool_decide_eq_true. by apply Hn.
    + apply bool_decide_eq_false. intros Hty. by apply H0, Hn.
Qed.

Lemma call_well_formed net c : well_formed net -> well_formed (call net c).
Proof.
  destruct (call_frame net c);
    [by apply well_formed_backward_frame|by apply well_formed_forward_frame].
Qed.

(** Every network built with at least one output neuron is well formed,
    and stays so under [forward] and [backward]. *)
Lemma constructed_well_formed random cfg calls :
  0 < outputSize cfg -> well_formed (foldl call (initializeNetwork random cfg) calls).
Proof.
  intros HO. pose proof (initializeNetwork_well_formed random cfg HO) as Hwf.
  revert Hwf. generalize (initializeNetwork random cfg).
  induction calls as [|c calls IH]; intros net Hwf; cbn; [done|].
  by apply IH, call_well_formed.
Qed.

(** ** Instances on the example networks *)

Lemma forward_computes_activations_witness :
  well_formed initial_network /\
  exists outs net',
    forward [Num 1; Num 0] initial_network = (Normal outs, net') /\
    nodes net'
    = foldl (forward_layer_nodes (config initial_network) (connections initial_network))
            (set_input_nodes [Num 1; Num 0] (nodes initial_network))
            (seq 1 (Math_max_layers (map layer (nodes initial_network)))) /\
    (forall n, n ∈ nodes net' -> type n <> input ->
       exists sum,
         node_input (nodes net') (connections net') n = Some sum /\
         activation n = activate (config net') sum) /\
    map node_id (nodes net') = map node_id (nodes initial_network) /\
    outs = map activation (List.filter (is_type output) (nodes net')) /\
    length outs = outputSize (config initial_network).
Proof.
  assert (well_formed initial_network) as Hwf.
  { apply (bool_decide_unpack _). vm_compute. exact I. }
  split; [exact Hwf|].
  exact (forward_computes_activations initial_network [Num 1; Num 0] Hwf).
Defined.

Lemma forward_assigns_inputs_witness :
  well_formed initial_network /\
  exists outs net',
    forward (map Num [1%R]) initial_network = (Normal outs, net') /\
    map activation (List.filter (is_type input) (nodes net'))
    = map (fun i => Num (nth i [1%R] 0%R)) (seq 0 (inputSize (config initial_network))).
Proof.
  assert (well_formed initial_network) as Hwf.
  { apply (bool_decide_unpack _). vm_compute. exact I. }
  split; [exact Hwf|].
  exact (forward_assigns_inputs initial_network [1%R] Hwf).
Defined.

Lemma backward_computes_errors_witness :
  well_formed initial_network /\
  length [Num 1] = outputSize (config initial_network) /\
  exists net',
    backward [Num 1] initial_network = (Normal tt, net') /\
    map activation (nodes net') = map activation (nodes initial_network) /\
    nodes net'
    = foldl (backward_layer_nodes (config initial_network) (connections initial_network))
            (set_output_errors (config initial_network) [Num 1]
                               (nodes initial_network))
            (rev (seq 0 (Math_max_layers (map layer (nodes initial_network))))) /\
    (forall i n, List.filter (is_type output) (nodes net') !! i = Some n ->
       exists t, [Num 1] !! i = Some t /\
         error n = Some ((t - activation n)
                         * activateDerivative (config initial_network) (activation n))%js) /\
    (forall n, n ∈ nodes net' -> type n = hidden ->
       exists errorSum,
         error_sum (nodes net') (connections initial_network) n = Some errorSum /\
         error n = Some (activateDerivative (config initial_network) (activation n)
                         * errorSum)%js) /\
    Forall2 (connection_updated (config initial_network) (nodes net'))
            (connections initial_network) (connections net').
Proof.
  assert (well_formed initial_network) as Hwf.
  { apply (bool_decide_unpack _). vm_compute. exact I. }
  split; [exact Hwf|]. split; [reflexivity|].
  exact (backward_computes_errors initial_network [Num 1] Hwf eq_refl).
Defined.

Lemma backward_short_targets_witness :
  well_formed two_output_net /\
  length [Num 1] < outputSize (config two_output_net) /\
  exists net',
    backward [Num 1] two_output_net = (Normal tt, net') /\
    forall i n, List.filter (is_type output) (nodes net') !! i = Some n ->
      (i < length [Num 1] ->
         exists t, [Num 1] !! i = Some t /\
           error n = Some ((t - activation n)
                           * activateDerivative (config two_output_net)
                                                (activation n))%js) /\
      (length [Num 1] <= i ->
         error n = Some NaN /\
         forall c', c' ∈ connections net' -> toNodeId c' = node_id n ->
                    gradient c' = NaN /\ weight c' = NaN).
Proof.
  assert (well_formed two_output_net) as Hwf.
  { apply (bool_decide_unpack _). vm_compute. exact I. }
  assert (length [Num 1] < outputSize (config two_output_net)) as Hlen.
  { cbn. lia. }
  split; [exact Hwf|]. split; [exact Hlen|].
  exact (backward_short_targets two_output_net [Num 1] Hwf Hlen).
Defined.

(** * Further properties of the engine *)

(** ** Which entries of the vectors are read *)

Lemma forEach_from_ext {A} (l : list A) (f g : A -> nat -> Eff unit) :
  forall i s,
    (forall a j s', i <= j < i + length l -> f a j s' = g a j s') ->
    forEach_from i l f s = forEach_from i l g s.
Proof.
  induction l as [|a l IH]; intros i s H; cbn; [done|].
  unfold bind. rewrite (H a i s) by (cbn; lia).
  destruct (g a i s) as [[[]|] s']; [|done].
  apply IH. intros b j s'' Hj. apply H. cbn. lia.
Qed.

Lemma length_refs_from {A} (p : A -> bool) i (l : list A) :
  length (refs_from p i l) = count_matching p l.
Proof.
  unfold count_matching. revert i. induction l as [|a l IH]; intros i; cbn; [done|].
  destruct (p a); cbn; by rewrite IH.
Qed.

(** X1. [forward] reads the input vector only at the indices below the
    number of input neurons, and only through [inputs[i] || 0]: two vectors
    that agree there (entries beyond the input layer, missing entries
    against zeros, [NaN] against [0]) give the same result and leave the
    same network, on every network. *)
Theorem forward_reads_inputs (net : NeuralNetwork) (inputs inputs' : list number) :
  (forall i, i < count_matching (is_type input) (nodes net) ->
             or_zero (inputs !! i) = or_zero (inputs' !! i)) ->
  forward inputs net = forward inputs' net.
Proof.
  intros H. unfold forward, bind at 1, filter_nodes, gets at 1.
  unfold bind at 1. unfold bind at 4, gets at 4. unfold bind at 4.
  unfold forEach at 1 4.
  rewrite (forEach_from_ext _ _
             (fun node index =>
                update_node (set_activation (or_zero (inputs' !! index))) node)); [done|].
  intros a j s' Hj. rewrite length_refs_from in Hj. rewrite H by lia. done.
Qed.

Lemma forward_reads_inputs_witness :
  (forall i, i < count_matching (is_type input) (nodes initial_network) ->
             or_zero ([Num 1] !! i) = or_zero ([Num 1; NaN; Num 7] !! i)) /\
  forward [Num 1] initial_network = forward [Num 1; NaN; Num 7] initial_network.
Proof.
  assert (forall i, i < count_matching (is_type input) (nodes initial_network) ->
                    or_zero ([Num 1] !! i) = or_zero ([Num 1; NaN; Num 7] !! i)) as H.
  { intros i Hi. vm_compute in Hi. destruct i as [|[|i]]; [reflexivity|reflexivity|lia]. }
  split; [exact H|].
  exact (forward_reads_inputs initial_network [Num 1] [Num 1; NaN; Num 7] H).
Defined.

(** X2. [backward] reads the target vector only at the indices below the
    number of output neurons: entries beyond the output layer are ignored,
    on every network. *)
Theorem backward_ignores_extra_targets (net : NeuralNetwork)
    (targets extra : list number) :
  count_matching (is_type output) (nodes net) <= length targets ->
  backward (targets ++ extra) net = backward targets net.
Proof.
  intros H. unfold backward, bind at 1, filter_nodes, gets at 1.
  unfold bind at 1. unfold bind at 5, gets at 5. unfold bind at 5.
  unfold forEach at 1 5.
  rewrite (forEach_from_ext _ _ (backward_output targets)); [done|].
  intros a j s' Hj. rewrite length_refs_from in Hj.
  unfold backward_output. by rewrite lookup_app_l by lia.
Qed.

Lemma backward_ignores_extra_targets_witness :
  count_matching (is_type output) (nodes initial_network) <= length [Num 1] /\
  backward ([Num 1] ++ [Num 3; NaN]) initial_network = backward [Num 1] initial_network.
Proof.
  assert (count_matching (is_type output) (nodes initial_network) <= length [Num 1]) as H.
  { vm_compute. lia. }
  split; [exact H|].
  exact (backward_ignores_extra_targets initial_network [Num 1] [Num 3; NaN] H).
Defined.

(** ** The forward pass forgets earlier activations *)

Lemma set_activation_same v a b :
  same_but_activation a b -> set_activation v b = set_activation v a.
Proof.
  intros [Hst He]. destruct a, b. unfold node_static in Hst. cbn in *.
  unfold set_activation. cbn. by simplify_eq.
Qed.

Lemma Forall2_with_elem_of {A B} (P : A -> B -> Prop) (l : list A) (k : list B) :
  Forall2 P l k -> Forall2 (fun x y => P x y /\ x ∈ l /\ y ∈ k) l k.
Proof.
  intros H. apply Forall2_same_length_lookup. split; [by eapply Forall2_length|].
  intros i x y Hx Hy. split; [by eapply Forall2_lookup_lr|].
  split; by eapply list_elem_of_lookup_2.
Qed.

Lemma same_but_activation_fields a b :
  same_but_activation a b ->
  node_id b = node_id a /\ layer b = layer a /\ type b = type a /\ bias b = bias a.
Proof. unfold same_but_activation, node_static. intros [[= ? ? ? ? ? ?] _]. auto. Qed.

Lemma set_input_nodes_agree (inputs : list number) ns ns' m0 :
  Forall (fun n => type n = input <-> layer n = 0) ns ->
  Forall2 same_but_activation ns ns' ->
  Forall2 (fun a b => same_but_activation a b /\ (layer a <= 0 -> b = a))
          (map_matching (is_type input)
             (fun index => set_activation (or_zero (inputs !! index))) m0 ns)
          (map_matching (is_type input)
             (fun index => set_activation (or_zero (inputs !! index))) m0 ns').
Proof.
  intros Hin H. revert m0.
  induction H as [|a b ns ns' Hab _ IH]; intros m0; cbn; [constructor|].
  apply Forall_cons in Hin as [Ha Hin].
  assert (is_type input b = is_type input a) as ->.
  { unfold is_type. by destruct (same_but_activation_fields a b Hab) as (_ & _ & -> & _). }
  destruct (is_type input a) eqn:Hty; constructor; auto.
  - rewrite (set_activation_same _ a b Hab). split; [|done].
    split; [done|]. by destruct Hab.
  - split; [done|]. intros Hl. unfold is_type in Hty.
    apply bool_decide_eq_false in Hty. exfalso. apply Hty, Ha. lia.
Qed.

Lemma forward_layer_nodes_agree cfg cs k A B :
  well_formed (mkNet A cs cfg) ->
  Forall2 (fun a b => same_but_activation a b /\ (layer a <= k -> b = a)) A B ->
  Forall2 (fun a b => same_but_activation a b /\ (layer a <= S k -> b = a))
          (forward_layer_nodes cfg cs A (S k)) (forward_layer_nodes cfg cs B (S k)).
Proof.
  intros Hwf HAB. rewrite !forward_layer_nodes_map. apply Forall2_fmap.
  eapply Forall2_impl; [apply Forall2_with_elem_of, HAB|].
  intros a b ([Hab Heq] & Ha & _). cbn.
  destruct (same_but_activation_fields a b Hab) as (Hid & Hl & _ & Hbias).
  unfold in_layer. rewrite Hl.
  destruct (Nat.eqb_spec (layer a) (S k)) as [HS|HS].
  - assert (node_input B cs b = node_input A cs a) as Hin.
    { rewrite (node_input_static B cs a b).
      - unfold node_input. apply (gather_agree (fun m => layer m <= k)).
        + eapply Forall2_impl; [exact HAB|]. intros x y [Hst Hxy].
          split; [by apply same_but_activation_fields|].
          intros Hx. by rewrite (Hxy Hx).
        + intros c m Hc Hm.
          destruct (incoming_sources (mkNet A cs cfg) a c Hwf Ha Hc) as (m' & Hm' & Hlm).
          cbn in Hm'. rewrite Hm in Hm'. simplify_eq. lia.
      - done.
      - done. }
    unfold forward_update. rewrite Hin.
    destruct (node_input A cs a) as [sum|] eqn:HA.
    + rewrite (set_activation_same _ a b Hab). split; [|done].
      split; [done|]. by destruct Hab.
    + destruct (node_input_total _ a Hwf Ha) as [sum Hsum].
      cbn [nodes connections] in Hsum. congruence.
  - split; [done|]. intros Hle. apply Heq. lia.
Qed.

Lemma forward_layers_agree cfg cs k :
  forall A B,
    well_formed (mkNet A cs cfg) ->
    Forall2 (fun a b => same_but_activation a b /\ (layer a <= 0 -> b = a)) A B ->
    Forall2 (fun a b => same_but_activation a b /\ (layer a <= k -> b = a))
            (foldl (forward_layer_nodes cfg cs) A (seq 1 k))
            (foldl (forward_layer_nodes cfg cs) B (seq 1 k)).
Proof.
  induction k as [|k IH]; intros A B Hwf HAB; [done|].
  rewrite seq_S, !foldl_snoc. cbn [Nat.add].
  apply forward_layer_nodes_agree; [|by apply IH].
  eapply well_formed_forward_frame; [|done]. by apply forward_layers_frame.
Qed.

Lemma forward_nodes_forget cfg cs inputs ns ns' :
  well_formed (mkNet ns cs cfg) ->
  Forall2 same_but_activation ns ns' ->
  forward_nodes cfg cs inputs ns' = forward_nodes cfg cs inputs ns.
Proof.
  intros Hwf H. unfold forward_nodes. rewrite !forward_nodes_layers.
  assert (map layer ns' = map layer ns) as ->.
  { eapply Forall2_map_eq; [|exact H]. intros a a' Hst.
    by apply same_but_activation_fields. }
  set (L := Math_max_layers (map layer ns)).
  pose proof (forward_layers_agree cfg cs L (set_input_nodes inputs ns)
                (set_input_nodes inputs ns')) as Hag.
  assert (well_formed (mkNet (set_input_nodes inputs ns) cs cfg)) as Hwf1.
  { eapply well_formed_forward_frame; [apply set_inputs_frame|done]. }
  specialize (Hag Hwf1).
  destruct Hwf as (_ & _ & Hin & _). cbn [nodes] in Hin.
  specialize (Hag (set_input_nodes_agree inputs ns ns' 0 Hin H)).
  symmetry. apply list_eq_Forall2.
  eapply Forall2_impl; [apply Forall2_with_elem_of, Hag|].
  intros a b ([_ Heq] & Ha & _). symmetry. apply Heq.
  apply Math_max_layers_ge.
  pose proof (forward_layers_frame cs cfg (seq 1 L) _ Hwf1) as (Hfr & _).
  cbn [nodes] in Hfr.
  rewrite <- (forward_nodes_layers inputs ns).
  erewrite <- (Forall2_map_eq layer); [| |exact Hfr].
  - apply list_elem_of_fmap. by exists a.
  - intros x x' Hst. by apply same_but_activation_fields.
Qed.

(** X3. On a well-formed network the result of [forward] and the network
    it leaves do not depend on the activations present before the call: a
    network that differs from it only in its activations gives the same;
    in particular a second [forward] with the same inputs returns the same
    outputs and changes nothing. *)
Theorem forward_forgets_activations (net : NeuralNetwork) (inputs : list number) :
  well_formed net ->
  (forall net', forward_frame net net' -> forward inputs net' = forward inputs net) /\
  forward inputs (forward inputs net).2 = forward inputs net.
Proof.
  intros Hwf.
  assert (forall net', forward_frame net net' ->
                       forward inputs net' = forward inputs net) as H.
  { intros net' Hfr. pose proof (well_formed_forward_frame _ _ Hfr Hwf) as Hwf'.
    destruct net as [ns cs cfg], net' as [ns' cs' cfg'].
    destruct Hfr as (Hns & Hcs & Hcfg). cbn in Hns, Hcs, Hcfg.
    apply list_eq_Forall2 in Hcs. subst.
    rewrite !forward_run by done.
    by rewrite (forward_nodes_forget _ _ inputs ns ns'). }
  split; [exact H|]. apply H, forward_preserves_frame.
Qed.

Lemma forward_forgets_activations_witness :
  well_formed initial_network /\
  (forall net', forward_frame initial_network net' ->
                forward [Num 1; Num 0] net' = forward [Num 1; Num 0] initial_network) /\
  forward [Num 1; Num 0] (forward [Num 1; Num 0] initial_network).2
  = forward [Num 1; Num 0] initial_network.
Proof.
  assert (well_formed initial_network) as Hwf.
  { apply (bool_decide_unpack _). vm_compute. exact I. }
  split; [exact Hwf|].
  exact (forward_forgets_activations initial_network [Num 1; Num 0] Hwf).
Defined.

(** ** Sums over connections, property by property *)

Lemma is_real_Num a : is_real a <-> exists r, a = Num r.
Proof. destruct a; cbn; split; try done; eauto. by intros [r Hr]. Qed.

Lemma activateDerivative_real cfg x : is_real x -> is_real (activateDerivative cfg x).
Proof.
  intros [r ->]%is_real_Num. unfold activateDerivative.
  repeat (destruct (String.eqb _ _)); cbn; try done. by destruct (Rlt_dec 0 r).
Qed.

(** A property of the accumulator that every step keeps holds of the sum. *)
Lemma gather_closed (Q : number -> Prop) read key ns cs acc v :
  Q acc ->
  (forall c m x, c ∈ cs ->
     List.find (fun n => String.eqb (node_id n) (key c)) ns = Some m ->
     Q x -> Q (x + read m * weight c)%js) ->
  gather read key ns cs acc = Some v -> Q v.
Proof.
  revert acc. induction cs as [|c cs IH]; intros acc Hacc Hstep; cbn.
  - by intros [= <-].
  - destruct (find _ ns) as [m|] eqn:Hm; [|done]. apply IH.
    + apply (Hstep c m); [by left|done|done].
    + intros c' m' x Hc'. apply Hstep. by right.
Qed.

Lemma forward_call net v :
  well_formed net ->
  forward v net = (Normal (predictions (call net (Forward v))), call net (Forward v)).
Proof.
  destruct net as [ns cs cfg]. intros Hwf. unfold call. by rewrite forward_run.
Qed.

(** ** Errors, property by property *)

Lemma same_but_error_fields a b :
  same_but_error a b ->
  node_id b = node_id a /\ layer b = layer a /\ type b = type a /\
  bias b = bias a /\ activation b = activation a.
Proof. unfold same_but_error, node_static. intros [[= ? ? ? ? ? ?] ?]. auto 6. Qed.

Lemma Forall2_filter_same {A} (p : A -> bool) (F : A -> A -> Prop) (l l' : list A) :
  (forall a a', F a a' -> p a' = p a) -> Forall2 F l l' ->
  Forall2 F (List.filter p l) (List.filter p l').
Proof.
  intros Hp. induction 1 as [|a a' l l' Ha _ IH]; cbn; [done|].
  rewrite (Hp _ _ Ha). destruct (p a); [by constructor|done].
Qed.

(** A property [Qe] of the output errors that the weighted sums ([Qs]) and
    the multiplication by the derivative carry over holds of every error
    [backward] stores. *)
Lemma backward_errors_closed (Qe Qs : number -> Prop) cfg cs ns' :
  well_formed (mkNet ns' cs cfg) ->
  (forall n, n ∈ ns' -> type n = output -> exists e, error n = Some e /\ Qe e) ->
  (forall n, n ∈ ns' -> type n = hidden -> error_ok cfg ns' cs n) ->
  Qs (Num 0) ->
  (forall c x e, c ∈ cs -> Qs x -> Qe e -> Qs (x + e * weight c)%js) ->
  (forall n x, n ∈ ns' -> Qs x -> Qe (x * activateDerivative cfg (activation n))%js) ->
  forall n, n ∈ ns' -> type n <> input -> exists e, error n = Some e /\ Qe e.
Proof.
  intros Hwf Hout Hhid H0 Hstep Hfin.
  pose proof Hwf as (_ & _ & Hin & Hlast & _). cbn [nodes] in Hin, Hlast.
  rewrite Forall_forall in Hin. rewrite Forall_forall in Hlast.
  set (L := Math_max_layers (map layer ns')) in *.
  enough (forall k n, n ∈ ns' -> type n <> input -> L - layer n <= k ->
            exists e, error n = Some e /\ Qe e) as H.
  { intros n Hn Hty. by apply (H (L - layer n)). }
  induction k as [|k IH]; intros n Hn Hty Hk.
  - assert (layer n <= L) as Hle.
    { apply Math_max_layers_ge, list_elem_of_fmap. by exists n. }
    apply Hout; [done|]. apply Hlast; [done|lia].
  - destruct (type n) eqn:Htype; [done| |by apply Hout].
    destruct (Hhid n Hn Htype) as (es & Hes & ->). eexists. split; [done|].
    apply Hfin; [done|]. revert Hes. unfold error_sum. apply gather_closed; [done|].
    intros c m x Hc Hm Hx.
    destruct (outgoing_destinations (mkNet ns' cs cfg) n c Hwf Hn Hc) as (m' & Hm' & Hl).
    cbn [nodes] in Hm'. rewrite Hm in Hm'. injection Hm' as <-.
    assert (m ∈ ns') as Hmin by (by apply find_id_Some in Hm as [? _]).
    destruct (IH m) as (e & He & HQ); [done| |lia|].
    + intros Hmi%(Hin m Hmin). lia.
    + rewrite He. cbn [ToNumber]. apply Hstep; [|done|done].
      by apply list_elem_of_In, filter_In, proj1, list_elem_of_In in Hc.
Qed.

(** The gradient and the weight [backward] writes to a connection. *)
Lemma connection_update_fields (Qe : number -> Prop) cfg cs ns' c :
  well_formed (mkNet ns' cs cfg) ->
  (forall n, n ∈ ns' -> type n <> input -> exists e, error n = Some e /\ Qe e) ->
  c ∈ cs ->
  exists src e,
    src ∈ ns' /\ Qe e /\
    gradient (connection_update cfg ns' c) = (e * activation src)%js /\
    weight (connection_update cfg ns' c)
    = (weight c + learningRate cfg * (e * activation src))%js.
Proof.
  intros Hwf Herr Hc.
  destruct (connection_endpoints _ c Hwf Hc) as (src & dst & Hsrc & Hdst & _ & Hty).
  cbn [nodes] in *.
  destruct (Herr dst) as (e & He & HQ); [by apply find_id_Some in Hdst as [? _]|done|].
  exists src, e. unfold connection_update. rewrite Hsrc, Hdst, He.
  split; [by apply find_id_Some in Hsrc as [? _]|]. by split.
Qed.

Lemma backward_nodes_activations cfg cs ns targets (P : number -> Prop) :
  well_formed (mkNet ns cs cfg) ->
  Forall (fun n => P (activation n)) ns ->
  Forall (fun n => P (activation n)) (backward_nodes cfg cs targets ns).
Proof.
  intros Hwf Hact.
  destruct (backward_nodes_frame targets ns cs cfg Hwf) as (Hns & _).
  cbn [nodes] in Hns. eapply Forall2_Forall_r; [exact Hns|].
  eapply Forall_impl; [exact Hact|]. intros a Ha b Hab.
  by destruct (same_but_error_fields a b Hab) as (_ & _ & _ & _ & ->).
Qed.

Lemma backward_call net v :
  well_formed net -> backward v net = (Normal tt, call net (Backward v)).
Proof.
  destruct net as [ns cs cfg]. intros Hwf. unfold call. by rewrite backward_run.
Qed.

(** ** A sample the network already fits *)

Lemma num_zero_mul_real a : is_real a -> (Num 0 * a)%js = Num 0.
Proof. intros [r ->]%is_real_Num. cbn. f_equal. ring. Qed.

Lemma num_mul_zero_real a : is_real a -> (a * Num 0)%js = Num 0.
Proof. intros [r ->]%is_real_Num. cbn. f_equal. ring. Qed.

Lemma num_add_zero_real a : is_real a -> (a + Num 0)%js = a.
Proof. intros [r ->]%is_real_Num. cbn. f_equal. ring. Qed.

Lemma num_sub_diag_real a : is_real a -> (a - a)%js = Num 0.
Proof. intros [r ->]%is_real_Num. cbn. f_equal. ring. Qed.

Lemma predictions_backward_nodes cfg cs ns targets :
  well_formed (mkNet ns cs cfg) ->
  map activation (List.filter (is_type output) (backward_nodes cfg cs targets ns))
  = map activation (List.filter (is_type output) ns).
Proof.
  intros Hwf. destruct (backward_nodes_frame targets ns cs cfg Hwf) as (Hns & _).
  cbn [nodes] in Hns. apply (Forall2_map_eq activation same_but_error).
  - intros a b Hab. by destruct (same_but_error_fields a b Hab) as (_ & _ & _ & _ & ->).
  - apply Forall2_filter_same; [|done]. intros a b Hab. unfold is_type.
    by destruct (same_but_error_fields a b Hab) as (_ & _ & -> & _).
Qed.

Lemma backward_nodes_fit cfg cs ns :
  well_formed (mkNet ns cs cfg) ->
  Forall (fun c => is_real (weight c)) cs ->
  Forall (fun n => is_real (activation n)) ns ->
  forall n, n ∈ backward_nodes cfg cs (predictions (mkNet ns cs cfg)) ns ->
    type n <> input -> exists e, error n = Some e /\ e = Num 0.
Proof.
  intros Hwf Hw Hact. set (targets := predictions (mkNet ns cs cfg)).
  pose proof (backward_nodes_activations cfg cs ns targets _ Hwf Hact) as Hact'.
  pose proof (predictions_backward_nodes cfg cs ns targets Hwf) as Hpred.
  destruct (backward_result cfg cs ns targets Hwf) as (Hwf' & _ & Hout & Hhid & _).
  set (ns' := backward_nodes cfg cs targets ns) in *. cbn zeta in *.
  rewrite Forall_forall in Hact'. rewrite Forall_forall in Hw.
  apply (backward_errors_closed (fun e => e = Num 0) (fun x => x = Num 0) cfg cs ns');
    try done.
  - intros n Hn Hty.
    assert (n ∈ List.filter (is_type output) ns') as Hin.
    { apply list_elem_of_In, filter_In. split; [by apply list_elem_of_In|].
      by apply bool_decide_eq_true. }
    apply list_elem_of_lookup in Hin as [i Hi]. rewrite (Hout i n Hi).
    eexists. split; [done|].
    assert (targets !! i = Some (activation n)) as Hti.
    { unfold targets, predictions. cbn [nodes]. rewrite <- Hpred.
      change (map activation ?l) with (activation <$> l).
      by rewrite list_lookup_fmap, Hi. }
    unfold output_error. rewrite Hti. cbn [ToNumber].
    rewrite num_sub_diag_real by auto.
    apply num_zero_mul_real, activateDerivative_real. auto.
  - intros c x e Hc -> ->. rewrite num_zero_mul_real by auto.
    exact (num_add_zero_real (Num 0) I).
  - intros n x Hn ->. apply num_zero_mul_real, activateDerivative_real. auto.
Qed.

(** X6. On a well-formed network whose weights, activations and learning
    rate are real numbers, [backward] called with the current activations
    of the output nodes as targets changes no weight: every error it stores
    and every gradient is [0]. *)
Theorem backward_fitted_sample (net : NeuralNetwork) :
  well_formed net -> real_parameters net -> real_activations net ->
  is_real (learningRate (config net)) ->
  exists net',
    backward (predictions net) net = (Normal tt, net') /\
    map weight (connections net') = map weight (connections net) /\
    Forall (fun c => gradient c = Num 0) (connections net') /\
    forall n, n ∈ nodes net' -> type n <> input -> error n = Some (Num 0).
Proof.
  destruct net as [ns cs cfg]. cbn [config].
  intros Hwf [_ Hw] Hact Hlr. cbn [nodes connections] in Hw.
  eexists. split; [by apply backward_run|]. cbn [nodes connections].
  pose proof (backward_nodes_fit cfg cs ns Hwf Hw Hact) as Herr.
  set (targets := predictions (mkNet ns cs cfg)) in *.
  pose proof (backward_nodes_activations cfg cs ns targets _ Hwf Hact) as Hact'.
  destruct (backward_result cfg cs ns targets Hwf) as (Hwf' & _).
  set (ns' := backward_nodes cfg cs targets ns) in *. cbn zeta in *.
  assert (Hcs : forall c, c ∈ cs ->
            gradient (connection_update cfg ns' c) = Num 0 /\
            weight (connection_update cfg ns' c) = weight c).
  { intros c Hc.
    destruct (connection_update_fields _ cfg cs ns' c Hwf' Herr Hc)
      as (src & e & Hsrc & -> & -> & ->).
    rewrite Forall_forall in Hact'. rewrite Forall_forall in Hw.
    rewrite num_zero_mul_real by auto. rewrite num_mul_zero_real by done.
    split; [done|]. apply num_add_zero_real. auto. }
  split; [|split].
  - rewrite map_map. apply map_ext_in. intros c Hc%list_elem_of_In. by apply Hcs.
  - apply Forall_fmap, Forall_forall. intros c Hc. by apply Hcs.
  - intros n Hn Hty. by destruct (Herr n Hn Hty) as (e & -> & ->).
Qed.

Lemma backward_fitted_sample_witness :
  exists net',
    backward (predictions initial_network) initial_network = (Normal tt, net') /\
    map weight (connections net') = map weight (connections initial_network) /\
    Forall (fun c => gradient c = Num 0) (connections net') /\
    forall n, n ∈ nodes net' -> type n <> input -> error n = Some (Num 0).
Proof.
  apply (backward_fitted_sample initial_network).
  - apply (bool_decide_unpack _). vm_compute. exact I.
  - apply (bool_decide_unpack _). vm_compute. exact I.
  - apply (bool_decide_unpack _). vm_compute. exact I.
  - exact I.
Defined.

(** ** Constructed networks never fail *)

Lemma length_predictions_forward_nodes cfg cs ns inputs :
  well_formed (mkNet ns cs cfg) ->
  length (List.filter (is_type output) (forward_nodes cfg cs inputs ns)) = outputSize cfg.
Proof.
  intros Hwf.
  pose proof (forward_nodes_frame inputs ns cs cfg Hwf) as Hframe.
  by destruct (well_formed_forward_frame _ _ Hframe Hwf) as (_ & _ & _ & _ & _ & Hc).
Qed.

(** X7. A network built by the constructor for a configuration with at least
    one output node never raises a [TypeError]: after any sequence of
    [forward] and [backward] calls, with any arguments, [forward] completes
    and returns exactly [outputSize] values, and [backward] completes. *)
Theorem constructed_calls_complete (random : nat -> R) (cfg : NetworkConfig)
    (calls : list Call) (v : list number) :
  0 < outputSize cfg ->
  let net := foldl call (initializeNetwork random cfg) calls in
  (exists outs, (forward v net).1 = Normal outs /\ length outs = outputSize cfg) /\
  (backward v net).1 = Normal tt.
Proof.
  intros HO net. pose proof (constructed_well_formed random cfg calls HO) as Hwf.
  fold net in Hwf.
  assert (config net = cfg) as Hcfg.
  { unfold net. clear Hwf.
    assert (config (initializeNetwork random cfg) = cfg) as H0 by done.
    revert H0. generalize (initializeNetwork random cfg).
    induction calls as [|c calls IH]; intros s Hs; cbn [foldl]; [done|].
    apply IH. destruct (call_frame s c) as [(_ & _ & ->)|(_ & _ & ->)]; done. }
  destruct net as [ns cs cfg']. cbn [config] in Hcfg. subst cfg'. split.
  - rewrite forward_run by done. eexists. split; [done|].
    rewrite length_map. by apply length_predictions_forward_nodes.
  - by rewrite backward_run.
Qed.

Lemma constructed_calls_complete_witness :
  (exists outs,
     (forward [NaN]
        (foldl call (initializeNetwork (fun _ => 0%R) initial_config)
               [Backward []; Forward [Num 1]])).1 = Normal outs /\
     length outs = 1) /\
  (backward [NaN]
     (foldl call (initializeNetwork (fun _ => 0%R) initial_config)
            [Backward []; Forward [Num 1]])).1 = Normal tt.
Proof.
  apply (constructed_calls_complete (fun _ => 0%R) initial_config
           [Backward []; Forward [Num 1]] [NaN]).
  vm_compute. lia.
Defined.

(** ** The builder in closed form: connections *)

Section Wired.
Variable random : nat -> R.
Variable draws : nat.

Lemma push_connection_wired st ps fromNode toNode :
  wired random draws st ps ->
  wired random draws (push_connection random st fromNode toNode)
        (ps ++ [(node_id fromNode, node_id toNode)]).
Proof.
  intros [Hc Hd]. split; cbn.
  - rewrite imap_app, Hc. cbn. unfold new_connection. cbn.
    by rewrite Hd, Nat.add_0_r.
  - rewrite length_app. cbn. lia.
Qed.

Lemma connect_node_wired fromNode nextLayerNodes :
  forall st ps,
    wired random draws st ps ->
    wired random draws
          (foldl (fun st toNode => push_connection random st fromNode toNode)
                 st nextLayerNodes)
          (ps ++ map (fun toNode => (node_id fromNode, node_id toNode)) nextLayerNodes).
Proof.
  induction nextLayerNodes as [|t rest IH]; intros st ps Hw; cbn.
  - by rewrite app_nil_r.
  - rewrite cons_middle, app_assoc. by apply IH, push_connection_wired.
Qed.

Lemma connect_nodes_wired currentLayerNodes nextLayerNodes :
  forall st ps,
    wired random draws st ps ->
    wired random draws
          (foldl (fun st fromNode =>
                    foldl (fun st toNode => push_connection random st fromNode toNode)
                          st nextLayerNodes)
                 st currentLayerNodes)
          (ps ++ flat_map (fun fromNode =>
                             map (fun toNode => (node_id fromNode, node_id toNode))
                                 nextLayerNodes)
                          currentLayerNodes).
Proof.
  induction currentLayerNodes as [|f cur IH]; intros st ps Hw; cbn.
  - by rewrite app_nil_r.
  - rewrite app_assoc. by apply IH, connect_node_wired.
Qed.

Lemma connect_layer_wired st l ps :
  wired random draws st ps ->
  wired random draws (connect_layer random st l) (ps ++ layer_pairs (b_nodes st) l).
Proof. apply connect_nodes_wired. Qed.

Lemma connect_layers_wired ls :
  forall st ps,
    wired random draws st ps ->
    wired random draws (foldl (connect_layer random) st ls)
          (ps ++ flat_map (layer_pairs (b_nodes st)) ls).
Proof.
  induction ls as [|l ls IH]; intros st ps Hw; cbn.
  - by rewrite app_nil_r.
  - rewrite app_assoc. destruct (connect_layer_spec random st l) as [Hn _].
    specialize (IH (connect_layer random st l) _ (connect_layer_wired st l ps Hw)).
    by rewrite Hn in IH.
Qed.
End Wired.

Lemma initializeNetwork_connections (random : nat -> R) (cfg : NetworkConfig) :
  let sizes := layerSizes cfg in
  let net := initializeNetwork random cfg in
  connections net
  = imap (new_connection random (sum_list sizes))
         (flat_map (layer_pairs (nodes net)) (seq 0 (length sizes - 1))).
Proof.
  intros sizes net.
  unfold net, initializeNetwork. fold sizes. cbn zeta. cbn [nodes connections].
  set (st := create_layers random (length sizes) sizes 0 (mkBuilder [] [] 0 0)).
  assert (wired random (sum_list sizes) st []) as Hw.
  { unfold st. rewrite create_layers_spec. by split. }
  destruct (connect_layers_spec random (seq 0 (length sizes - 1)) st) as [-> _].
  by destruct (connect_layers_wired random _ (seq 0 (length sizes - 1)) st [] Hw).
Qed.

(** X8. The network [initializeNetwork] builds, in closed form: the nodes
    layer by layer, numbered in creation order, with the bias drawn at
    their creation; then one connection for every pair of a node and a node
    of the next layer, source layer by source layer, source by source,
    named after its endpoints, with gradient [0] and the weight drawn at
    its creation, the draws continuing those of the nodes. *)
Theorem initializeNetwork_closed_form (random : nat -> R) (cfg : NetworkConfig) :
  let sizes := layerSizes cfg in
  let net := initializeNetwork random cfg in
  nodes net = built_nodes random (length sizes) sizes 0 0 0 /\
  connections net
  = imap (new_connection random (sum_list sizes))
         (flat_map (layer_pairs (nodes net)) (seq 0 (length sizes - 1))) /\
  config net = cfg.
Proof.
  intros sizes net.
  destruct (initializeNetwork_spec random cfg) as (Hns & _ & Hcfg).
  split; [done|]. split; [|done]. apply initializeNetwork_connections.
Qed.

(** ** Initial values *)

Lemma built_nodes_Forall (P : NetworkNode -> Prop) random len sizes :
  (forall layerIndex nodeId draws i, P (new_node random len layerIndex nodeId draws i)) ->
  forall layerIndex nodeId draws,
    Forall P (built_nodes random len sizes layerIndex nodeId draws).
Proof.
  intros HP. induction sizes as [|size rest IH]; intros; cbn; [done|].
  apply Forall_app. split; [|apply IH].
  apply Forall_forall. intros n (i & -> & _)%list_elem_of_fmap. apply HP.
Qed.

Lemma imap_Forall {A B} (P : B -> Prop) (f : nat -> A -> B) (l : list A) :
  (forall k a, l !! k = Some a -> P (f k a)) -> Forall P (imap f l).
Proof.
  intros HP. apply Forall_forall. intros b [k Hk]%list_elem_of_lookup.
  rewrite list_lookup_imap in Hk. destruct (l !! k) as [a|] eqn:Ha; [|done].
  injection Hk as <-. by apply HP.
Qed.

Lemma draw_range (r : R) :
  (0 <= r < 1)%R ->
  exists v, (Num r * Num 2 - Num 1)%js = Num v /\ (-1 <= v < 1)%R.
Proof. intros Hr. eexists. split; [done|]. lra. Qed.

Lemma initializeNetwork_activations random cfg :
  Forall (fun n => activation n = Num 0) (nodes (initializeNetwork random cfg)).
Proof.
  destruct (initializeNetwork_spec random cfg) as (Hns & _). cbn zeta in Hns.
  rewrite Hns. by apply built_nodes_Forall.
Qed.

(** X9. When [Math.random] returns numbers of [[0, 1)], the network
    [initializeNetwork] builds has every activation and every gradient [0],
    no error stored on any node, and every bias and every weight a real
    number of [[-1, 1)]. *)
Theorem initializeNetwork_initial_values (random : nat -> R) (cfg : NetworkConfig) :
  (forall k, (0 <= random k < 1)%R) ->
  let net := initializeNetwork random cfg in
  Forall (fun n => activation n = Num 0 /\ error n = None /\
                   exists b, bias n = Num b /\ (-1 <= b < 1)%R) (nodes net) /\
  Forall (fun c => gradient c = Num 0 /\
                   exists w, weight c = Num w /\ (-1 <= w < 1)%R) (connections net).
Proof.
  intros Hr net. split.
  - destruct (initializeNetwork_spec random cfg) as (Hns & _). fold net in Hns.
    cbn zeta in Hns. rewrite Hns. apply built_nodes_Forall. intros.
    split; [done|]. split; [done|]. apply draw_range, Hr.
  - unfold net. rewrite initializeNetwork_connections. apply imap_Forall.
    intros k p _. split; [done|]. apply draw_range, Hr.
Qed.

Lemma initializeNetwork_initial_values_witness :
  Forall (fun n => activation n = Num 0 /\ error n = None /\
                   exists b, bias n = Num b /\ (-1 <= b < 1)%R)
         (nodes initial_network) /\
  Forall (fun c => gradient c = Num 0 /\
                   exists w, weight c = Num w /\ (-1 <= w < 1)%R)
         (connections initial_network).
Proof.
  apply (initializeNetwork_initial_values (fun _ => (1 / 2)%R) initial_config).
  intros k. lra.
Defined.

(** ** Identifiers are unique *)

Lemma flat_map_bind {A B} (f : A -> list B) (l : list A) : flat_map f l = l ≫= f.
Proof. induction l as [|a l IH]; cbn; [done|]. by rewrite IH. Qed.

Lemma string_of_uint_dashless d : dashless (NilEmpty.string_of_uint d).
Proof. induction d; cbn; (split; [discriminate|done]) || done. Qed.

Ltac append_steps :=
  repeat first
    [ progress change (String.append EmptyString ?x) with x
    | progress change (String.append (String ?a ?s) ?x)
        with (String a (String.append s x)) ].

Lemma append_dash_inj s1 s2 r1 r2 :
  dashless s1 -> dashless s2 ->
  s1 +:+ "-" +:+ r1 = s2 +:+ "-" +:+ r2 -> s1 = s2 /\ r1 = r2.
Proof.
  revert s2. induction s1 as [|a s1 IH]; intros [|b s2]; cbn; append_steps.
  - by intros _ _ [= ->].
  - intros _ [Hb _] [= <- _]. done.
  - intros [Ha _] _ [= -> _]. done.
  - intros [_ H1] [_ H2] [= -> Heq]. destruct (IH s2 H1 H2 Heq) as [-> ->]. done.
Qed.

Lemma connection_name_inj i j i' j' :
  connection_name ("node-" +:+ nat_to_string i, "node-" +:+ nat_to_string j)
  = connection_name ("node-" +:+ nat_to_string i', "node-" +:+ nat_to_string j') ->
  i = i' /\ j = j'.
Proof.
  unfold connection_name, nat_to_string. cbn. append_steps. intros [= Heq].
  apply append_dash_inj in Heq as [Hi Hj]; try apply string_of_uint_dashless.
  revert Hj. append_steps. intros [= Hj].
  split; by apply nat_to_string_inj.
Qed.

Lemma NoDup_List_filter {A} (p : A -> bool) (l : list A) :
  NoDup l -> NoDup (List.filter p l).
Proof.
  induction 1 as [|x l Hx _ IH]; cbn; [constructor|].
  destruct (p x); [|done]. constructor; [|done].
  intros [Hin _]%list_elem_of_In%filter_In. by apply Hx, list_elem_of_In.
Qed.

Lemma layer_pairs_NoDup ns l :
  NoDup (map node_id ns) -> NoDup (layer_pairs ns l).
Proof.
  intros Hnd. assert (NoDup ns) as Hns by (by apply (NoDup_fmap_1 node_id)).
  unfold layer_pairs. rewrite flat_map_bind. apply NoDup_bind.
  - intros f f' p [Hf _]%list_elem_of_In%filter_In [Hf' _]%list_elem_of_In%filter_In
           (t & -> & _)%list_elem_of_fmap (t' & [= Hid _] & _)%list_elem_of_fmap.
    apply (node_id_inj_in ns); by rewrite ?list_elem_of_In.
  - intros f _. apply NoDup_fmap_2_strong; [|by apply NoDup_List_filter].
    intros t t' [Ht _]%list_elem_of_In%filter_In [Ht' _]%list_elem_of_In%filter_In [= Hid].
    apply (node_id_inj_in ns); by rewrite ?list_elem_of_In.
  - by apply NoDup_List_filter.
Qed.

Lemma all_layer_pairs_NoDup ns ls :
  NoDup (map node_id ns) -> NoDup ls -> NoDup (flat_map (layer_pairs ns) ls).
Proof.
  intros Hnd Hls. rewrite flat_map_bind. apply NoDup_bind; [| |done].
  - intros l l' p _ _ (f & t & Hf & _ & Hl & _ & ->)%elem_of_layer_pairs
           (f' & t' & Hf' & _ & Hl' & _ & [= Hid _])%elem_of_layer_pairs.
    by rewrite <- Hl, <- Hl', (node_id_inj_in ns f f').
  - intros l _. by apply layer_pairs_NoDup.
Qed.

Lemma built_node_names random len sizes layerIndex nodeId draws n :
  n ∈ built_nodes random len sizes layerIndex nodeId draws ->
  exists k, node_id n = "node-" +:+ nat_to_string k.
Proof.
  intros Hn.
  assert (node_id n ∈ map node_id (built_nodes random len sizes layerIndex nodeId draws))
    as Hin by (apply list_elem_of_fmap; by exists n).
  rewrite built_nodes_ids in Hin. apply list_elem_of_fmap in Hin as (k & -> & _).
  by exists k.
Qed.

(** X10. In the network [initializeNetwork] builds no two nodes share an
    identifier, no two connections share both endpoints, and no two
    connections share an identifier. *)
Theorem initializeNetwork_unique_ids (random : nat -> R) (cfg : NetworkConfig) :
  let net := initializeNetwork random cfg in
  NoDup (map node_id (nodes net)) /\
  NoDup (map endpoints (connections net)) /\
  NoDup (map conn_id (connections net)).
Proof.
  intros net.
  destruct (initializeNetwork_spec random cfg) as (Hns & Hcs & _).
  pose proof (initializeNetwork_connections random cfg) as Hconn.
  fold net in Hns, Hcs, Hconn. cbn zeta in Hns, Hcs, Hconn.
  assert (NoDup (map node_id (nodes net))) as Hnd.
  { rewrite Hns. apply built_nodes_NoDup. }
  set (ps := flat_map (layer_pairs (nodes net)) (seq 0 (length (layerSizes cfg) - 1))) in *.
  assert (NoDup ps) as Hps by (apply all_layer_pairs_NoDup; [done|apply NoDup_seq]).
  split; [done|]. split; [by rewrite Hcs|].
  assert (map conn_id (connections net) = map connection_name ps) as ->.
  { rewrite Hconn. apply list_eq. intros i.
    change (map ?f ?l) with (f <$> l).
    rewrite !list_lookup_fmap, list_lookup_imap. by destruct (ps !! i). }
  apply NoDup_fmap_2_strong; [|done].
  assert (forall p, p ∈ ps -> exists i j,
            p = ("node-" +:+ nat_to_string i, "node-" +:+ nat_to_string j)) as Hnames.
  { intros p (l & _ & Hp)%list_elem_of_In%in_flat_map.
    apply list_elem_of_In, elem_of_layer_pairs in Hp as (f & t & Hf & Ht & _ & _ & ->).
    rewrite Hns in Hf, Ht.
    apply built_node_names in Hf as [i ->]. apply built_node_names in Ht as [j ->].
    by exists i, j. }
  intros p p' (i & j & ->)%Hnames (i' & j' & ->)%Hnames Heq.
  by apply connection_name_inj in Heq as [-> ->].
Qed.

(** ** Node positions *)

Lemma built_nodes_position_NoDup random len sizes :
  forall layerIndex nodeId draws,
    NoDup (map position (built_nodes random len sizes layerIndex nodeId draws)).
Proof.
  induction sizes as [|size rest IH]; intros; cbn; [constructor|].
  rewrite map_app. apply NoDup_app. split; [|split; [|apply IH]].
  - rewrite map_map. apply NoDup_fmap_2_strong; [|apply NoDup_seq].
    intros i j _ _. unfold position, new_node. cbn. intros [= H]. lia.
  - intros p (n & -> & (i & -> & _)%list_elem_of_fmap)%list_elem_of_fmap
             (m & Hp & Hm)%list_elem_of_fmap.
    pose proof (built_nodes_layers random len rest (S layerIndex)
                  (nodeId + size) (draws + size)) as Hl.
    pose proof (built_nodes_Forall (fun n => node_x n = layer n * 200 + 100)
                  random len rest (fun _ _ _ _ => eq_refl) (S layerIndex)
                  (nodeId + size) (draws + size)) as Hx.
    rewrite Forall_forall in Hl. rewrite Forall_forall in Hx.
    specialize (Hl m Hm). specialize (Hx m Hm).
    unfold position, new_node in Hp. cbn in Hp. injection Hp as Hpx _. lia.
Qed.

Lemma new_nodes_filter random len l layerIndex nodeId draws (js : list nat) :
  List.filter (in_layer l) (map (new_node random len layerIndex nodeId draws) js)
  = if l =? layerIndex then map (new_node random len layerIndex nodeId draws) js else [].
Proof.
  induction js as [|j js IH]; cbn [map List.filter]; [by destruct (l =? layerIndex)|].
  unfold in_layer at 1. cbn [layer new_node]. rewrite (Nat.eqb_sym layerIndex l).
  destruct (l =? layerIndex); by rewrite IH.
Qed.

Lemma built_nodes_layer_y random len sizes l :
  forall layerIndex nodeId draws,
    let ns := built_nodes random len sizes layerIndex nodeId draws in
    map node_y (List.filter (in_layer l) ns)
    = map (fun i => i * 80 + 100) (seq 0 (length (List.filter (in_layer l) ns))).
Proof.
  induction sizes as [|size rest IH]; intros; unfold ns; cbn [built_nodes]; [done|].
  rewrite List.filter_app, map_app, length_app, new_nodes_filter.
  destruct (Nat.eqb_spec l layerIndex) as [->|Hne]; [|apply IH].
  assert (List.filter (in_layer layerIndex)
            (built_nodes random len rest (S layerIndex) (nodeId + size) (draws + size))
          = []) as ->.
  { apply length_zero_iff_nil.
    pose proof (built_nodes_count random len rest layerIndex (S layerIndex)
                  (nodeId + size) (draws + size)) as Hc.
    unfold count_matching in Hc. rewrite Hc.
    by destruct (Nat.ltb_spec layerIndex (S layerIndex)); [|lia]. }
  rewrite app_nil_r, length_map, length_seq, map_map. cbn [length].
  by rewrite Nat.add_0_r.
Qed.

(** X11. In the network [initializeNetwork] builds, a node of layer [l] is
    placed at abscissa [l * 200 + 100], the nodes of a layer are placed at
    the ordinates [100], [180], [260], ..., in creation order, and no two
    nodes share a position. *)
Theorem initializeNetwork_positions (random : nat -> R) (cfg : NetworkConfig) :
  let net := initializeNetwork random cfg in
  Forall (fun n => node_x n = layer n * 200 + 100) (nodes net) /\
  (forall l, map node_y (List.filter (in_layer l) (nodes net))
             = map (fun i => i * 80 + 100)
                   (seq 0 (length (List.filter (in_layer l) (nodes net))))) /\
  NoDup (map position (nodes net)).
Proof.
  intros net.
  destruct (initializeNetwork_spec random cfg) as (Hns & _). fold net in Hns.
  cbn zeta in Hns. rewrite Hns. split; [|split].
  - by apply built_nodes_Forall.
  - intros l. apply built_nodes_layer_y.
  - apply built_nodes_position_NoDup.
Qed.

(** ** Ranges of the activation functions *)

Lemma Rdiv_bounds (a c lo hi : R) :
  (0 < c)%R -> (lo * c <= a <= hi * c)%R -> (lo <= a / c <= hi)%R.
Proof.
  intros Hc [H1 H2].
  split; apply (Rmult_le_reg_r c); try done;
    replace (a / c * c)%R with a by (field; lra); done.
Qed.

Lemma Rdiv_nonneg (a c : R) : (0 <= a)%R -> (0 < c)%R -> (0 <= a / c)%R.
Proof.
  intros Ha Hc. apply (Rdiv_bounds a c 0 (a / c)); [done|].
  replace (a / c * c)%R with a by (field; lra). lra.
Qed.

Lemma sigmoid_range (x : R) : (0 <= 1 / (1 + exp (- x)) <= 1)%R.
Proof. pose proof (exp_pos (- x)) as He. apply Rdiv_bounds; lra. Qed.

Lemma tanh_range (x : R) : (-1 <= tanh x <= 1)%R.
Proof.
  pose proof (exp_pos x) as Ha. pose proof (exp_pos (- x)) as Hb.
  unfold tanh, sinh, cosh.
  replace ((exp x - exp (- x)) / 2 / ((exp x + exp (- x)) / 2))%R
    with ((exp x - exp (- x)) / (exp x + exp (- x)))%R by (field; lra).
  apply Rdiv_bounds; lra.
Qed.

(** X12. On a real argument [activate] returns a real number: one of
    [[0, 1]] under ["sigmoid"] and under an unknown selector, a
    non-negative one under ["relu"], one of [[-1, 1]] under ["tanh"]; and
    the factor [activateDerivative] returns at such a value is never
    negative. *)
Theorem activate_range (cfg : NetworkConfig) (x : R) :
  exists a d,
    activate cfg (Num x) = Num a /\
    activateDerivative cfg (Num a) = Num d /\
    (0 <= d)%R /\ (-1 <= a)%R /\
    (activationFunction cfg <> "relu" -> (a <= 1)%R) /\
    (activationFunction cfg <> "tanh" -> (0 <= a)%R).
Proof.
  pose proof (sigmoid_range x) as Hs. pose proof (tanh_range x) as Ht.
  unfold activate, activateDerivative.
  destruct (String.eqb_spec (activationFunction cfg) "sigmoid") as [He|Hns].
  { rewrite sigmoid_Num. eexists _, _. split; [done|]. split; [done|].
    rewrite He. repeat split; try lra; try done. nra. }
  destruct (String.eqb_spec (activationFunction cfg) "relu") as [He|Hnr].
  { exists (Rmax 0 x), (Rmax 0 x). pose proof (Rmax_l 0 x) as Hm.
    split; [done|]. split.
    - cbn. destruct (Rlt_dec 0 (Rmax 0 x)); [done|]. f_equal. lra.
    - repeat split; try lra; try done. }
  destruct (String.eqb_spec (activationFunction cfg) "tanh") as [He|Hnt].
  { eexists _, _. split; [done|]. split; [done|].
    repeat split; try lra; try done. nra. }
  rewrite sigmoid_Num. eexists _, _. split; [done|]. split; [done|].
  repeat split; try lra; try done. nra.
Qed.

(** * The training step *)

(** ** The training step as a function *)

Lemma train_sample_run data t net :
  well_formed net ->
  train_sample data t net
  = (Normal (score data (predictions (call net (Forward (inputs data)))) t),
     trained net data).
Proof.
  intros Hwf. unfold train_sample, bind. rewrite forward_call by done.
  rewrite backward_call by (by apply call_well_formed). done.
Qed.

Lemma trained_well_formed net data : well_formed net -> well_formed (trained net data).
Proof. intros Hwf. by do 2 apply call_well_formed. Qed.

Lemma train_samples_run trainingData :
  forall t net,
    well_formed net ->
    train_samples trainingData t net
    = (Normal (train_all trainingData t net).1, (train_all trainingData t net).2).
Proof.
  induction trainingData as [|data rest IH]; intros t net Hwf; cbn; [done|].
  unfold bind. rewrite train_sample_run by done. by apply IH, trained_well_formed.
Qed.

Lemma trainStep_run currentEpoch trainingData net :
  well_formed net -> trainingData <> [] ->
  let r := train_all trainingData (mkTotals (Num 0) 0) net in
  trainStep currentEpoch trainingData net
  = (Normal (Some (mkMetrics (currentEpoch + 1)
                     (totalLoss r.1 / of_nat (length trainingData))%js
                     (of_nat (correctPredictions r.1) / of_nat (length trainingData)
                      * Num 100)%js)),
     r.2).
Proof.
  intros Hwf Hne r. unfold trainStep.
  destruct trainingData as [|data rest]; [done|]. cbn [length Nat.eqb].
  unfold bind. by rewrite train_samples_run.
Qed.

(** ** What training never changes *)

Global Instance same_static_preorder : PreOrder same_static.
Proof.
  split; [by intros n|]. unfold same_static. intros a b c Hab Hbc. congruence.
Qed.

Lemma frame_mono (Fn Fn' : relation NetworkNode) (Fc Fc' : relation NetworkConnection)
    s s' :
  (forall a b, Fn a b -> Fn' a b) -> (forall a b, Fc a b -> Fc' a b) ->
  frame Fn Fc s s' -> frame Fn' Fc' s s'.
Proof.
  intros Hn Hc (H1 & H2 & H3). split; [|split; [|done]].
  - eapply Forall2_impl; [exact H1|done].
  - eapply Forall2_impl; [exact H2|done].
Qed.

Lemma call_training_frame net c : training_frame net (call net c).
Proof.
  destruct (call_frame net c) as [H|H]; revert H; apply frame_mono.
  - by intros a b [H _].
  - done.
  - by intros a b [H _].
  - by intros a b ->.
Qed.

Lemma train_all_frame trainingData :
  forall t net,
    well_formed net ->
    well_formed (train_all trainingData t net).2 /\
    training_frame net (train_all trainingData t net).2.
Proof.
  induction trainingData as [|data rest IH]; intros t net Hwf; cbn [train_all].
  - split; [done|reflexivity].
  - destruct (IH (score data (predictions (call net (Forward (inputs data)))) t)
                 (trained net data) (trained_well_formed net data Hwf)) as [Hwf' Hfr].
    split; [done|]. etrans; [|exact Hfr].
    unfold trained. etrans; apply call_training_frame.
Qed.

(** X13. On a well-formed network [trainStep] never raises a [TypeError].
    With no sample it returns early and leaves the network alone.
    Otherwise it yields a metrics entry numbered one more than the epoch
    counter, and the network it leaves is well formed and has the
    identifier, position, layer, bias and type of every node and the
    identifier and endpoints of every connection it had. *)
Theorem trainStep_completes (currentEpoch : nat) (trainingData : list TrainingData)
    (net : NeuralNetwork) :
  well_formed net ->
  exists r net',
    trainStep currentEpoch trainingData net = (Normal r, net') /\
    well_formed net' /\ training_frame net net' /\
    (trainingData = [] -> r = None /\ net' = net) /\
    (trainingData <> [] -> exists m, r = Some m /\ epoch m = currentEpoch + 1).
Proof.
  intros Hwf. destruct trainingData as [|data rest].
  - exists None, net. split; [done|]. split; [done|]. split; [reflexivity|]. done.
  - eexists _, _. split; [by apply trainStep_run|].
    destruct (train_all_frame (data :: rest) (mkTotals (Num 0) 0) net Hwf) as [Hwf' Hfr].
    split; [done|]. split; [done|]. split; [done|]. intros _. by eexists.
Qed.

Lemma trainStep_completes_witness :
  exists r net',
    trainStep 0 [mkData [Num 0; Num 1] [Num 1] None] initial_network = (Normal r, net') /\
    well_formed net' /\ training_frame initial_network net' /\
    ([mkData [Num 0; Num 1] [Num 1] None] = [] -> r = None /\ net' = initial_network) /\
    ([mkData [Num 0; Num 1] [Num 1] None] <> [] ->
     exists m, r = Some m /\ epoch m = 0 + 1).
Proof.
  apply (trainStep_completes 0 [mkData [Num 0; Num 1] [Num 1] None] initial_network).
  apply (bool_decide_unpack _). vm_compute. exact I.
Defined.

(** ** Accuracy *)

Lemma train_all_correct trainingData :
  forall t net,
    correctPredictions (train_all trainingData t net).1
    <= correctPredictions t + single_target trainingData.
Proof.
  unfold single_target.
  induction trainingData as [|data rest IH]; intros t net; cbn [train_all]; [cbn; lia|].
  etrans; [apply IH|]. cbn [List.filter score correctPredictions].
  destruct (length (outputs data) =? 1); [|lia].
  cbn [length]. destruct (Bool.eqb _ _); lia.
Qed.

Lemma single_target_le trainingData : single_target trainingData <= length trainingData.
Proof. apply List.filter_length_le. Qed.

(** X14. On a well-formed network and a non-empty data set, the accuracy
    [trainStep] reports is [c / n * 100] for the number [n] of samples and a
    count [c] of at most the samples that have exactly one target: it lies
    between [0] and [100], and it is [0] when no sample has exactly one
    target. *)
Theorem trainStep_accuracy (currentEpoch : nat) (trainingData : list TrainingData)
    (net : NeuralNetwork) :
  well_formed net -> trainingData <> [] ->
  exists m net' c,
    trainStep currentEpoch trainingData net = (Normal (Some m), net') /\
    c <= single_target trainingData /\
    accuracy m = Num (INR c / INR (length trainingData) * 100) /\
    (0 <= INR c / INR (length trainingData) * 100 <= 100)%R /\
    (single_target trainingData = 0 -> accuracy m = Num 0).
Proof.
  intros Hwf Hne.
  set (r := train_all trainingData (mkTotals (Num 0) 0) net).
  eexists _, _, (correctPredictions r.1). split; [by apply trainStep_run|].
  pose proof (train_all_correct trainingData (mkTotals (Num 0) 0) net) as Hc.
  fold r in Hc. cbn [correctPredictions] in Hc.
  pose proof (single_target_le trainingData) as Hs.
  pose proof (INR_length_pos trainingData Hne) as Hpos.
  assert (accuracy
            (mkMetrics (currentEpoch + 1)
               (totalLoss r.1 / of_nat (length trainingData))%js
               (of_nat (correctPredictions r.1) / of_nat (length trainingData)
                * Num 100)%js)
          = Num (INR (correctPredictions r.1) / INR (length trainingData) * 100))
    as Hacc.
  { cbn [accuracy]. unfold of_nat. cbn.
    destruct (Req_dec_T (INR (length trainingData)) 0) as [Hz|_]; [lra|done]. }
  split; [lia|]. split; [done|]. split.
  - assert (0 <= INR (correctPredictions r.1) <= INR (length trainingData))%R as Hb.
    { split; [apply pos_INR|apply le_INR; lia]. }
    assert (0 <= INR (correctPredictions r.1) / INR (length trainingData) <= 1)%R.
    { apply Rdiv_bounds; lra. }
    lra.
  - intros Hz. etrans; [exact Hacc|]. replace (correctPredictions r.1) with 0 by lia.
    f_equal. cbn [INR]. unfold Rdiv. ring.
Qed.

Lemma trainStep_accuracy_witness :
  exists m net' c,
    trainStep 0 [mkData [Num 0; Num 1] [Num 1; Num 0] None] initial_network
    = (Normal (Some m), net') /\
    c <= single_target [mkData [Num 0; Num 1] [Num 1; Num 0] None] /\
    accuracy m = Num (INR c / INR 1 * 100) /\
    (0 <= INR c / INR 1 * 100 <= 100)%R /\
    (single_target [mkData [Num 0; Num 1] [Num 1; Num 0] None] = 0 ->
     accuracy m = Num 0).
Proof.
  apply (trainStep_accuracy 0 [mkData [Num 0; Num 1] [Num 1; Num 0] None]
           initial_network).
  - apply (bool_decide_unpack _). vm_compute. exact I.
  - discriminate.
Defined.

(** ** Loss *)

Lemma reduce_loss_real targets predictions :
  forall i s,
    (0 <= s)%R -> Forall is_real predictions ->
    (forall k, i <= k < i + length predictions -> exists t, targets !! k = Some (Num t)) ->
    exists v, reduce_loss targets i (Num s) predictions = Num v /\ (0 <= v)%R.
Proof.
  induction predictions as [|pred rest IH]; intros i s Hs Hp Ht; cbn [reduce_loss].
  - by exists s.
  - apply Forall_cons in Hp as [[x ->]%is_real_Num Hp].
    destruct (Ht i) as [t Hti]; [cbn; lia|]. rewrite Hti.
    cbn [ToNumber num_sub num_add lift2 Math_pow].
    apply IH; [|done|].
    + pose proof (pow2_ge_0 (x - t)). lra.
    + intros k Hk. apply Ht. cbn. lia.
Qed.

Lemma calculateLoss_real predictions targets :
  predictions <> [] -> Forall is_real predictions ->
  (forall k, k < length predictions -> exists t, targets !! k = Some (Num t)) ->
  exists l, calculateLoss predictions targets = Num l /\ (0 <= l)%R.
Proof.
  intros Hne Hp Ht. unfold calculateLoss.
  destruct (reduce_loss_real targets predictions 0 0) as (v & -> & Hv); [lra|done| |].
  { intros k Hk. apply Ht. lia. }
  pose proof (INR_length_pos predictions Hne) as Hpos.
  unfold of_nat. cbn.
  destruct (Req_dec_T (INR (length predictions)) 0) as [Hz|_]; [lra|].
  eexists. split; [done|]. by apply Rdiv_nonneg.
Qed.

Lemma real_targets_read (targets : list number) n :
  n <= length targets -> Forall is_real targets ->
  forall k, k < n -> exists t, targets !! k = Some (Num t).
Proof.
  intros Hlen Ht k Hk. destruct (lookup_lt_is_Some_2 targets k) as [t Hkt]; [lia|].
  rewrite Forall_forall in Ht.
  destruct (proj1 (is_real_Num t)) as [r ->]; [|by exists r].
  apply Ht. by eapply list_elem_of_lookup_2.
Qed.

Lemma reduce_loss_real_inv targets predictions :
  forall i s v,
    reduce_loss targets i s predictions = Num v ->
    is_real s /\ Forall is_real predictions /\
    forall k, i <= k < i + length predictions -> exists t, targets !! k = Some (Num t).
Proof.
  induction predictions as [|pred rest IH]; intros i s v; cbn [reduce_loss].
  - intros ->. split; [done|]. split; [done|]. cbn. intros k Hk. lia.
  - intros (Hs & Hrest & Hread)%IH.
    destruct s as [s|], pred as [x|], (targets !! i) as [[t|]|] eqn:Hti;
      cbn in Hs; try done.
    split; [done|]. split; [by constructor|].
    intros k Hk. destruct (decide (k = i)) as [->|Hne]; [by exists t|].
    apply Hread. cbn in Hk. lia.
Qed.

Lemma calculateLoss_Num predictions targets l :
  calculateLoss predictions targets = Num l ->
  predictions <> [] /\ Forall is_real predictions /\
  (forall k, k < length predictions -> exists t, targets !! k = Some (Num t)) /\
  (0 <= l)%R.
Proof.
  intros Hl.
  assert (predictions <> [] /\ Forall is_real predictions /\
          forall k, k < length predictions -> exists t, targets !! k = Some (Num t))
    as (Hne & Hp & Ht).
  { revert Hl. unfold calculateLoss, of_nat.
    destruct (reduce_loss targets 0 (Num 0) predictions) as [v|] eqn:Hv; [|done].
    apply reduce_loss_real_inv in Hv as (_ & Hp & Ht). cbn.
    destruct (Req_dec_T (INR (length predictions)) 0) as [Hz|Hnz]; [done|].
    intros _. split; [by intros ->|]. split; [done|].
    intros k Hk. apply Ht. lia. }
  split; [done|]. split; [done|]. split; [done|].
  destruct (calculateLoss_real predictions targets Hne Hp Ht) as (l' & Hl' & Hl0).
  congruence.
Qed.

(** X21. [calculateLoss] returns [NaN] when there is no prediction, when a
    prediction is [NaN], and when [targets] holds nothing or [NaN] at the
    index of a prediction; a loss that is a number is never negative. *)
Theorem calculateLoss_NaN (predictions targets : list number) :
  (predictions = [] -> calculateLoss predictions targets = NaN) /\
  (forall k p, predictions !! k = Some p ->
     p = NaN \/ targets !! k = None \/ targets !! k = Some NaN ->
     calculateLoss predictions targets = NaN) /\
  (forall l, calculateLoss predictions targets = Num l -> (0 <= l)%R).
Proof.
  destruct (calculateLoss predictions targets) as [l|] eqn:Hl; [|done].
  apply calculateLoss_Num in Hl as (Hne & Hp & Ht & Hl0).
  split; [done|]. split; [|by intros l' [= <-]].
  intros k p Hk Hbad. exfalso.
  destruct (Ht k) as [t Hkt]; [by eapply lookup_lt_Some|].
  destruct Hbad as [->|[Hn|Hn]]; [|congruence|congruence].
  rewrite Forall_forall in Hp. by apply (Hp NaN), list_elem_of_lookup_2 with k.
Qed.

Lemma train_all_loss_nonneg trainingData :
  forall t net,
    (forall l, totalLoss t = Num l -> (0 <= l)%R) ->
    forall l, totalLoss (train_all trainingData t net).1 = Num l -> (0 <= l)%R.
Proof.
  induction trainingData as [|data rest IH]; intros t net Ht; cbn [train_all]; [done|].
  apply IH. cbn [score totalLoss]. intros l.
  destruct (totalLoss t) as [a|] eqn:Ha; [|done].
  destruct (calculateLoss _ _) as [b|] eqn:Hb; [|done].
  cbn. intros [= <-]. apply calculateLoss_Num in Hb as (_ & _ & _ & Hb0).
  specialize (Ht a eq_refl). lra.
Qed.

(** X15. On a well-formed network and a non-empty data set, the loss
    [trainStep] reports is never a negative number: it is [NaN] or at
    least [0]. *)
Theorem trainStep_loss_nonneg (currentEpoch : nat) (trainingData : list TrainingData)
    (net : NeuralNetwork) :
  well_formed net -> trainingData <> [] ->
  exists m net',
    trainStep currentEpoch trainingData net = (Normal (Some m), net') /\
    forall l, loss m = Num l -> (0 <= l)%R.
Proof.
  intros Hwf Hne. eexists _, _. split; [by apply trainStep_run|].
  intros l. cbn [loss].
  pose proof (train_all_loss_nonneg trainingData (mkTotals (Num 0) 0) net) as Hnn.
  destruct (totalLoss (train_all trainingData (mkTotals (Num 0) 0) net).1) as [v|];
    [|done].
  pose proof (INR_length_pos trainingData Hne) as Hpos.
  unfold of_nat. cbn.
  destruct (Req_dec_T (INR (length trainingData)) 0) as [Hz|_]; [done|].
  intros [= <-]. apply Rdiv_nonneg; [|done].
  apply Hnn; [|done]. cbn. intros l [= <-]. lra.
Qed.

Lemma trainStep_loss_nonneg_witness :
  exists m net',
    trainStep 0 [mkData [Num 0; NaN] [Num 1] None] initial_network
    = (Normal (Some m), net') /\
    forall l, loss m = Num l -> (0 <= l)%R.
Proof.
  apply (trainStep_loss_nonneg 0 [mkData [Num 0; NaN] [Num 1] None] initial_network).
  - apply (bool_decide_unpack _). vm_compute. exact I.
  - discriminate.
Defined.

(** * The data set panel *)

Lemma filter_from_keep {A} (index : nat) (l : list A) :
  forall k, index < k -> filter_from (fun _ i => negb (i =? index)) k l = l.
Proof.
  induction l as [|a l IH]; intros k Hk; cbn [filter_from]; [done|].
  destruct (Nat.eqb_spec k index); [lia|]. cbn [negb]. by rewrite IH by lia.
Qed.

Lemma filter_from_remove {A} (index : nat) (l : list A) :
  forall k, k <= index ->
    filter_from (fun _ i => negb (i =? index)) k l
    = take (index - k) l ++ drop (S (index - k)) l.
Proof.
  induction l as [|a l IH]; intros k Hk; cbn [filter_from].
  - by rewrite take_nil, drop_nil.
  - destruct (Nat.eqb_spec k index) as [->|Hne]; cbn [negb].
    + rewrite Nat.sub_diag. cbn. by rewrite drop_0, filter_from_keep by lia.
    + rewrite IH by lia. replace (index - k) with (S (index - S k)) by lia. done.
Qed.

(** X16. [removeDataPoint] removes the sample at the index and keeps the
    others in order; an index past the end removes nothing; and removing
    the last sample of a data set gives back the data set it was appended
    to. *)
Theorem removeDataPoint_spec (index : nat) (trainingData : list TrainingData)
    (data : TrainingData) :
  removeDataPoint index trainingData
  = take index trainingData ++ drop (S index) trainingData /\
  (length trainingData <= index -> removeDataPoint index trainingData = trainingData) /\
  removeDataPoint (length trainingData) (trainingData ++ [data]) = trainingData.
Proof.
  unfold removeDataPoint.
  assert (forall i l, filter_from (fun (_ : TrainingData) j => negb (j =? i)) 0 l
                      = take i l ++ drop (S i) l) as H.
  { intros i l. rewrite filter_from_remove by lia. by rewrite Nat.sub_0_r. }
  split; [apply H|]. split.
  - intros Hlen. rewrite H, take_ge, drop_ge by lia. by rewrite app_nil_r.
  - rewrite H, take_app_length, drop_ge by (rewrite length_app; cbn; lia).
    by rewrite app_nil_r.
Qed.

Section PanelProperties.
Variable split_commas : string -> list string.
Variable trim : string -> string.
Variable parseFloat : string -> number.

Lemma parse_numbers_no_NaN s :
  Forall (fun a => a <> NaN) (parse_numbers split_commas trim parseFloat s).
Proof.
  apply Forall_forall. intros a [_ Ha]%list_elem_of_In%filter_In. by destruct a.
Qed.

Lemma addDataPoint_fits inputSize outputSize newInputs newOutputs newLabel trainingData :
  Forall (fits inputSize outputSize) trainingData ->
  Forall (fits inputSize outputSize)
         (addDataPoint split_commas trim parseFloat inputSize outputSize
                       newInputs newOutputs newLabel trainingData).
Proof.
  intros Hfit. unfold addDataPoint. cbn zeta.
  destruct (Nat.eqb_spec (length (parse_numbers split_commas trim parseFloat newInputs))
              inputSize) as [Hi|_]; [|done].
  destruct (Nat.eqb_spec (length (parse_numbers split_commas trim parseFloat newOutputs))
              outputSize) as [Ho|_]; [|done].
  apply Forall_app. split; [done|]. constructor; [|done].
  split; [done|]. split; [done|]. split; apply parse_numbers_no_NaN.
Qed.


Lemma xorData_fits : Forall (fits 2 1) xorData.
Proof. repeat constructor; discriminate. Qed.

Lemma random_sample_fits random inputSize outputSize i :
  fits inputSize outputSize (random_sample random inputSize outputSize i).
Proof.
  unfold fits, random_sample. cbn [inputs outputs].
  rewrite !length_map, !length_seq. split; [done|]. split; [done|].
  split; apply Forall_fmap, Forall_forall; intros j _; discriminate.
Qed.

Lemma loadDefaultDataset_fits random inputSize outputSize :
  Forall (fits inputSize outputSize) (loadDefaultDataset random inputSize outputSize).
Proof.
  unfold loadDefaultDataset.
  destruct (Nat.eqb_spec inputSize 2) as [->|_];
    [destruct (Nat.eqb_spec outputSize 1) as [->|_]; [apply xorData_fits|]|];
    cbn [andb]; apply Forall_fmap, Forall_forall; intros i _; apply random_sample_fits.
Qed.

Lemma panel_action_fits inputSize outputSize trainingData a :
  Forall (fits inputSize outputSize) trainingData ->
  Forall (fits inputSize outputSize)
         (panel_action split_commas trim parseFloat inputSize outputSize trainingData a).
Proof.
  intros Hfit. destruct a as [newInputs newOutputs newLabel|index|random]; cbn.
  - by apply addDataPoint_fits.
  - unfold removeDataPoint. rewrite filter_from_remove, Nat.sub_0_r by lia.
    apply Forall_app. split; [by apply Forall_take|by apply Forall_drop].
  - apply loadDefaultDataset_fits.
Qed.

Lemma panel_actions_fit inputSize outputSize actions :
  forall trainingData,
    Forall (fits inputSize outputSize) trainingData ->
    Forall (fits inputSize outputSize)
           (foldl (panel_action split_commas trim parseFloat inputSize outputSize)
                  trainingData actions).
Proof.
  induction actions as [|a actions IH]; intros trainingData Hfit; cbn [foldl]; [done|].
  by apply IH, panel_action_fits.
Qed.

(** X18. A data set entered through the panel, by adding and removing
    samples and loading the default data set in any order, importing a file
    apart, holds only samples with exactly [inputSize] inputs and
    [outputSize] outputs, none of them [NaN]. *)
Theorem panel_data_fits (inputSize outputSize : nat) (actions : list PanelAction) :
  Forall (fits inputSize outputSize)
         (foldl (panel_action split_commas trim parseFloat inputSize outputSize)
                [] actions).
Proof. by apply panel_actions_fit. Qed.

End PanelProperties.

(** * The metrics dashboard *)

Lemma Math_max_bound (ls : list number) :
  Forall (fun a => exists l, a = Num l /\ (0 <= l)%R) ls ->
  exists M, foldr Math_max (Num 1) ls = Num M /\ (1 <= M)%R /\
            Forall (fun a => exists l, a = Num l /\ (0 <= l <= M)%R) ls.
Proof.
  induction 1 as [|a ls (l & -> & Hl) _ (M & HM & HM1 & Hall)]; cbn [foldr].
  - exists 1%R. split; [done|]. split; [lra|done].
  - rewrite HM. exists (Rmax l M). split; [done|].
    pose proof (Rmax_l l M). pose proof (Rmax_r l M).
    split; [lra|]. constructor.
    + exists l. split; [done|lra].
    + eapply Forall_impl; [exact Hall|]. intros b (r & -> & Hr). exists r.
      split; [done|lra].
Qed.

Lemma renderMiniChart_box (data : list number) (M : R) :
  2 <= length data -> (0 < M)%R ->
  Forall (fun a => exists l, a = Num l /\ (0 <= l <= M)%R) data ->
  exists points,
    renderMiniChart data (Num M) = Some points /\
    length points = length data /\ Forall in_box points.
Proof.
  intros Hlen HM Hdata. unfold renderMiniChart.
  destruct (Nat.ltb_spec (length data) 2) as [?|_]; [lia|].
  eexists. split; [done|]. split; [by rewrite length_imap|].
  apply imap_Forall. intros k a Hk.
  rewrite Forall_forall in Hdata.
  destruct (Hdata a) as (l & -> & Hl); [by eapply list_elem_of_lookup_2|].
  apply lookup_lt_Some in Hk.
  assert (0 < INR (length data - 1))%R as Hn by (apply lt_0_INR; lia).
  assert (0 <= INR k <= INR (length data - 1))%R as Hkn.
  { split; [apply pos_INR|apply le_INR; lia]. }
  unfold of_nat. cbn.
  destruct (Req_dec_T (INR (length data - 1)) 0) as [?|_]; [lra|].
  destruct (Req_dec_T M 0) as [?|_]; [lra|].
  eexists _, _. split; [done|].
  assert (0 <= INR k / INR (length data - 1) <= 1)%R by (apply Rdiv_bounds; lra).
  assert (0 <= l / M <= 1)%R by (apply Rdiv_bounds; lra).
  lra.
Qed.

(** X20. For a history of metrics whose losses are non-negative real numbers
    and whose accuracies are real numbers of [[0, 100]], the dashboard draws
    no chart while the history has fewer than two entries; from two
    entries on, the loss chart and the accuracy chart have one point for
    each of the last (at most 50) entries, and every point lies within the
    200 by 60 drawing area. *)
Theorem charts_in_box (metrics : list TrainingMetrics) :
  Forall sound_metric metrics ->
  let recent := recentMetrics metrics in
  (length metrics < 2 ->
     renderMiniChart (map loss recent) (maxLoss metrics) = None /\
     renderMiniChart (map accuracy recent) maxAccuracy = None) /\
  (2 <= length metrics ->
     exists lossPoints accuracyPoints,
       renderMiniChart (map loss recent) (maxLoss metrics) = Some lossPoints /\
       renderMiniChart (map accuracy recent) maxAccuracy = Some accuracyPoints /\
       length lossPoints = Nat.min 50 (length metrics) /\
       length accuracyPoints = Nat.min 50 (length metrics) /\
       Forall in_box lossPoints /\ Forall in_box accuracyPoints).
Proof.
  intros Hm recent.
  assert (length recent = Nat.min 50 (length metrics)) as Hlen.
  { unfold recent, recentMetrics. rewrite length_drop. lia. }
  assert (Forall sound_metric recent) as Hrecent by (by apply Forall_drop).
  split.
  - intros Hshort. unfold renderMiniChart. rewrite !length_map, Hlen.
    by destruct (Nat.ltb_spec (Nat.min 50 (length metrics)) 2) as [_|?]; [|lia].
  - intros Hlong.
    destruct (Math_max_bound (map loss recent)) as (M & HM & HM1 & Hloss).
    { apply Forall_fmap. eapply Forall_impl; [exact Hrecent|]. by intros m [? _]. }
    destruct (renderMiniChart_box (map loss recent) M) as (pl & Hpl & Hll & Hbl);
      [rewrite length_map; lia|lra|done|].
    destruct (renderMiniChart_box (map accuracy recent) 100) as (pa & Hpa & Hla & Hba);
      [rewrite length_map; lia|lra| |].
    { apply Forall_fmap. eapply Forall_impl; [exact Hrecent|]. by intros m [_ ?]. }
    exists pl, pa. unfold maxLoss. fold recent. rewrite HM.
    rewrite length_map in Hll, Hla.
    split; [done|]. split; [done|]. split; [lia|]. split; [lia|]. done.
Qed.

Lemma charts_in_box_witness :
  let metrics := [mkMetrics 1 (Num 1) (Num 50); mkMetrics 2 (Num (1 / 2)) (Num 100)] in
  let recent := recentMetrics metrics in
  (length metrics < 2 ->
     renderMiniChart (map loss recent) (maxLoss metrics) = None /\
     renderMiniChart (map accuracy recent) maxAccuracy = None) /\
  (2 <= length metrics ->
     exists lossPoints accuracyPoints,
       renderMiniChart (map loss recent) (maxLoss metrics) = Some lossPoints /\
       renderMiniChart (map accuracy recent) maxAccuracy = Some accuracyPoints /\
       length lossPoints = Nat.min 50 (length metrics) /\
       length accuracyPoints = Nat.min 50 (length metrics) /\
       Forall in_box lossPoints /\ Forall in_box accuracyPoints).
Proof.
  intros metrics. apply (charts_in_box metrics).
  repeat constructor; eexists; (split; [reflexivity|lra]).
Defined.

(** * The backward pass on a network that has not been run *)

Lemma activateDerivative_zero cfg :
  activationFunction cfg <> "tanh" -> activateDerivative cfg (Num 0) = Num 0.
Proof.
  intros Hnt. unfold activateDerivative.
  assert ((Num 0 * (Num 1 - Num 0))%js = Num 0) as Hs by (cbn; f_equal; ring).
  destruct (String.eqb_spec (activationFunction cfg) "sigmoid"); [done|].
  destruct (String.eqb_spec (activationFunction cfg) "relu").
  { cbn. by destruct (Rlt_dec 0 0) as [?|_]; [lra|]. }
  by destruct (String.eqb_spec (activationFunction cfg) "tanh").
Qed.

(** X23. On a well-formed network with real weights and learning rate in
    which every activation is [0], as in a freshly built network, and whose
    activation function is not ["tanh"], [backward] with real targets for
    every output node changes no weight, whatever the targets are: every
    error it stores and every gradient is [0]. *)
Theorem backward_before_forward (net : NeuralNetwork) (targets : list number) :
  well_formed net -> real_parameters net ->
  is_real (learningRate (config net)) ->
  activationFunction (config net) <> "tanh" ->
  Forall (fun n => activation n = Num 0) (nodes net) ->
  outputSize (config net) <= length targets -> Forall is_real targets ->
  exists net',
    backward targets net = (Normal tt, net') /\
    map weight (connections net') = map weight (connections net) /\
    Forall (fun c => gradient c = Num 0) (connections net') /\
    forall n, n ∈ nodes net' -> type n <> input -> error n = Some (Num 0).
Proof.
  destruct net as [ns cs cfg]. cbn [config nodes].
  intros Hwf [_ Hw] Hlr Hnt Hzero Hlen Ht. cbn [connections] in Hw.
  eexists. split; [by apply backward_run|]. cbn [nodes connections].
  pose proof (backward_nodes_activations cfg cs ns targets (fun a => a = Num 0) Hwf Hzero)
    as Hzero'.
  destruct (backward_result cfg cs ns targets Hwf) as (Hwf' & _ & Hout & Hhid & _).
  set (ns' := backward_nodes cfg cs targets ns) in *. cbn zeta in *.
  rewrite Forall_forall in Hzero'. rewrite Forall_forall in Hw.
  pose proof (activateDerivative_zero cfg Hnt) as Hd.
  assert (Herr : forall n, n ∈ ns' -> type n <> input ->
                   exists e, error n = Some e /\ e = Num 0).
  { apply (backward_errors_closed (fun e => e = Num 0) (fun x => x = Num 0) cfg cs ns');
      try done.
    - intros n Hn Hty.
      assert (n ∈ List.filter (is_type output) ns') as Hin.
      { apply list_elem_of_In, filter_In. split; [by apply list_elem_of_In|].
        by apply bool_decide_eq_true. }
      apply list_elem_of_lookup in Hin as [i Hi]. rewrite (Hout i n Hi).
      eexists. split; [done|].
      destruct (real_targets_read targets (outputSize cfg) Hlen Ht i) as [t Hti].
      { apply lookup_lt_Some in Hi. destruct Hwf' as (_ & _ & _ & _ & _ & Hc).
        unfold count_matching in Hc. cbn [nodes config] in Hc. lia. }
      unfold output_error. rewrite Hti, (Hzero' n Hn), Hd. cbn [ToNumber].
      by apply num_mul_zero_real.
    - intros c x e Hc -> ->. rewrite num_zero_mul_real by auto.
      exact (num_add_zero_real (Num 0) I).
    - intros n x Hn ->. rewrite (Hzero' n Hn), Hd. exact (num_mul_zero_real (Num 0) I). }
  assert (Hcs : forall c, c ∈ cs ->
            gradient (connection_update cfg ns' c) = Num 0 /\
            weight (connection_update cfg ns' c) = weight c).
  { intros c Hc.
    destruct (connection_update_fields _ cfg cs ns' c Hwf' Herr Hc)
      as (src & e & Hsrc & -> & -> & ->).
    rewrite (Hzero' src Hsrc).
    assert ((Num 0 * Num 0)%js = Num 0) as -> by exact (num_mul_zero_real (Num 0) I).
    rewrite num_mul_zero_real by done.
    split; [done|]. apply num_add_zero_real. auto. }
  split; [|split].
  - rewrite map_map. apply map_ext_in. intros c Hc%list_elem_of_In. by apply Hcs.
  - apply Forall_fmap, Forall_forall. intros c Hc. by apply Hcs.
  - intros n Hn Hty. by destruct (Herr n Hn Hty) as (e & -> & ->).
Qed.

Lemma backward_before_forward_witness :
  exists net',
    backward [Num 1] initial_network = (Normal tt, net') /\
    map weight (connections net') = map weight (connections initial_network) /\
    Forall (fun c => gradient c = Num 0) (connections net') /\
    forall n, n ∈ nodes net' -> type n <> input -> error n = Some (Num 0).
Proof.
  apply (backward_before_forward initial_network [Num 1]).
  - apply (bool_decide_unpack _). vm_compute. exact I.
  - apply (bool_decide_unpack _). vm_compute. exact I.
  - exact I.
  - discriminate.
  - apply (initializeNetwork_activations (fun _ => (1 / 2)%R) initial_config).
  - vm_compute. lia.
  - repeat constructor.
Defined.

(** * The network picture *)

Lemma calls_training_frame calls :
  forall net, training_frame net (foldl call net calls).
Proof.
  induction calls as [|c calls IH]; intros net; cbn [foldl]; [reflexivity|].
  etrans; [apply call_training_frame|apply IH].
Qed.

Lemma same_static_fields a b :
  same_static a b ->
  node_id b = node_id a /\ node_x b = node_x a /\ node_y b = node_y a /\
  layer b = layer a.
Proof. unfold same_static, node_static. intros [= ? ? ? ? ? ?]. auto. Qed.

(** The grid on which the constructor places the nodes. *)
Lemma constructed_grid random cfg calls :
  let net := foldl call (initializeNetwork random cfg) calls in
  Forall (fun n => node_x n = layer n * 200 + 100 /\
                   exists k, node_y n = k * 80 + 100) (nodes net) /\
  NoDup (map position (nodes net)).
Proof.
  intros net.
  destruct (calls_training_frame calls (initializeNetwork random cfg)) as (Hns & _).
  fold net in Hns.
  destruct (initializeNetwork_spec random cfg) as (Hbuilt & _). cbn zeta in Hbuilt.
  split.
  - eapply Forall2_Forall_r; [exact Hns|].
    rewrite Hbuilt. apply built_nodes_Forall. intros l i d k b Hb.
    destruct (same_static_fields _ b Hb) as (_ & -> & -> & ->).
    split; [done|]. by exists k.
  - assert (map position (nodes net) = map position (nodes (initializeNetwork random cfg)))
      as ->.
    { apply (Forall2_map_eq position same_static); [|done].
      intros a b Hab. unfold position.
      by destruct (same_static_fields a b Hab) as (_ & -> & -> & _). }
    rewrite Hbuilt. apply built_nodes_position_NoDup.
Qed.



(** X25. In the picture of a network built by the constructor, after any
    sequence of [forward] and [backward] calls, the circles of two
    different nodes do not meet: their centres are at least [80] apart
    along one axis, and the radius is [15]. *)
Theorem circles_disjoint (random : nat -> R) (cfg : NetworkConfig) (calls : list Call)
    (i j : nat) (a b : NetworkNode) :
  let net := foldl call (initializeNetwork random cfg) calls in
  nodes net !! i = Some a -> nodes net !! j = Some b -> i <> j ->
  circles_apart a b.
Proof.
  intros net Ha Hb Hij.
  destruct (constructed_grid random cfg calls) as (Hgrid & Hnd). fold net in Hgrid, Hnd.
  rewrite Forall_forall in Hgrid.
  destruct (Hgrid a) as (Hax & ka & Hay); [by eapply list_elem_of_lookup_2|].
  destruct (Hgrid b) as (Hbx & kb & Hby); [by eapply list_elem_of_lookup_2|].
  assert (position a <> position b) as Hne.
  { intros Heq. apply Hij. apply (NoDup_lookup _ i j (position a) Hnd).
    - change (map position ?l) with (position <$> l). by rewrite list_lookup_fmap, Ha.
    - change (map position ?l) with (position <$> l).
      by rewrite list_lookup_fmap, Hb, Heq. }
  unfold circles_apart. unfold position in Hne.
  destruct (decide (layer a = layer b)) as [Hl|Hl].
  - assert (ka <> kb) by (intros ->; apply Hne; congruence). lia.
  - lia.
Qed.

Lemma circles_disjoint_witness :
  circles_apart
    (mkNode "node-0" 100 100 0 (Num 0) (Num (1 / 2) * Num 2 - Num 1)%js input None)
    (mkNode "node-1" 100 180 0 (Num 0) (Num (1 / 2) * Num 2 - Num 1)%js input None).
Proof.
  apply (circles_disjoint (fun _ => (1 / 2)%R) initial_config [] 0 1).
  - reflexivity.
  - reflexivity.
  - discriminate.
Defined.

(** * Input nodes carry no error *)

Global Instance input_error_kept_preorder : PreOrder input_error_kept.
Proof.
  split; [by intros n|]. intros a b c [Hab Hab'] [Hbc Hbc']. split; [congruence|].
  intros Ha. rewrite Hbc' by congruence. auto.
Qed.

Lemma set_output_errors_inputs cfg targets ns :
  Forall2 input_error_kept ns (set_output_errors cfg targets ns).
Proof.
  eapply Forall2_impl; [apply map_matching_Forall2|].
  intros a b [->|[Hp (m & ->)]]; [reflexivity|]. split; [done|].
  intros Ha. unfold is_type in Hp. apply bool_decide_eq_true in Hp. congruence.
Qed.

Lemma backward_layer_nodes_inputs cfg cs ns l :
  Forall2 input_error_kept ns (backward_layer_nodes cfg cs ns l).
Proof.
  eapply Forall2_impl; [apply map_matching_Forall2|].
  intros a b [->|[_ (_ & ->)]]; [reflexivity|]. unfold backward_update, is_type.
  destruct (bool_decide_reflect (type a = input)) as [Ha|Ha]; [reflexivity|].
  destruct (error_sum ns cs a); [|reflexivity]. by split.
Qed.

Lemma backward_layers_inputs cfg cs ls :
  forall ns, Forall2 input_error_kept ns (foldl (backward_layer_nodes cfg cs) ns ls).
Proof.
  induction ls as [|l ls IH]; intros ns; cbn [foldl]; [reflexivity|].
  etrans; [apply backward_layer_nodes_inputs|apply IH].
Qed.

Lemma call_inputs net c :
  well_formed net -> Forall2 input_error_kept (nodes net) (nodes (call net c)).
Proof.
  intros Hwf. destruct c as [v|v].
  - destruct (forward_preserves_frame v net) as (H & _).
    eapply Forall2_impl; [exact H|]. intros a b Hab.
    destruct (same_but_activation_fields a b Hab) as (_ & _ & Hty & _).
    destruct Hab as [_ Herr]. by split.
  - destruct net as [ns cs cfg]. unfold call. rewrite backward_run by done.
    cbn [snd nodes]. unfold backward_nodes.
    etrans; [apply set_output_errors_inputs|apply backward_layers_inputs].
Qed.

(** X26. In a network built by the constructor for a configuration with at
    least one output node, no input node ever carries an [error] property,
    whatever [forward] and [backward] calls are made: [backward] stores
    errors on hidden and output nodes only. *)
Theorem inputs_never_get_error (random : nat -> R) (cfg : NetworkConfig)
    (calls : list Call) :
  0 < outputSize cfg ->
  Forall (fun n => type n = input -> error n = None)
         (nodes (foldl call (initializeNetwork random cfg) calls)).
Proof.
  intros HO.
  pose proof (initializeNetwork_well_formed random cfg HO) as Hwf.
  assert (Forall (fun n => type n = input -> error n = None)
                 (nodes (initializeNetwork random cfg))) as Hinit.
  { destruct (initializeNetwork_spec random cfg) as (Hns & _). cbn zeta in Hns.
    rewrite Hns. by apply built_nodes_Forall. }
  revert Hwf Hinit. generalize (initializeNetwork random cfg).
  induction calls as [|c calls IH]; intros net Hwf Hinit; cbn [foldl]; [done|].
  apply IH; [by apply call_well_formed|].
  eapply Forall2_Forall_r; [apply (call_inputs net c Hwf)|].
  eapply Forall_impl; [exact Hinit|]. intros a Ha b [Hty Herr] Hb.
  rewrite Herr by congruence. apply Ha. congruence.
Qed.

Lemma inputs_never_get_error_witness :
  Forall (fun n => type n = input -> error n = None)
         (nodes (foldl call initial_network [Forward [Num 1]; Backward [Num 1]])).
Proof.
  apply (inputs_never_get_error (fun _ => (1 / 2)%R) initial_config
           [Forward [Num 1]; Backward [Num 1]]).
  vm_compute. lia.
Defined.
